(** * ascii-vibe-codex: layout engine, numeric formatter, procedural
    generators and QC validator, embedded from the Python sources.

    Python values are modelled as follows.
    - [int] is [Z] (unbounded).
    - [float] is IEEE binary64, as the Standard Library's [spec_float] with the
      operations of [SpecFloat] at precision 53 and exponent bound 1024.
    - [str] is the list of its Unicode code points, so that [len] counts code
      points as Python does.
    - a call that can raise returns a [result]. *)

From Stdlib Require Import String Ascii.
From Stdlib Require Import ZArith NArith List Bool Lia.
From Stdlib Require Import SpecFloat.
Import ListNotations.

Local Open Scope Z_scope.

(* ================================================================= *)
(** ** Python built-ins used by the sources *)

Module Py.

Inductive exn : Type :=
| ValueError
| OverflowError
| ZeroDivisionError
| AssertionError
| AttributeError
| IndexError.

Inductive result (A : Type) : Type :=
| Ok (a : A)
| Raise (e : exn).
Arguments Ok {A} a.
Arguments Raise {A} e.

Definition bind {A B : Type} (r : result A) (k : A -> result B) : result B :=
  match r with
  | Ok a => k a
  | Raise e => Raise e
  end.

Definition is_ok {A : Type} (r : result A) : bool :=
  match r with Ok _ => true | Raise _ => false end.

(** [mapM f xs]: a list comprehension whose element expression can raise. *)
Fixpoint mapM {A B : Type} (f : A -> result B) (xs : list A) : result (list B) :=
  match xs with
  | [] => Ok []
  | x :: rest =>
      bind (f x) (fun y => bind (mapM f rest) (fun ys => Ok (y :: ys)))
  end.

(* ---------------------------------------------------------------- *)
(** *** Strings *)

Definition char : Type := N.
Definition str : Type := list char.

(** An ASCII literal as a [str]. *)
Definition lit (s : string) : str := map N_of_ascii (list_ascii_of_string s).
Arguments lit s%_string.

Definition len {A : Type} (s : list A) : Z := Z.of_nat (List.length s).

Definition str_eqb (a b : str) : bool :=
  if list_eq_dec N.eq_dec a b then true else false.

(** [s * n]; a count below 1 gives the empty string. *)
Definition repeat_str (s : str) (n : Z) : str := concat (repeat s (Z.to_nat n)).

(** [s[:n]]; a negative bound counts from the end. *)
Definition slice_to (s : str) (n : Z) : str :=
  if 0 <=? n then firstn (Z.to_nat n) s
  else firstn (Z.to_nat (len s + n)) s.

Definition space : str := [32%N].

Definition ljust (s : str) (w : Z) : str := s ++ repeat_str space (w - len s).
Definition rjust (s : str) (w : Z) : str := repeat_str space (w - len s) ++ s.

(** [str.center]: the left margin gets the extra cell when both the margin
    and the width are odd. *)
Definition center (s : str) (w : Z) : str :=
  let marg := w - len s in
  if marg <=? 0 then s
  else
    let left := marg / 2 + Z.land (Z.land marg w) 1 in
    repeat_str space left ++ s ++ repeat_str space (marg - left).

(** [str.isspace] on one code point. *)
Definition isspace (c : char) : bool :=
  let c := Z.of_N c in
  ((9 <=? c) && (c <=? 13)) || ((28 <=? c) && (c <=? 32))
  || (c =? 133) || (c =? 160) || (c =? 5760)
  || ((8192 <=? c) && (c <=? 8202))
  || (c =? 8232) || (c =? 8233) || (c =? 8239) || (c =? 8287) || (c =? 12288).

Fixpoint lstrip (s : str) : str :=
  match s with
  | c :: rest => if isspace c then lstrip rest else s
  | [] => []
  end.

Definition rstrip (s : str) : str := rev (lstrip (rev s)).
Definition strip (s : str) : str := rstrip (lstrip s).

Fixpoint startswith (s p : str) : bool :=
  match p, s with
  | [], _ => true
  | _ :: _, [] => false
  | a :: p', b :: s' => (a =? b)%N && startswith s' p'
  end.

Definition endswith (s p : str) : bool := startswith (rev s) (rev p).

(** [s.count(c)] for a one-character needle. *)
Definition count (c : char) (s : str) : Z :=
  len (filter (fun x => (x =? c)%N) s).

Fixpoint join (sep : str) (parts : list str) : str :=
  match parts with
  | [] => []
  | [p] => p
  | p :: rest => p ++ sep ++ join sep rest
  end.

Definition newline : char := 10%N.

(** [s.split("\n")]: the rows of a text. *)
Fixpoint split_rows_aux (cur : str) (s : str) : list str :=
  match s with
  | [] => [rev cur]
  | c :: rest =>
      if (c =? newline)%N then rev cur :: split_rows_aux [] rest
      else split_rows_aux (c :: cur) rest
  end.

Definition split_rows (s : str) : list str := split_rows_aux [] s.

(** Line boundaries of [str.splitlines]. *)
Definition is_linebreak (c : char) : bool :=
  let c := Z.of_N c in
  ((10 <=? c) && (c <=? 13)) || ((28 <=? c) && (c <=? 30))
  || (c =? 133) || (c =? 8232) || (c =? 8233).

(** [s.splitlines()]: CR LF is one boundary, and a text that ends with a
    boundary has no empty last line. *)
Fixpoint splitlines_aux (cur : str) (s : str) : list str :=
  match s with
  | [] => match cur with [] => [] | _ => [rev cur] end
  | c :: rest =>
      if is_linebreak c then
        match c, rest with
        | 13%N, 10%N :: rest' => rev cur :: splitlines_aux [] rest'
        | _, _ => rev cur :: splitlines_aux [] rest
        end
      else splitlines_aux (c :: cur) rest
  end.

Definition splitlines (s : str) : list str := splitlines_aux [] s.

(** Decimal digits of a natural number, most significant first. *)
Fixpoint digits_fuel (fuel : nat) (n : Z) (acc : str) : str :=
  match fuel with
  | O => acc
  | S fuel' =>
      let acc' := N.of_nat (Z.to_nat (48 + n mod 10)) :: acc in
      if n <? 10 then acc' else digits_fuel fuel' (n / 10) acc'
  end.

Definition digits_of (n : Z) : str := digits_fuel (S (Z.to_nat (Z.log2 n))) n [].

(** [str(n)] for an [int]. *)
Definition str_of_int (n : Z) : str :=
  if n <? 0 then 45%N :: digits_of (- n) else digits_of n.

(** [d.get(key, default)] on a [dict] from strings, in insertion order. *)
Fixpoint dict_get {V : Type} (d : list (str * V)) (key : str) (default : V) : V :=
  match d with
  | [] => default
  | (k, v) :: rest => if str_eqb k key then v else dict_get rest key default
  end.

(** [enumerate(xs, start)]. *)
Fixpoint enumerate {A : Type} (start : Z) (xs : list A) : list (Z * A) :=
  match xs with
  | [] => []
  | x :: rest => (start, x) :: enumerate (start + 1) rest
  end.

(** [xs[idx] = x] on a list: a negative index counts from the end, an index
    out of range raises. *)
Fixpoint list_set {A : Type} (xs : list A) (i : nat) (x : A) : list A :=
  match xs, i with
  | [], _ => []
  | _ :: rest, O => x :: rest
  | y :: rest, S i' => y :: list_set rest i' x
  end.

Definition set_item {A : Type} (xs : list A) (idx : Z) (x : A) : result (list A) :=
  let n := len xs in
  let i := if idx <? 0 then idx + n else idx in
  if (i <? 0) || (n <=? i) then Raise IndexError
  else Ok (list_set xs (Z.to_nat i) x).

(* ---------------------------------------------------------------- *)
(** *** Floats (binary64) *)

Definition float : Type := spec_float.

Definition prec : Z := 53.
Definition emax : Z := 1024.

Definition fadd : float -> float -> float := SFadd prec emax.
Definition fsub : float -> float -> float := SFsub prec emax.
Definition fmul : float -> float -> float := SFmul prec emax.
Definition fdiv : float -> float -> float := SFdiv prec emax.
Definition fabs : float -> float := SFabs.
Definition flt : float -> float -> bool := SFltb.
Definition fle : float -> float -> bool := SFleb.
Definition feq : float -> float -> bool := SFeqb.

(** The float nearest to an integer, ties to even. *)
Definition zf (z : Z) : float := binary_normalize prec emax z 0 false.

(** [float(n)] for an [int]: too large an integer raises. *)
Definition float_of_int (z : Z) : result float :=
  match zf z with
  | S754_infinity _ => Raise OverflowError
  | f => Ok f
  end.

(** The decimal literal [num/den] when both are exact floats: the nearest
    float to the quotient, as the Python parser gives it. *)
Definition dec (num den : Z) : float := fdiv (zf num) (zf den).

Definition is_finite (x : float) : bool :=
  match x with
  | S754_zero _ | S754_finite _ _ _ => true
  | _ => false
  end.

Definition is_zero (x : float) : bool :=
  match x with S754_zero _ => true | _ => false end.

(** [a / b] on floats: a zero divisor raises. *)
Definition truediv (a b : float) : result float :=
  if is_zero b then Raise ZeroDivisionError else Ok (fdiv a b).

(** [math.floor(x)]. *)
Definition floor (x : float) : result Z :=
  match x with
  | S754_zero _ => Ok 0
  | S754_finite s m e => Ok (Z.shiftl (if s then Zneg m else Zpos m) e)
  | S754_infinity _ => Raise OverflowError
  | S754_nan => Raise ValueError
  end.

(** [int(x)] on a float: truncation toward zero. *)
Definition trunc (x : float) : result Z :=
  match x with
  | S754_zero _ => Ok 0
  | S754_finite s m e =>
      let a := Z.shiftl (Zpos m) e in Ok (if s then - a else a)
  | S754_infinity _ => Raise OverflowError
  | S754_nan => Raise ValueError
  end.

(** Nearest integer to [m / 2^k], ties to even, for [m >= 0]. *)
Definition half_even (m k : Z) : Z :=
  if k <=? 0 then Z.shiftl m (- k)
  else
    let q := Z.shiftr m k in
    let r := m - Z.shiftl q k in
    let h := Z.shiftl 1 (k - 1) in
    if r <? h then q
    else if h <? r then q + 1
    else if Z.even q then q else q + 1.

(** [round(x)] on a float, one argument: banker's rounding to an [int]. *)
Definition round (x : float) : result Z :=
  match x with
  | S754_zero _ => Ok 0
  | S754_finite s m e =>
      let a := half_even (Zpos m) (- e) in Ok (if s then - a else a)
  | S754_infinity _ => Raise OverflowError
  | S754_nan => Raise ValueError
  end.

(** [max(xs)] and [min(xs)]: the running item is replaced when the next
    one compares strictly greater (smaller). *)
Definition max_float (x : float) (xs : list float) : float :=
  fold_left (fun best item => if flt best item then item else best) xs x.

Definition min_float (x : float) (xs : list float) : float :=
  fold_left (fun best item => if flt item best then item else best) xs x.

Definition max_int (x : Z) (xs : list Z) : Z :=
  fold_left (fun best item => if best <? item then item else best) xs x.

(* ---------------------------------------------------------------- *)
(** *** Division of two integers *)

(** An integer as an exact, unrounded float. *)
Definition exact_int (z : Z) : float :=
  match z with
  | 0 => S754_zero false
  | Zpos p => S754_finite false p 0
  | Zneg p => S754_finite true p 0
  end.

(** [a / b] on two [int]s: the correctly rounded quotient; a zero divisor
    raises, and so does a quotient too large for a float. *)
Definition int_truediv (a b : Z) : result float :=
  if b =? 0 then Raise ZeroDivisionError
  else
    match fdiv (exact_int a) (exact_int b) with
    | S754_infinity _ => Raise OverflowError
    | q => Ok q
    end.

End Py.

Export Py.

Notation "x <- c1 ;; c2" := (Py.bind c1 (fun x => c2))
  (at level 61, c1 at next level, right associativity).

(** Glyphs shared by the modules (code points). *)
Definition FULL_BLOCK : str := [0x2588%N].   (* U+2588 full block *)

(* ================================================================= *)
(** ** src/ascii_vibe/charlib.py *)

Module Charlib.

Record frame : Type := mk_frame {
  f_h : str; f_v : str; f_tl : str; f_tr : str; f_bl : str; f_br : str
}.

Record style_pack : Type := mk_pack {
  sp_frame : frame;
  sp_fill : str;
  sp_empty : str;
  sp_ruler : str
}.

Definition box_single : frame :=
  mk_frame [0x2500%N] [0x2502%N] [0x250C%N] [0x2510%N] [0x2514%N] [0x2518%N].
Definition box_double : frame :=
  mk_frame [0x2550%N] [0x2551%N] [0x2554%N] [0x2557%N] [0x255A%N] [0x255D%N].
Definition box_heavy : frame :=
  mk_frame [0x2501%N] [0x2503%N] [0x250F%N] [0x2513%N] [0x2517%N] [0x251B%N].
Definition box_simple : frame :=
  mk_frame (lit "-") (lit "|") (lit "+") (lit "+") (lit "+") (lit "+").

Definition minimal_ascii : style_pack :=
  mk_pack box_simple (lit "=") (lit " ") (lit "|").

Definition STYLE_PACKS : list (str * style_pack) :=
  [ (lit "minimal_ascii", minimal_ascii);
    (lit "bold_unicode", mk_pack box_heavy [0x2588%N] [0x2591%N] (lit "|"));
    (lit "double_frame", mk_pack box_double [0x2593%N] [0x2591%N] (lit "+"));
    (lit "hatch_fill", mk_pack box_single [0x2551%N] (lit " ") (lit "-")) ].

(** [get_style_pack(name)]. *)
Definition get_style_pack (name : str) : style_pack :=
  dict_get STYLE_PACKS name minimal_ascii.

End Charlib.

(* ================================================================= *)
(** ** src/ascii_vibe/aliases.py *)

Module Aliases.

Definition LABEL_ALIASES_CJK : list (str * str) :=
  [ ([0x6E29; 0x5EA6]%N, lit "ONDO");
    ([0x7D4C; 0x8DEF]%N, lit "ROUTE");
    ([0x9867; 0x5BA2]%N, lit "CUSTOMER");
    ([0x901F; 0x5EA6]%N, lit "SPEED");
    ([0x6642; 0x9593]%N, lit "TIME");
    ([0x6570; 0x91CF]%N, lit "QTY");
    ([0x6700; 0x5927]%N, lit "MAX") ].

(** The heart key is two code points long, so no single character has it. *)
Definition EMOJI_TO_ASCII : list (str * str) :=
  [ ([0x1F525]%N, lit "FIRE");
    ([0x1F4A7]%N, lit "WATER");
    ([0x1F333]%N, lit "TREE");
    ([0x26A1]%N, lit "ELEC");
    ([0x2764; 0xFE0F]%N, lit "HEART");
    ([0x1F680]%N, lit "ROCKET");
    ([0x1F4E6]%N, lit "BOX");
    ([0x1F40D]%N, lit "PYTHON") ].

Definition in_range (c lo hi : char) : bool := ((lo <=? c) && (c <=? hi))%N.

Definition is_cjk (c : char) : bool :=
  in_range c 0x4E00%N 0x9FFF%N || in_range c 0x3040%N 0x30FF%N
  || in_range c 0xAC00%N 0xD7AF%N.

Definition is_emoji (c : char) : bool :=
  in_range c 0x1F000%N 0x1FAFF%N || in_range c 0x2600%N 0x27BF%N.

(** [contains_cjk_or_emoji(s)]. *)
Definition contains_cjk_or_emoji (s : str) : bool :=
  existsb is_cjk s || existsb is_emoji s.

Definition dict_has (d : list (str * str)) (key : str) : bool :=
  existsb (fun kv => str_eqb (fst kv) key) d.

(** [alias_label(label)]. *)
Definition alias_label (label : str) : str :=
  if dict_has LABEL_ALIASES_CJK label then dict_get LABEL_ALIASES_CJK label label
  else flat_map (fun ch => dict_get EMOJI_TO_ASCII [ch] [ch]) label.

(** [UNIT_ALIASES]: the three entries that are tables, in the order in
    which [unit_symbol] reads them; the entry ["percent"] is a string and is
    not read. *)
Definition UNIT_ALIASES : list (str * list (str * str)) :=
  [ (lit "currency",
     [ (lit "USD", lit "$"); (lit "EUR", [0x20AC%N]); (lit "JPY", [0xA5%N]);
       (lit "GBP", [0xA3%N]) ]);
    (lit "metric",
     [ (lit "ms", lit "milliseconds"); (lit "s", lit "seconds");
       (lit "m", lit "minutes"); (lit "h", lit "hours") ]);
    (lit "data",
     [ (lit "B", lit "bytes"); (lit "KB", lit "kilobytes"); (lit "MB", lit "megabytes");
       (lit "GB", lit "gigabytes"); (lit "TB", lit "terabytes") ]) ].

(** The loop [for m in ("currency", "metric", "data")]. *)
Fixpoint unit_loop (names : list str) (unit : str) : str :=
  match names with
  | [] => unit
  | m :: rest =>
      let table := dict_get UNIT_ALIASES m [] in
      if dict_has table unit then dict_get table unit unit
      else unit_loop rest unit
  end.

(** [unit_symbol(unit)]. *)
Definition unit_symbol (unit : str) : str :=
  if str_eqb unit (lit "%") then lit "%"
  else unit_loop [lit "currency"; lit "metric"; lit "data"] unit.

End Aliases.

(* ================================================================= *)
(** ** src/ascii_vibe/renderer.py *)

Module Renderer.

(** [_round_half_up(x) = int(math.floor(x + 0.5))]. *)
Definition _round_half_up (x : float) : result Z :=
  Py.floor (fadd x (dec 1 2)).

(** [_scale_bar_len(value, vmax, width)]. *)
Definition _scale_bar_len (value vmax : float) (width : Z) : result Z :=
  if fle vmax (zf 0) then Ok 0
  else
    frac <- truediv value vmax ;;
    w <- float_of_int width ;;
    n <- _round_half_up (fmul frac w) ;;
    Ok (Z.max 0 (Z.min width n)).

(** The tick loop of [_build_horizontal_ruler]. *)
Fixpoint ruler_ticks (width : Z) (tick : str) (tick_positions : list float)
    (cols : list str) : result (list str) :=
  match tick_positions with
  | [] => Ok cols
  | p :: rest =>
      w <- float_of_int width ;;
      r <- _round_half_up (fmul p w) ;;
      let idx := Z.min (width - 1) (Z.max 0 r) in
      cols <- set_item cols idx tick ;;
      ruler_ticks width tick rest cols
  end.

Definition TICK_POSITIONS : list float := [zf 0; dec 1 4; dec 1 2; dec 3 4; zf 1].

(** [_build_horizontal_ruler(width, tick_positions, tick, fill)]. *)
Definition _build_horizontal_ruler (width : Z) (tick_positions : list float)
    (tick fill : str) : result str :=
  cols <- ruler_ticks width tick tick_positions (repeat fill (Z.to_nat width)) ;;
  Ok (concat cols).

Definition _any_cjk_or_emoji (labels : list str) : bool :=
  existsb Aliases.contains_cjk_or_emoji labels.

(** [max(f(x) for x in xs)] on a non-empty list. *)
Definition max_of (xs : list Z) : Z :=
  match xs with [] => 0 | x :: rest => max_int x rest end.

(** The percentage of one value: [int(_round_half_up((v/total)*100)) if
    total > 0 else 0]. *)
Definition percent_of (total v : float) : result Z :=
  if flt (zf 0) total then
    q <- truediv v total ;;
    _round_half_up (fmul q (zf 100))
  else Ok 0.

(** The loop that lays the tick labels out left to right. *)
Fixpoint tick_row_loop (width : Z) (ticks : list (float * str)) (pos_chars : Z)
    (tick_row : str) : result str :=
  match ticks with
  | [] => Ok tick_row
  | (p, lab) :: rest =>
      w <- float_of_int width ;;
      target <- _round_half_up (fmul p w) ;;
      let pad := Z.max 0 (target - pos_chars - len lab) in
      tick_row_loop width rest (pos_chars + (pad + len lab))
        (tick_row ++ repeat_str space pad ++ lab)
  end.

(** [render_bar_chart_ascii(title, series, width, style_pack="bold_unicode",
    show_scale=True, ascii_only=False)]; [series] is a [dict] in insertion
    order, so its labels are distinct. *)
Definition render_bar_chart_ascii (title : str) (series : list (str * float))
    (width : Z) (style_pack : str) (show_scale ascii_only : bool) : result str :=
  match series with
  | [] => Ok (title ++ [newline] ++ lit "( no data )")
  | (_, v0) :: rest =>
      let style_pack := if ascii_only then lit "minimal_ascii" else style_pack in
      let sp := Charlib.get_style_pack style_pack in
      let fill := Charlib.sp_fill sp in
      let empty := lit " " in
      let labels := map fst series in
      let values := map snd series in
      let vmax := max_float v0 (map snd rest) in
      (* [sum(values)]: additions from the left, starting from 0 *)
      let total := fold_left fadd values (zf 0) in
      let needs_legend := _any_cjk_or_emoji labels in
      let resolved_labels :=
        if needs_legend then map (fun il => str_of_int (fst il + 1)) (enumerate 0 labels)
        else map Aliases.alias_label labels in
      let label_col_width := Z.max 6 (max_of (map len resolved_labels)) in
      ints <- mapM Py.trunc values ;;
      let max_value_len := max_of (map (fun n => len (str_of_int n)) ints) in
      percents <- mapM (percent_of total) values ;;
      let max_percent_len := max_of (map (fun n => len (str_of_int n)) percents) in
      let legend :=
        if needs_legend then
          lit "Labels:"
          :: map (fun il => lit "  " ++ str_of_int (fst il) ++ lit ". "
                            ++ Aliases.alias_label (snd il))
                 (enumerate 1 labels)
        else [] in
      bars <- mapM
                (fun row =>
                   let '(shown, v, n_int, pct) := row in
                   n <- _scale_bar_len v vmax width ;;
                   let bar := repeat_str fill n ++ repeat_str empty (width - n) in
                   let tag := lit "[" ++ ljust shown label_col_width ++ lit "]" in
                   let valpct :=
                     rjust (str_of_int n_int) max_value_len ++ lit " ("
                     ++ rjust (str_of_int pct) max_percent_len ++ lit "%)" in
                   Ok (tag ++ space ++ bar ++ space ++ valpct))
                (combine (combine (combine resolved_labels values) ints) percents) ;;
      scale <-
        (if show_scale then
           let label_space := label_col_width + 3 in
           ruler <- _build_horizontal_ruler width TICK_POSITIONS
                      (Charlib.sp_ruler sp) (lit "-") ;;
           tick_ints <- mapM (fun p => _round_half_up (fmul p vmax)) TICK_POSITIONS ;;
           let tick_vals := map str_of_int tick_ints in
           tick_row <- tick_row_loop width (combine TICK_POSITIONS tick_vals) 0
                         (repeat_str space label_space) ;;
           Ok [repeat_str space label_space ++ ruler; tick_row]
         else Ok []) ;;
      Ok (join [newline] ([title] ++ legend ++ bars ++ scale))
  end.

(** [raw[1:-1]]. *)
Definition slice_1_m1 (s : str) : str := removelast (tl s).

Section FullBlock.

(** [str.upper], a library function the renderer calls; it may change
    the length of a string outside ASCII. *)
Variable upper : str -> str.

(** The label slot of a bar row: brackets around the upper-cased label,
    padded or cut to [L_inner]. *)
Definition label_block (L_inner : Z) (lab : str) : str :=
  let raw := strip lab in
  let raw :=
    if startswith raw (lit "[") && endswith raw (lit "]")
    then strip (slice_1_m1 raw) else raw in
  lit "[" ++ slice_to (ljust (upper raw) L_inner) L_inner ++ lit "]".

(** The defensive trim or pad at the end of the row loop. *)
Definition fit_row (W : Z) (row : str) : str :=
  if len row =? W then row
  else if W <? len row then slice_to row W
       else row ++ repeat_str space (W - len row).

(** One iteration of the bar-row loop. *)
Definition bar_row (W B L_inner vmax : Z) (lab : str) (val : Z) : result str :=
  fv <- float_of_int val ;;
  fm <- float_of_int vmax ;;
  q <- truediv fv fm ;;
  fb <- float_of_int B ;;
  n <- Py.round (fmul q fb) ;;
  let bar_seg := repeat_str FULL_BLOCK n ++ repeat_str space (B - n) in
  let val_txt := rjust (str_of_int val) 2 in
  let row :=
    FULL_BLOCK ++ space ++ label_block L_inner lab ++ space ++ bar_seg
    ++ space ++ val_txt ++ space ++ FULL_BLOCK in
  Ok (fit_row W row).

(** The lines of the block, before they are joined. *)
Definition full_block_lines (title : str) (labels : list str) (values : list Z)
    (W B : Z) : result (list str) :=
  let vmax := match values with [] => 0 | v :: vs => max_int v vs end in
  let vmax := if vmax <=? 0 then 1 else vmax in
  let L := W - (B + 8) in
  if L <? 4 then Raise ValueError
  else
    let L_inner := L - 2 in
    let top := repeat_str FULL_BLOCK W in
    let title_row := FULL_BLOCK ++ center (upper title) (W - 2) ++ FULL_BLOCK in
    rows <- mapM (fun lv => bar_row W B L_inner vmax (fst lv) (snd lv))
                 (combine labels values) ;;
    Ok ([top; title_row] ++ rows ++ [repeat_str FULL_BLOCK W]).

(** [render_swiss_full_block_bar(title, labels, values, total_width, bar_width)]. *)
Definition render_swiss_full_block_bar (title : str) (labels : list str)
    (values : list Z) (total_width bar_width : Z) : result str :=
  match labels, values with
  | [], _ | _, [] => Ok title
  | _, _ =>
      if negb (len labels =? len values) then Ok title
      else
        lines <- full_block_lines title labels values total_width bar_width ;;
        Ok (join [newline] lines)
  end.

End FullBlock.

(** [str.upper] on ASCII text. *)
Definition ascii_upper (s : str) : str :=
  map (fun c => if (97 <=? c)%N && (c <=? 122)%N then (c - 32)%N else c) s.

End Renderer.

(* ================================================================= *)
(** ** renderer.py (the legacy renderer at the repository root) *)

Module Legacy.

(** [_scale_bar_len]: commented "half-up" in the source, computed with
    the built-in [round]. *)
Definition _scale_bar_len (value vmax : float) (width : Z) : result Z :=
  if fle vmax (zf 0) then Ok 0
  else
    q <- truediv value vmax ;;
    w <- float_of_int width ;;
    Py.round (fmul q w).

Definition _half_up_int (x : float) : result Z := Py.round x.

Definition bracketed (l : str) : str := lit "[" ++ l ++ lit "]".

(** [max(len(f"[{l}]") for l in labels) if labels else 7]. *)
Definition widest_label (labels : list str) : Z :=
  match labels with
  | [] => 7
  | l :: ls => max_int (len (bracketed l)) (map (fun l => len (bracketed l)) ls)
  end.

(** [max(2, max(len(str(int(v))) for v in values) if values else 2)], on
    the values already converted by [int]. *)
Definition widest_value (ints : list Z) : Z :=
  match ints with
  | [] => 2
  | v :: vs =>
      Z.max 2 (max_int (len (str_of_int v)) (map (fun v => len (str_of_int v)) vs))
  end.

(** [_prepare_swiss_fields]; [bar_width] is read by neither branch. *)
Definition _prepare_swiss_fields (labels : list str) (values : list float)
    (total_width : Z) (bar_width : option Z) : result (Z * Z * Z * Z) :=
  let label_field := widest_label labels in
  ints <- mapM Py.trunc values ;;
  let value_field := widest_value ints in
  let bar_field := total_width - (label_field + value_field + 6) in
  let '(label_field, bar_field) :=
    if bar_field <? 0 then
      let shrink := Z.min (label_field - 3) (- bar_field) in
      let label_field := label_field - shrink in
      (label_field, total_width - (label_field + value_field + 6))
    else (label_field, bar_field) in
  let bar_field := if bar_field <? 1 then 1 else bar_field in
  Ok (label_field, bar_field, value_field, total_width).

Definition fit_row (W : Z) (row : str) : str :=
  if len row =? W then row
  else if W <? len row then slice_to row W
       else row ++ repeat_str space (W - len row).

(** One iteration of the data-row loop. *)
Definition data_row (L B V W : Z) (vmax : float) (label : str) (val : float)
    : result str :=
  let label_txt := bracketed label in
  let label_padded :=
    if len label_txt <? L then label_txt ++ repeat_str space (L - len label_txt)
    else slice_to label_txt L in
  n <- _scale_bar_len val vmax B ;;
  let bar_seg := repeat_str FULL_BLOCK n ++ repeat_str space (B - n) in
  r <- Py.round val ;;
  let value_txt := str_of_int r in
  let row :=
    FULL_BLOCK ++ space ++ label_padded ++ space ++ bar_seg ++ space
    ++ rjust value_txt V ++ space ++ FULL_BLOCK in
  Ok (fit_row W row).

Definition title_row (title : str) (W : Z) : str :=
  let inner := space ++ title ++ space in
  let inner :=
    if W - 2 <? len inner then space ++ slice_to title (Z.max 0 (W - 4)) ++ space
    else inner in
  let pad_left := (W - len inner) / 2 in
  let pad_right := W - len inner - pad_left in
  repeat_str FULL_BLOCK pad_left ++ inner ++ repeat_str FULL_BLOCK pad_right.

Definition full_block_lines (title : str) (labels : list str) (values : list float)
    (total_width : Z) (bar_width : option Z) : result (list str) :=
  f <- _prepare_swiss_fields labels values total_width bar_width ;;
  let '(L, B, V, W) := f in
  let vmax := match values with [] => zf 0 | v :: vs => max_float v vs end in
  let band := repeat_str FULL_BLOCK W in
  rows <- mapM (fun lv => data_row L B V W vmax (fst lv) (snd lv))
               (combine labels values) ;;
  Ok ([band; title_row title W; band] ++ rows ++ [band]).

(** [render_swiss_full_block_bar]: the [assert] on the lengths comes first. *)
Definition render_swiss_full_block_bar (title : str) (labels : list str)
    (values : list float) (total_width : Z) (bar_width : option Z) : result str :=
  if negb (len labels =? len values) then Raise AssertionError
  else
    match labels with
    | [] => Ok title
    | _ =>
        lines <- full_block_lines title labels values total_width bar_width ;;
        Ok (join [newline] lines)
    end.

End Legacy.

(* ================================================================= *)
(** ** src/ascii_vibe/qc.py *)

Module QC.

(** A [dict] of ground-truth data in insertion order. *)
Definition series : Type := list (str * float).

Definition dict_values (data : series) : list float := map snd data.

Definition nonblank (line : str) : bool :=
  match strip line with [] => false | _ => true end.

(** [validate_row_widths]: the set of lengths of the non-blank lines has
    one element. *)
Definition validate_row_widths (lines : list str) : bool :=
  let non_empty := filter nonblank lines in
  match non_empty with
  | [] => true
  | _ => (len (nodup Z.eq_dec (map len non_empty)) =? 1)
  end.

Definition is_bar_line (line : str) : bool := startswith (strip line) (lit "[").

(** The fill length the validator expects for one row:
    [round(values[i] / max_val * width)]. *)
Definition expected_chars (v max_val : float) (width : Z) : result Z :=
  q <- truediv v max_val ;;
  w <- float_of_int width ;;
  Py.round (fmul q w).

Definition actual_chars (line : str) : Z :=
  count 0x2588%N line + count 61%N line.

(** The loop [for i, line in enumerate(bar_lines)]. *)
Fixpoint check_bar_lines (i : nat) (bar_lines : list str) (values : list float)
    (max_val : float) (width : Z) : result bool :=
  match bar_lines with
  | [] => Ok true
  | line :: rest =>
      match nth_error values i with
      | Some v =>
          e <- expected_chars v max_val width ;;
          if negb (e =? actual_chars line) then Ok false
          else check_bar_lines (S i) rest values max_val width
      | None => check_bar_lines (S i) rest values max_val width
      end
  end.

(** [validate_bar_proportions(lines, data, width)]. *)
Definition validate_bar_proportions (lines : list str) (data : series) (width : Z)
    : result bool :=
  let bar_lines := filter is_bar_line lines in
  match bar_lines, data with
  | [], _ | _, [] => Ok true
  | _, _ =>
      let values := dict_values data in
      let max_val :=
        match values with [] => zf 1 | v :: vs => max_float v vs end in
      check_bar_lines 0 bar_lines values max_val width
  end.

Record qc_result : Type := mk_qc {
  width_ok : bool;
  proportions_ok : bool;
  borders_ok : bool
}.

Definition frame_chars : list char :=
  [0x250C; 0x250F; 0x2554; 43; 0x2502; 0x2503; 0x2551; 124; 0x2510; 0x2513;
   0x2557; 0x2514; 0x2517; 0x255A; 0x2500; 0x2501; 0x2550; 45]%N.

Definition top_left : list char := [0x250C; 0x250F; 0x2554; 43]%N.
Definition top_right : list char := [0x2510; 0x2513; 0x2557; 43]%N.
Definition bottom_left : list char := [0x2514; 0x2517; 0x255A; 43]%N.
Definition bottom_right : list char := [0x2518; 0x251B; 0x255D; 43]%N.

Definition mem (c : char) (cs : list char) : bool := existsb (N.eqb c) cs.

(** [line.startswith(tuple)] and [line.endswith(tuple)] for tuples of
    one-character strings. *)
Definition starts_with_any (line : str) (cs : list char) : bool :=
  match line with c :: _ => mem c cs | [] => false end.
Definition ends_with_any (line : str) (cs : list char) : bool :=
  starts_with_any (rev line) cs.

(** A line on which the border loop sets [borders_ok] to [False]. *)
Definition asymmetric_frame (line : str) : bool :=
  existsb (fun c => mem c frame_chars) line
  && ((starts_with_any line top_left && negb (ends_with_any line top_right))
      || (starts_with_any line bottom_left && negb (ends_with_any line bottom_right))).

(** [qc_block(text, data=None, width=None)]: an exception inside the
    proportion check is caught and turned into a failed flag. *)
Definition qc_block (text : str) (data : option series) (width : option Z)
    : qc_result :=
  let lines := splitlines text in
  let w_ok := validate_row_widths lines in
  let p_ok :=
    match data, width with
    | Some d, Some w =>
        match validate_bar_proportions lines d w with
        | Ok b => b
        | Raise _ => false
        end
    | _, _ => true
    end in
  let b_ok := negb (existsb asymmetric_frame lines) in
  mk_qc w_ok p_ok b_ok.

End QC.

(* ================================================================= *)
(** ** src/ascii_vibe/procgen.py *)

Module Procgen.

Definition MASK32 : Z := 0xFFFFFFFF.

(** [xorshift32(seed)]. *)
Definition xorshift32 (seed : Z) : Z :=
  let x := Z.land seed MASK32 in
  let x := Z.lxor x (Z.land (Z.shiftl x 13) MASK32) in
  let x := Z.lxor x (Z.shiftr x 17) in
  let x := Z.lxor x (Z.land (Z.shiftl x 5) MASK32) in
  Z.land x MASK32.

(** The state after [n] steps of the generator. *)
Fixpoint steps (n : nat) (state : Z) : Z :=
  match n with
  | O => state
  | S n' => steps n' (xorshift32 state)
  end.

(** [rand_sequence(seed, count)]. *)
Fixpoint rand_sequence (seed : Z) (count : nat) : list Z :=
  match count with
  | O => []
  | S c => let state := xorshift32 seed in state :: rand_sequence state c
  end.

Definition SPARK_UNI : list char :=
  [0x2581; 0x2582; 0x2583; 0x2584; 0x2585; 0x2586; 0x2587; 0x2588]%N.
Definition SPARK_ASC : list char := [46; 45; 61; 35]%N.   (* . - = # *)

Definition clamp_idx (n idx : Z) : Z := Z.max 0 (Z.min (n - 1) idx).

(** One iteration of the sparkline loop: the glyph for value [v] at index [i]. *)
Definition spark_cell (palette : list char) (lo hi : float) (seed : option Z)
    (i : Z) (v : float) : result char :=
  let n := len palette in
  normalized <- truediv (fsub v lo) (fsub hi lo) ;;
  k <- float_of_int (n - 1) ;;
  idx <- Py.round (fmul normalized k) ;;
  let idx := clamp_idx n idx in
  let idx :=
    match seed with
    | None => idx
    | Some s =>
        let variation_seed := s + i * 1337 in
        if xorshift32 variation_seed mod 10 =? 0 then
          let variation := xorshift32 (variation_seed * 2) mod 3 - 1 in
          clamp_idx n (idx + variation)
        else idx
    end in
  Ok (nth (Z.to_nat idx) palette 0%N).

Fixpoint spark_loop (palette : list char) (lo hi : float) (seed : option Z)
    (i : Z) (vals : list float) : result str :=
  match vals with
  | [] => Ok []
  | v :: rest =>
      c <- spark_cell palette lo hi seed i v ;;
      out <- spark_loop palette lo hi seed (i + 1) rest ;;
      Ok (c :: out)
  end.

(** [sparkline(vals, ascii_only=False, seed=None)]. *)
Definition sparkline (vals : list float) (ascii_only : bool) (seed : option Z)
    : result str :=
  match vals with
  | [] => Ok []
  | v :: vs =>
      let lo := min_float v vs in
      let hi := max_float v vs in
      let palette := if ascii_only then SPARK_ASC else SPARK_UNI in
      if feq hi lo then Ok (repeat (nth 0 palette 0%N) (length vals))
      else spark_loop palette lo hi seed 0 vals
  end.

(** The seeded loop of [braid]: [i] is the column, [n] the columns left. *)
Fixpoint braid_loop (a b : char) (n : nat) (i : Z) (state : Z) : str :=
  match n with
  | O => []
  | S n' =>
      let state := xorshift32 state in
      let c :=
        if state mod 20 =? 0 then (if i mod 2 =? 0 then b else a)
        else (if i mod 2 =? 0 then a else b) in
      c :: braid_loop a b n' (i + 1) state
  end.

Fixpoint braid_plain (a b : char) (n : nat) (i : Z) : str :=
  match n with
  | O => []
  | S n' => (if i mod 2 =? 0 then a else b) :: braid_plain a b n' (i + 1)
  end.

(** [braid(width, ascii_only=False, seed=None)]. *)
Definition braid (width : Z) (ascii_only : bool) (seed : option Z) : str :=
  if width <=? 0 then []
  else
    let '(a, b) := if ascii_only then (47%N, 92%N) else (0x2571%N, 0x2572%N) in
    match seed with
    | None => braid_plain a b (Z.to_nat width) 0
    | Some s => braid_loop a b (Z.to_nat width) 0 s
    end.

(** The inner loop of [density_field]: one line and the state after it. *)
Fixpoint density_line (fill_char : char) (threshold : Z) (n : nat) (state : Z)
    : str * Z :=
  match n with
  | O => ([], state)
  | S n' =>
      let state := xorshift32 state in
      let c := if state <? threshold then fill_char else 32%N in
      let '(rest, final) := density_line fill_char threshold n' state in
      (c :: rest, final)
  end.

Fixpoint density_lines (fill_char : char) (threshold : Z) (width : nat)
    (h : nat) (state : Z) : list str :=
  match h with
  | O => []
  | S h' =>
      let '(line, state) := density_line fill_char threshold width state in
      line :: density_lines fill_char threshold width h' state
  end.

(** [max(0.0, min(1.0, density))]. *)
Definition clamp_density (density : float) : float :=
  max_float (zf 0) [min_float (zf 1) [density]].

(** [int(density * 0xFFFFFFFF)] after the clamp. *)
Definition density_threshold (density : float) : result Z :=
  Py.trunc (fmul (clamp_density density) (zf MASK32)).

Definition density_fill (ascii_only : bool) : char :=
  if ascii_only then 35%N else 0x2593%N.

(** [density_field(width, height, density=0.3, ascii_only=False, seed=42)]. *)
Definition density_field (width height : Z) (density : float) (ascii_only : bool)
    (seed : Z) : result (list str) :=
  if (width <=? 0) || (height <=? 0) then Ok []
  else
    threshold <- density_threshold density ;;
    Ok (density_lines (density_fill ascii_only) threshold
          (Z.to_nat width) (Z.to_nat height) seed).

Record border_chars : Type := mk_chars { ch_h : char; ch_v : char; ch_corner : char; ch_rough : char }.

(** One line of [procedural_border] and the state after it. *)
Fixpoint border_line (chars : border_chars) (rough : bool) (width : Z) (edge : bool)
    (n : nat) (x : Z) (state : Z) : str * Z :=
  match n with
  | O => ([], state)
  | S n' =>
      let '(c, state) :=
        if edge then
          if (x =? 0) || (x =? width - 1) then (ch_corner chars, state)
          else
            let state := xorshift32 state in
            if rough && (state mod 10 =? 0) then (ch_rough chars, state)
            else (ch_h chars, state)
        else if (x =? 0) || (x =? width - 1) then (ch_v chars, state)
        else (32%N, state) in
      let '(rest, final) := border_line chars rough width edge n' (x + 1) state in
      (c :: rest, final)
  end.

Fixpoint border_lines (chars : border_chars) (rough : bool) (width height : Z)
    (n : nat) (y : Z) (state : Z) : list str :=
  match n with
  | O => []
  | S n' =>
      let edge := (y =? 0) || (y =? height - 1) in
      let '(line, state) :=
        border_line chars rough width edge (Z.to_nat width) 0 state in
      line :: border_lines chars rough width height n' (y + 1) state
  end.

(** [procedural_border(width, height, style="rough", ascii_only=False, seed=42)]. *)
Definition procedural_border (width height : Z) (style : str) (ascii_only : bool)
    (seed : Z) : list str :=
  if (width <? 3) || (height <? 3) then []
  else
    let chars :=
      if ascii_only then mk_chars 45%N 124%N 43%N 126%N
      else mk_chars 0x2500%N 0x2502%N 0x250C%N 0x2248%N in
    border_lines chars (str_eqb style (lit "rough")) width height
      (Z.to_nat height) 0 seed.

End Procgen.

(* ================================================================= *)
(** ** Python number formatting ([format] mini-language, fixed point) *)

Module Fmt.

(** Groups of three taken from the right of a digit string: the argument
    is the reversed digit string, the result lists the groups right to left. *)
Fixpoint right_groups (fuel : nat) (rev_digits : str) : list str :=
  match fuel, rev_digits with
  | O, _ | _, [] => []
  | S fuel', _ => rev (firstn 3 rev_digits) :: right_groups fuel' (skipn 3 rev_digits)
  end.

Definition digit_groups (digits : str) : list str :=
  rev (right_groups (length digits) (rev digits)).

(** The digits in groups of three from the right, separated by [sep]. *)
Definition grouped (sep : str) (digits : str) : str := join sep (digit_groups digits).

(** The nearest integer to [|x| * 10^places], ties to even, for finite [x]. *)
Definition scaled (places : nat) (x : float) : Z :=
  match x with
  | S754_finite _ m e => half_even (Zpos m * 10 ^ Z.of_nat places) (- e)
  | _ => 0
  end.

Definition sign_str (x : float) : str :=
  match x with
  | S754_zero true | S754_finite true _ _ | S754_infinity true => lit "-"
  | _ => []
  end.

Definition int_digits (places : nat) (x : float) : str :=
  digits_of (scaled places x / 10 ^ Z.of_nat places).

Definition frac_digits (places : nat) (x : float) : str :=
  let ds := digits_of (scaled places x mod 10 ^ Z.of_nat places) in
  repeat 48%N (places - length ds) ++ ds.

(** [f"{x:.{places}f}"], and [f"{x:,.{places}f}"] when [comma] is set. *)
Definition format_fixed (comma : bool) (places : nat) (x : float) : str :=
  match x with
  | S754_nan => lit "nan"
  | S754_infinity _ => sign_str x ++ lit "inf"
  | _ =>
      sign_str x
      ++ (if comma then grouped (lit ",") (int_digits places x) else int_digits places x)
      ++ match places with O => [] | _ => lit "." ++ frac_digits places x end
  end.

(** [f"{n:,}"] for an [int]. *)
Definition format_int_comma (n : Z) : str :=
  if n <? 0 then lit "-" ++ grouped (lit ",") (digits_of (- n))
  else grouped (lit ",") (digits_of n).

(** [s.split(sep)] for a one-character separator. *)
Fixpoint split_aux (sep : char) (cur : str) (s : str) : list str :=
  match s with
  | [] => [rev cur]
  | c :: rest =>
      if (c =? sep)%N then rev cur :: split_aux sep [] rest
      else split_aux sep (c :: cur) rest
  end.

Definition split (sep : char) (s : str) : list str := split_aux sep [] s.

(** [s.replace(a, b)] for one-character [a]. *)
Definition replace (a : char) (b : str) (s : str) : str :=
  flat_map (fun c => if (c =? a)%N then b else [c]) s.

(** [needle in s]. *)
Fixpoint contains (s needle : str) : bool :=
  startswith s needle
  || match s with
     | [] => false
     | _ :: rest => contains rest needle
     end.

(** [x == n] for a float [x] and an [int] [n]: compared exactly. *)
Definition eq_int (x : float) (n : Z) : bool :=
  match x with
  | S754_zero _ => n =? 0
  | S754_finite s m e =>
      let v := if s then Zneg m else Zpos m in
      if 0 <=? e then Z.shiftl v e =? n else v =? Z.shiftl n (- e)
  | _ => false
  end.

End Fmt.

(* ================================================================= *)
(** ** src/ascii_vibe/numbers.py *)

Module Numbers.

Import Fmt.

(** [CURRENCY_SYMBOLS], in insertion order. *)
Definition CURRENCY_SYMBOLS : list (str * str) :=
  [ (lit "USD", lit "$");
    (lit "EUR", [0x20AC%N]);
    (lit "GBP", [0xA3%N]);
    (lit "JPY", [0xA5%N]);
    (lit "CHF", lit "Fr");
    (lit "CAD", lit "C$");
    (lit "AUD", lit "A$") ].

Definition THIN_SPACE : str := [0x2009%N].
Definition REGULAR_SPACE : str := lit " ".

(** The loop over [enumerate(reversed(integer_part))] that fills [groups]. *)
Fixpoint group_loop (sep : str) (i : Z) (rev_digits : str) (groups : list str)
    : list str :=
  match rev_digits with
  | [] => groups
  | digit :: rest =>
      let groups :=
        if (0 <? i) && (i mod 3 =? 0) then groups ++ [sep] else groups in
      group_loop sep (i + 1) rest (groups ++ [[digit]])
  end.

(** The text the loop has built, read as the source reads it: the groups
    reversed and joined. *)
Definition loop_text (sep : str) (i : Z) (rev_digits : str) : str :=
  concat (rev (group_loop sep i rev_digits [])).

(** [format_currency(value, currency="USD", ascii_only=False)]. *)
Definition format_currency (value : float) (currency : str) (ascii_only : bool)
    : str :=
  let symbol := dict_get CURRENCY_SYMBOLS currency (lit "$") in
  let abs_val := fabs value in
  let formatted := format_fixed false 2 abs_val in
  let parts := split 46%N formatted in
  let integer_part := nth 0 parts [] in
  let decimal_part := if 1 <? len parts then nth 1 parts [] else lit "00" in
  let integer_part :=
    if 3 <? len integer_part then
      let sep := if ascii_only then REGULAR_SPACE else THIN_SPACE in
      join [] (rev (group_loop sep 0 (rev integer_part) []))
    else integer_part in
  let formatted_abs := integer_part ++ lit "." ++ decimal_part in
  if flt value (zf 0) then lit "(" ++ symbol ++ formatted_abs ++ lit ")"
  else symbol ++ formatted_abs.

(** [format_percent(value, decimal_places=1)]. *)
Definition format_percent (value : float) (decimal_places : nat) : str :=
  if feq value (zf 0) then lit "0%"
  else
    let sign := if flt (zf 0) value then lit "+" else [] in
    sign ++ format_fixed false decimal_places value ++ lit "%".

Definition is_currency_prefix (c : char) : bool :=
  (c =? 36)%N || (c =? 0x20AC)%N || (c =? 0xA3)%N || (c =? 0xA5)%N.

(** [re.sub] of the pattern [^[...]\s*], whose class holds the dollar,
    euro, pound and yen signs, by the empty string. *)
Definition sub_currency_prefix (s : str) : str :=
  match s with
  | c :: rest => if is_currency_prefix c then lstrip rest else s
  | [] => []
  end.

(** [re.sub(r'%$', '', s)]: [$] also matches before a final newline. *)
Definition sub_percent_end (s : str) : str :=
  match rev s with
  | 37%N :: r => rev r
  | 10%N :: 37%N :: r => rev (10%N :: r)
  | _ => s
  end.

(** [re.sub(r'[(),\s]', '', s)]. *)
Definition sub_decoration (s : str) : str :=
  filter (fun c => negb ((c =? 40)%N || (c =? 41)%N || (c =? 44)%N || isspace c)) s.

(** The classes and the scanning of [split_decimal_for_align]. *)
Definition is_prefix_char (c : char) : bool :=
  is_currency_prefix c || (c =? 40)%N || (c =? 43)%N || (c =? 45)%N.

Fixpoint span (p : char -> bool) (s : str) : str * str :=
  match s with
  | c :: rest =>
      if p c then let '(a, b) := span p rest in (c :: a, b) else ([], s)
  | [] => ([], [])
  end.

Definition is_suffix_char (c : char) : bool := (c =? 37)%N || (c =? 41)%N.

(** [split_decimal_for_align(text)]: the prefix is a run of signs and
    currency symbols with the whitespace after it, the suffix a final run of
    percent signs and closing parentheses with the whitespace before it. *)
Definition split_decimal_for_align (text : str) : str * str * str :=
  match strip text with
  | [] => ([], [], [])
  | text =>
      let '(syms, rest) := span is_prefix_char text in
      let '(ws, _) := span isspace rest in
      let prefix := syms ++ ws in
      let '(closers, before) := span is_suffix_char (rev text) in
      let suffix :=
        match closers with
        | [] => []
        | _ => let '(gap, _) := span isspace before in rev (closers ++ gap)
        end in
      let numeric_part :=
        skipn (length prefix) (firstn (length text - length suffix) text) in
      if existsb (N.eqb 46) numeric_part then
        let '(ipart, fpart) := span (fun c => negb (c =? 46)%N) numeric_part in
        (prefix, ipart, tl fpart ++ suffix)
      else (prefix, numeric_part, suffix)
  end.

Section Parsing.

(** [float(s)] on a string: [None] when it raises [ValueError]. *)
Variable float_of_str : str -> option float.

(** The class [\d] of the [re] module on [str] patterns. *)
Variable re_digit : char -> bool.

(** [is_numeric_like(text)]. *)
Definition is_numeric_like (text : str) : bool :=
  match strip text with
  | [] => false
  | clean =>
      let clean := sub_currency_prefix clean in
      let clean := sub_percent_end clean in
      let clean := sub_decoration clean in
      match float_of_str clean with
      | Some _ => true
      | None => false
      end
  end.

(** The body of the [try] block of [normalize_number], after the value
    is parsed. *)
Definition render_value (value : float) (is_currency is_percent : bool)
    (currency : str) (ascii_only : bool) : result str :=
  if is_currency then Ok (format_currency value currency ascii_only)
  else if is_percent then Ok (format_percent value 1)
  else if fle (zf 1000) (fabs value) then
    let sep := if ascii_only then REGULAR_SPACE else THIN_SPACE in
    n <- Py.trunc value ;;
    if eq_int value n then Ok (replace 44%N sep (format_int_comma n))
    else Ok (replace 44%N sep (format_fixed true 1 value))
  else
    n <- Py.trunc value ;;
    if negb (eq_int value n) then Ok (format_fixed false 1 value)
    else Ok (str_of_int n).

(** [normalize_number(text, currency="USD", ascii_only=False)]: the
    handler of the [try] block catches [ValueError] only. *)
Definition normalize_number (text : str) (currency : str) (ascii_only : bool)
    : result str :=
  if negb (is_numeric_like text) then Ok text
  else
    let clean := strip text in
    let is_negative := contains clean (lit "(") || startswith clean (lit "-") in
    let is_currency :=
      existsb (fun kv => contains clean (snd kv)) CURRENCY_SYMBOLS in
    let is_percent := endswith clean (lit "%") in
    let numeric_str :=
      filter (fun c => re_digit c || (c =? 46)%N || (c =? 45)%N)
             (replace 41%N [] (replace 40%N [] clean)) in
    match float_of_str numeric_str with
    | None => Ok text
    | Some value =>
        let value := if is_negative then SFopp (fabs value) else value in
        match render_value value is_currency is_percent currency ascii_only with
        | Raise ValueError => Ok text
        | r => r
        end
    end.

End Parsing.

End Numbers.

(* ================================================================= *)
(** ** src/ascii_vibe/transformers/html2ascii.py *)

Module Html2Ascii.

Import Fmt Numbers.

Definition SWISS_MAX_LINE : Z := 80.
Definition BULLET : str := lit "- ".

(** The handler calls that [HTMLParser.feed] makes; the handlers of
    [_SwissHTML] never read the attributes. *)
Inductive event : Type :=
| StartTag (tag : str)
| EndTag (tag : str)
| Data (data : str).

(** [self._table]: the row and the cell under construction may be [None]. *)
Record table_state : Type := mk_table {
  t_rows : list (list str);
  t_row : option (list str);
  t_cell : option str;
  t_header_done : bool
}.

Record parser : Type := mk_parser {
  p_width : Z;
  p_ascii_only : bool;
  p_out : list str;
  p_buf : str;
  p_in_li : bool;
  p_table : option table_state
}.

Definition tag_in (tag : str) (names : list string) : bool :=
  existsb (fun n => str_eqb tag (lit n)) names.

(** [s.split()]: the maximal runs without whitespace. *)
Fixpoint words_aux (cur : str) (s : str) : list str :=
  match s with
  | [] => match cur with [] => [] | _ => [rev cur] end
  | c :: rest =>
      if isspace c then
        match cur with
        | [] => words_aux [] rest
        | _ => rev cur :: words_aux [] rest
        end
      else words_aux (c :: cur) rest
  end.

(** [" ".join(s.split())]. *)
Definition collapse (s : str) : str := join space (words_aux [] s).

(** A width computed into a format specification: a negative one is
    refused by [format]. *)
Definition fmt_right (s : str) (w : Z) : result str :=
  if w <? 0 then Raise ValueError else Ok (rjust s w).
Definition fmt_left (s : str) (w : Z) : result str :=
  if w <? 0 then Raise ValueError else Ok (ljust s w).

Section Transformer.

(** [HTMLParser.feed(html)] as the list of handler calls it makes. *)
Variable feed : str -> list event.

(** [textwrap.wrap(chunk, width=width, break_long_words=False,
    replace_whitespace=True)]. *)
Variable textwrap_wrap : str -> Z -> list str.

Variable float_of_str : str -> option float.

(** [_wrap(text, width)]. *)
Definition _wrap (text : str) (width : Z) : list str :=
  flat_map
    (fun para =>
       match strip para with
       | [] => [[]]
       | chunk => textwrap_wrap chunk width
       end)
    (splitlines text).

Definition _flush_buf_as_paragraph (p : parser) : parser :=
  let txt := collapse (p_buf p) in
  let out :=
    match txt with
    | [] => p_out p
    | _ => p_out p ++ _wrap txt (p_width p) ++ [[]]
    end in
  mk_parser (p_width p) (p_ascii_only p) out [] (p_in_li p) (p_table p).

(** Column [j] is numeric when some data cell in it is numeric-like. *)
Definition numeric_col (rows : list (list str)) (j : nat) : bool :=
  existsb
    (fun r =>
       match nth_error r j with
       | Some c => is_numeric_like float_of_str c
       | None => false
       end)
    (tl rows).

Definition col_widths (rows : list (list str)) (j : nat) : Z * Z :=
  if numeric_col rows j then
    fold_left
      (fun '(lw, rw) r =>
         match nth_error r j with
         | Some c =>
             let '(prefix, ipart, fpart) := split_decimal_for_align c in
             (Z.max lw (len prefix + len ipart), Z.max rw (len fpart))
         | None => (lw, rw)
         end)
      (tl rows) (0, 0)
  else
    let cell_len r := match nth_error r j with Some c => len c | None => 0 end in
    (match rows with
     | [] => 0
     | r :: rs => max_int (cell_len r) (map cell_len rs)
     end, 0).

Definition fmt_cell (rows : list (list str)) (j : nat) (text : str)
    (is_header : bool) : result str :=
  let '(left_w, right_w) := col_widths rows j in
  if numeric_col rows j && negb is_header then
    let '(prefix, ipart, fpart) := split_decimal_for_align text in
    let mid := match fpart with [] => lit " " | _ => lit "." end in
    l <- fmt_right ipart (left_w - len prefix) ;;
    r <- fmt_left fpart right_w ;;
    Ok (space ++ prefix ++ l ++ mid ++ r ++ space)
  else
    t <- fmt_left text left_w ;;
    Ok (space ++ t ++ space).

Definition table_bar (rows : list (list str)) : str :=
  let segs :=
    map (fun j =>
           let '(left_w, right_w) := col_widths rows j in
           repeat_str (lit "-")
             (left_w + (if right_w =? 0 then 0 else 1) + right_w + 2))
        (seq 0 (length (hd [] rows))) in
  lit "+" ++ join (lit "+") segs ++ lit "+".

Definition table_line (cells : list str) : str :=
  lit "|" ++ join (lit "|") cells ++ lit "|".

Fixpoint enumerate_from {A : Type} (i : nat) (xs : list A) : list (nat * A) :=
  match xs with
  | [] => []
  | x :: rest => (i, x) :: enumerate_from (S i) rest
  end.

(** [_flush_table_structured(rows)]: the lines appended to [self.out]. *)
Definition _flush_table_structured (rows : list (list str)) : result (list str) :=
  match rows with
  | [] => Ok []
  | header :: data_rows =>
      head <- mapM (fun jc => fmt_cell rows (fst jc) (snd jc) true)
                   (enumerate_from 0 header) ;;
      body <- mapM
                (fun r =>
                   cells <- mapM (fun j => fmt_cell rows j (nth j r []) false)
                                 (seq 0 (length header)) ;;
                   Ok (table_line cells))
                data_rows ;;
      Ok ([table_bar rows; table_line head; table_bar rows] ++ body
          ++ [table_bar rows; []])
  end.

Definition set_buf (p : parser) (buf : str) : parser :=
  mk_parser (p_width p) (p_ascii_only p) (p_out p) buf (p_in_li p) (p_table p).
Definition set_in_li (p : parser) (b : bool) : parser :=
  mk_parser (p_width p) (p_ascii_only p) (p_out p) (p_buf p) b (p_table p).
Definition set_table (p : parser) (t : option table_state) : parser :=
  mk_parser (p_width p) (p_ascii_only p) (p_out p) (p_buf p) (p_in_li p) t.
Definition emit (p : parser) (lines : list str) : parser :=
  mk_parser (p_width p) (p_ascii_only p) (p_out p ++ lines) (p_buf p)
    (p_in_li p) (p_table p).

Definition handle_starttag (p : parser) (tag : str) : parser :=
  if tag_in tag ["h1"; "h2"; "h3"]%string then _flush_buf_as_paragraph p
  else if tag_in tag ["p"]%string then _flush_buf_as_paragraph p
  else if tag_in tag ["li"]%string then set_in_li (_flush_buf_as_paragraph p) true
  else if tag_in tag ["ul"; "ol"]%string then _flush_buf_as_paragraph p
  else if tag_in tag ["table"]%string then
    set_table (_flush_buf_as_paragraph p) (Some (mk_table [] None None false))
  else
    match p_table p with
    | Some t =>
        if tag_in tag ["tr"]%string then
          set_table p (Some (mk_table (t_rows t) (Some []) (t_cell t) (t_header_done t)))
        else if tag_in tag ["th"; "td"]%string then
          set_table p (Some (mk_table (t_rows t) (t_row t) (Some []) (t_header_done t)))
        else if tag_in tag ["pre"; "code"]%string then _flush_buf_as_paragraph p
        else p
    | None =>
        if tag_in tag ["tr"; "th"; "td"]%string then p
        else if tag_in tag ["pre"; "code"]%string then _flush_buf_as_paragraph p
        else p
    end.

Definition end_heading (p : parser) : parser :=
  let title := strip (p_buf p) in
  let p := set_buf p [] in
  match title with
  | [] => p
  | _ =>
      let underline :=
        repeat_str (lit "-") (Z.min (p_width p) (Z.max 4 (len title))) in
      emit p [title; underline; []]
  end.

Definition end_li (p : parser) : parser :=
  let content := collapse (p_buf p) in
  let p := set_in_li (set_buf p []) false in
  match content with
  | [] => p
  | _ =>
      let wrapped := _wrap content (p_width p - len BULLET) in
      let lines :=
        match wrapped with
        | [] => []
        | w0 :: ws =>
            (BULLET ++ w0) :: map (fun w => repeat_str space (len BULLET) ++ w) ws
        end in
      emit p (lines ++ [[]])
  end.

Definition end_pre (p : parser) : parser :=
  match p_buf p with
  | [] => p
  | buf => set_buf (emit p [rstrip buf; []]) []
  end.

Definition handle_endtag (p : parser) (tag : str) : result parser :=
  if tag_in tag ["h1"; "h2"; "h3"]%string then Ok (end_heading p)
  else if tag_in tag ["p"]%string then Ok (_flush_buf_as_paragraph p)
  else if tag_in tag ["li"]%string then Ok (end_li p)
  else if tag_in tag ["ul"; "ol"]%string then Ok (emit p [[]])
  else
    match p_table p with
    | Some t =>
        if tag_in tag ["th"; "td"]%string then
          match t_cell t, t_row t with
          | Some c, Some row =>
              Ok (set_table p
                    (Some (mk_table (t_rows t) (Some (row ++ [collapse c])) None
                             (t_header_done t))))
          | _, _ => Raise AttributeError
          end
        else if tag_in tag ["tr"]%string then
          let rows :=
            match t_row t with
            | Some row => t_rows t ++ [row]
            | None => t_rows t
            end in
          Ok (set_table p (Some (mk_table rows None (t_cell t) (t_header_done t))))
        else if tag_in tag ["thead"]%string then
          Ok (set_table p (Some (mk_table (t_rows t) (t_row t) (t_cell t) true)))
        else if tag_in tag ["table"]%string then
          lines <- _flush_table_structured (t_rows t) ;;
          Ok (set_table (emit p lines) None)
        else if tag_in tag ["pre"; "code"]%string then Ok (end_pre p)
        else Ok p
    | None =>
        if tag_in tag ["tr"]%string then Ok p
        else if tag_in tag ["th"; "td"]%string then Ok p
        else if tag_in tag ["pre"; "code"]%string then Ok (end_pre p)
        else Ok p
    end.

Definition handle_data (p : parser) (data : str) : parser :=
  match p_table p with
  | Some (mk_table rows row (Some c) hd) =>
      set_table p (Some (mk_table rows row (Some (c ++ data)) hd))
  | _ => set_buf p (p_buf p ++ data)
  end.

Definition handle (p : parser) (e : event) : result parser :=
  match e with
  | StartTag tag => Ok (handle_starttag p tag)
  | EndTag tag => handle_endtag p tag
  | Data data => Ok (handle_data p data)
  end.

Fixpoint run (p : parser) (events : list event) : result parser :=
  match events with
  | [] => Ok p
  | e :: rest => p' <- handle p e ;; run p' rest
  end.

(** The clamp on the first line of [html_to_swiss_ascii]. *)
Definition effective_width (width : Z) : Z := Z.max 40 (Z.min width SWISS_MAX_LINE).

(** [html_to_swiss_ascii(html, width=60, ascii_only=False, ...)]; the
    currency and separator arguments are not read. *)
Definition html_to_swiss_ascii (html : str) (width : Z) (ascii_only : bool)
    : result str :=
  let width := effective_width width in
  p <- run (mk_parser width ascii_only [] [] false None) (feed html) ;;
  let p := _flush_buf_as_paragraph p in
  Ok (join [newline] (map (fun line => slice_to line width) (p_out p))).

End Transformer.

End Html2Ascii.

(* ================================================================= *)
(** ** Statements of the specification, in its own words *)

Module Claimed.

Import Fmt Numbers.

(** "negative values are wrapped in parentheses", "exactly 2 fractional
    digits", "thousands groups of 3 digits from the right", "currency
    symbol is a fixed prefix looked up from a closed symbol table
    (fallback [$])". *)
Definition currency_text (value : float) (currency : str) (ascii_only : bool) : str :=
  let sep := if ascii_only then lit " " else [0x2009%N] in
  let body :=
    dict_get CURRENCY_SYMBOLS currency (lit "$")
    ++ grouped sep (int_digits 2 (fabs value))
    ++ lit "." ++ frac_digits 2 (fabs value) in
  if flt value (zf 0) then lit "(" ++ body ++ lit ")" else body.

Definition is_digit (c : char) : bool := (48 <=? c)%N && (c <=? 57)%N.

(** "per-cell fill decision is [step(state) < threshold] where
    [threshold = density * 2^32]": the comparison of an integer state
    with the exact product. *)
Definition below_density_pow32 (density : float) (state : Z) : bool :=
  match density with
  | S754_zero _ => state <? 0
  | S754_finite s m e =>
      let v := if s then Zneg m else Zpos m in
      if 0 <=? e + 32 then state <? Z.shiftl v (e + 32)
      else Z.shiftl state (- (e + 32)) <? v
  | S754_infinity s => negb s
  | S754_nan => false
  end.

(** The cell of a field at row [y], column [x], is the fill glyph. *)
Definition filled (lines : list str) (fill_char : char) (y x : nat) : bool :=
  (nth x (nth y lines []) 0 =? fill_char)%N.

(** The field follows the rule of the specification on every cell. *)
Definition density_rule_pow32 (width height : Z) (density : float)
    (ascii_only : bool) (seed : Z) : Prop :=
  forall lines y x,
    Procgen.density_field width height density ascii_only seed = Ok lines ->
    (y < Z.to_nat height)%nat -> (x < Z.to_nat width)%nat ->
    filled lines (Procgen.density_fill ascii_only) y x
    = below_density_pow32 density
        (Procgen.steps (y * Z.to_nat width + x + 1) seed).

(** "Seed: an unsigned 32-bit integer": two seeds with the same low 32
    bits. *)
Definition same_seed32 (s1 s2 : Z) : Prop := s1 mod 2 ^ 32 = s2 mod 2 ^ 32.

(** "the call fails with a [LayoutInfeasible] error rather than silently
    truncating data": a layout that is returned fits the row template,
    with a bar field of at least one cell. *)
Definition returned_layout_fits (labels : list str) (values : list float)
    (total_width : Z) (bar_width : option Z) : Prop :=
  forall L B V W,
    Legacy._prepare_swiss_fields labels values total_width bar_width
    = Ok (L, B, V, W) ->
    1 <= B /\ L + B + V + 6 = W.

End Claimed.

(** Instances of the library functions the models take as parameters, for
    evaluating them on examples. *)
Module Instances.

(** [float(s)] on strings of ASCII digits; other strings are refused. *)
Definition float_of_digits (s : str) : option float :=
  match s with
  | [] => None
  | _ =>
      if forallb Claimed.is_digit s
      then Some (zf (fold_left (fun acc c => 10 * acc + (Z.of_N c - 48)) s 0))
      else None
  end.

(** A tokenizer for one paragraph: the whole input is its text. *)
Definition feed_paragraph (html : str) : list Html2Ascii.event :=
  [Html2Ascii.StartTag (lit "p"); Html2Ascii.Data html; Html2Ascii.EndTag (lit "p")].

(** [textwrap.wrap] on a chunk without a break opportunity. *)
Definition wrap_unbroken (chunk : str) (width : Z) : list str := [chunk].

End Instances.

(* ================================================================= *)
(** ** src/ascii_vibe/validators.py *)

Module Validators.

(** [ValidationResult]; [details], a dictionary of diagnostics that no
    caller reads, is left out. *)
Record ValidationResult : Type := mk_result {
  check_name : str;
  passed : bool;
  score : float;
  message : str
}.

Definition min_int (x : Z) (xs : list Z) : Z :=
  fold_left (fun best item => if item <? best then item else best) xs x.

(** [validate_row_widths(lines, allow_empty=True)]. *)
Definition validate_row_widths (lines : list str) (allow_empty : bool)
    : ValidationResult :=
  match lines with
  | [] => mk_result (lit "row_widths") true (zf 1) (lit "No lines to validate")
  | _ =>
      let filtered_lines :=
        filter (fun line => if allow_empty then QC.nonblank line else true) lines in
      match map len filtered_lines with
      | [] => mk_result (lit "row_widths") true (zf 1) (lit "No applicable lines")
      | w0 :: ws =>
          let unique_widths := nodup Z.eq_dec (w0 :: ws) in
          if len unique_widths =? 1 then
            mk_result (lit "row_widths") true (zf 1)
              (lit "All " ++ str_of_int (len filtered_lines)
               ++ lit " lines have equal width (" ++ str_of_int w0 ++ lit " chars)")
          else
            mk_result (lit "row_widths") false (zf 0)
              (lit "Width mismatch: " ++ str_of_int (len unique_widths)
               ++ lit " different widths (min: " ++ str_of_int (min_int w0 ws)
               ++ lit ", max: " ++ str_of_int (max_int w0 ws) ++ lit ")")
      end
  end.

(** The counting loop of [validate_line_length]: the lines that are too
    short and too long, blank lines skipped. *)
Fixpoint length_loop (lines : list str) (min_chars max_chars : Z)
    (too_short too_long : Z) : Z * Z :=
  match lines with
  | [] => (too_short, too_long)
  | line :: rest =>
      let line_len := len (strip line) in
      if line_len =? 0 then length_loop rest min_chars max_chars too_short too_long
      else if line_len <? min_chars then
        length_loop rest min_chars max_chars (too_short + 1) too_long
      else if max_chars <? line_len then
        length_loop rest min_chars max_chars too_short (too_long + 1)
      else length_loop rest min_chars max_chars too_short too_long
  end.

(** [validate_line_length(lines, min_chars=45, max_chars=72)]. *)
Definition validate_line_length (lines : list str) (min_chars max_chars : Z)
    : result ValidationResult :=
  match lines with
  | [] => Ok (mk_result (lit "line_length") true (zf 1) (lit "No lines to validate"))
  | _ =>
      let '(too_short, too_long) := length_loop lines min_chars max_chars 0 0 in
      let total_violations := too_short + too_long in
      let content_lines := len (filter QC.nonblank lines) in
      if total_violations =? 0 then
        Ok (mk_result (lit "line_length") true (zf 1)
              (lit "All " ++ str_of_int content_lines ++ lit " lines within "
               ++ str_of_int min_chars ++ lit "-" ++ str_of_int max_chars
               ++ lit " char range"))
      else
        q <- int_truediv total_violations content_lines ;;
        let score := max_float (zf 0) [fsub (zf 1) q] in
        Ok (mk_result (lit "line_length") (fle (dec 9 10) score) score
              (str_of_int total_violations ++ lit "/" ++ str_of_int content_lines
               ++ lit " lines outside range (" ++ str_of_int too_short
               ++ lit " short, " ++ str_of_int too_long ++ lit " long)"))
  end.

(** One pass of the inner loop of [calculate_levenshtein_distance]:
    [previous_row] is read at [j] and [j + 1], [current_row] at [j], and
    the minimum of the three costs is appended. *)
Fixpoint row_loop (c1 : char) (previous_row current_row : list Z) (j : nat)
    (s2 : str) : list Z :=
  match s2 with
  | [] => current_row
  | c2 :: rest =>
      let insertions := nth (S j) previous_row 0 + 1 in
      let deletions := nth j current_row 0 + 1 in
      let substitutions := nth j previous_row 0 + (if (c1 =? c2)%N then 0 else 1) in
      row_loop c1 previous_row
        (current_row ++ [Z.min insertions (Z.min deletions substitutions)])
        (S j) rest
  end.

(** The outer loop [for i, c1 in enumerate(s1)]. *)
Fixpoint rows_loop (s1 : str) (i : Z) (s2 : str) (previous_row : list Z) : list Z :=
  match s1 with
  | [] => previous_row
  | c1 :: rest => rows_loop rest (i + 1) s2 (row_loop c1 previous_row [i + 1] 0 s2)
  end.

(** The body of the function once [len(s1) >= len(s2)]. *)
Definition distance_ordered (s1 s2 : str) : Z :=
  if len s2 =? 0 then len s1
  else last (rows_loop s1 0 s2 (map Z.of_nat (seq 0 (S (length s2))))) 0.

(** [calculate_levenshtein_distance(s1, s2)]: the recursive call swaps the
    arguments once, when the first is the shorter. *)
Definition calculate_levenshtein_distance (s1 s2 : str) : Z :=
  if len s1 <? len s2 then distance_ordered s2 s1 else distance_ordered s1 s2.

(** [re.sub(r'\s+', ' ', s)]: every run of whitespace becomes one space. *)
Fixpoint sub_ws_runs (in_run : bool) (s : str) : str :=
  match s with
  | [] => []
  | c :: rest =>
      if isspace c then
        if in_run then sub_ws_runs true rest else 32%N :: sub_ws_runs true rest
      else c :: sub_ws_runs false rest
  end.

Section Parity.

(** [repr] of a float, as an f-string prints it. *)
Variable float_repr : float -> str.

(** [validate_parity(dom_output, cli_output, threshold=0.01)]. *)
Definition validate_parity (dom_output cli_output : str) (threshold : float)
    : result ValidationResult :=
  match dom_output, cli_output with
  | [], _ | _, [] =>
      Ok (mk_result (lit "parity") false (zf 0) (lit "Cannot compare empty outputs"))
  | _, _ =>
      let dom_normalized := sub_ws_runs false (strip dom_output) in
      let cli_normalized := sub_ws_runs false (strip cli_output) in
      let distance := calculate_levenshtein_distance dom_normalized cli_normalized in
      let max_len := Z.max (len dom_normalized) (len cli_normalized) in
      similarity <-
        (if 0 <? max_len then
           q <- int_truediv distance max_len ;; Ok (fsub (zf 1) q)
         else Ok (zf 1)) ;;
      let diff_ratio := fsub (zf 1) similarity in
      let passed := fle diff_ratio threshold in
      Ok (mk_result (lit "parity") passed similarity
            (lit "Diff ratio: " ++ Fmt.format_fixed false 4 diff_ratio ++ lit " ("
             ++ (if passed then lit "PASS" else lit "FAIL") ++ lit " threshold "
             ++ float_repr threshold ++ lit ")"))
  end.

End Parity.

(** The dictionary [validation_summary] returns. *)
Record summary : Type := mk_summary {
  total_checks : Z;
  passed_checks : Z;
  failed_checks : Z;
  pass_rate : float;
  average_score : float;
  overall_grade : str;
  checks : list (str * bool * float * str)
}.

(** [validation_summary(results)]; [sum] adds the scores from the left,
    starting from 0. *)
Definition validation_summary (results : list ValidationResult) : result summary :=
  let total := len results in
  let passed_n := len (filter passed results) in
  let failed := total - passed_n in
  average <-
    (if 0 <? total then
       t <- float_of_int total ;;
       truediv (fold_left fadd (map score results) (zf 0)) t
     else Ok (zf 0)) ;;
  rate <- (if 0 <? total then int_truediv passed_n total else Ok (zf 0)) ;;
  Ok (mk_summary total passed_n failed rate average
        (if passed_n =? total then lit "PASS" else lit "FAIL")
        (map (fun r => (check_name r, passed r, score r, message r)) results)).

(** The two sets of [validate_accent_budget], as code points. *)
Definition accent_chars : list char :=
  [33; 64; 35; 36; 37; 94; 38; 42; 40; 41; 95; 43; 61; 91; 93; 123; 125; 124; 92;
   58; 59; 34; 39; 60; 62; 63; 47; 126; 96]%N.

Definition decorative_unicode : list char :=
  [9601; 9602; 9603; 9604; 9605; 9606; 9607; 9608; 9615; 9614; 9613; 9612; 9611;
   9610; 9609; 9585; 9586; 9472; 9473; 9552; 9474; 9475; 9553; 9484; 9488; 9492;
   9496; 9487; 9491; 9495; 9499; 9556; 9559; 9562; 9565]%N.

(** [char in all_accents]. *)
Definition is_accent (c : char) : bool := QC.mem c (accent_chars ++ decorative_unicode).

(** The loop over the lines: the accents and characters counted so far and
    the number of lines over the per-line limit; blank lines are skipped. *)
Fixpoint accent_loop (lines : list str) (max_accents_per_line : Z)
    (total_accents total_chars line_violations : Z) : Z * Z * Z :=
  match lines with
  | [] => (total_accents, total_chars, line_violations)
  | line :: rest =>
      if negb (QC.nonblank line) then
        accent_loop rest max_accents_per_line total_accents total_chars line_violations
      else
        let line_accents := len (filter is_accent line) in
        accent_loop rest max_accents_per_line (total_accents + line_accents)
          (total_chars + len line)
          (if max_accents_per_line <? line_accents then line_violations + 1
           else line_violations)
  end.

Section Budget.

Variable float_repr : float -> str.

(** [validate_accent_budget(text, max_accents_per_line=3, max_total_ratio=0.05)]. *)
Definition validate_accent_budget (text : str) (max_accents_per_line : Z)
    (max_total_ratio : float) : result ValidationResult :=
  let lines := splitlines text in
  let '(total_accents, total_chars, line_violations) :=
    accent_loop lines max_accents_per_line 0 0 0 in
  accent_ratio <-
    (if 0 <? total_chars then int_truediv total_accents total_chars else Ok (zf 0)) ;;
  let ratio_violation := flt max_total_ratio accent_ratio in
  if (line_violations =? 0) && negb ratio_violation then
    Ok (mk_result (lit "accent_budget") true (zf 1)
          (lit "Accent budget OK: " ++ Fmt.format_fixed false 3 accent_ratio
           ++ lit " ratio, max " ++ str_of_int max_accents_per_line ++ lit "/line"))
  else
    q1 <- int_truediv line_violations (len lines) ;;
    q2 <- truediv accent_ratio max_total_ratio ;;
    let score := max_float (zf 0) [fsub (fsub (zf 1) q1) (fmul q2 (dec 1 2))] in
    let issues :=
      (if 0 <? line_violations then
         [str_of_int line_violations ++ lit " lines exceed "
          ++ str_of_int max_accents_per_line ++ lit " accents"]
       else [])
      ++ (if ratio_violation then
            [lit "Overall ratio " ++ Fmt.format_fixed false 3 accent_ratio ++ lit " > "
             ++ float_repr max_total_ratio]
          else []) in
    Ok (mk_result (lit "accent_budget") false score (join (lit "; ") issues)).

End Budget.

End Validators.

(* ================================================================= *)
(** ** src/ascii_vibe/governance.py *)

Module Governance.





End Governance.


(* ================================================================= *)
(** ** Notions used to state and prove the properties *)

Module Aux.

(** The two kinds of step: [x ^= (x << k) & MASK] and [x ^= x >> k]. *)
Definition left_step (k x : Z) : Z := Z.lxor x (Z.land (Z.shiftl x k) Procgen.MASK32).
Definition right_step (k x : Z) : Z := Z.lxor x (Z.shiftr x k).

(** What [procedural_border] puts at column [x] of a line. *)
Definition border_cell_ok (chars : Procgen.border_chars) (rough : bool) (width : Z)
    (edge : bool) (x : Z) (c : char) : Prop :=
  if edge then
    if (x =? 0) || (x =? width - 1) then c = Procgen.ch_corner chars
    else c = Procgen.ch_h chars \/ (rough = true /\ c = Procgen.ch_rough chars)
  else if (x =? 0) || (x =? width - 1) then c = Procgen.ch_v chars
  else c = 32%N.

(** A character that is neither a sign or currency symbol, nor a closing
    mark, nor whitespace. *)
Definition is_content (c : char) : bool :=
  negb (Numbers.is_prefix_char c || Numbers.is_suffix_char c || isspace c).

(** The prefix and the suffix that [split_decimal_for_align] cuts from a
    stripped text. *)
Definition prefix_of (t : str) : str :=
  let '(syms, rest) := Numbers.span Numbers.is_prefix_char t in
  let '(ws, _) := Numbers.span isspace rest in
  syms ++ ws.

Definition suffix_of (t : str) : str :=
  let '(closers, before) := Numbers.span Numbers.is_suffix_char (rev t) in
  match closers with
  | [] => []
  | _ => let '(gap, _) := Numbers.span isspace before in rev (closers ++ gap)
  end.

Definition edge_char (c : char) : bool :=
  Numbers.is_prefix_char c || Numbers.is_suffix_char c || isspace c.

(** The length of cell [j] of a table row, 0 when the row is short. *)
Definition cell_len (j : nat) (r : list str) : Z :=
  match nth_error r j with Some c => len c | None => 0 end.


(** The edit distance by its recurrence on the first characters. *)
Fixpoint lev (a : str) : str -> Z :=
  match a with
  | [] => fun b => len b
  | x :: a' =>
      fix inner (b : str) : Z :=
        match b with
        | [] => len (x :: a')
        | y :: b' =>
            Z.min (lev a' (y :: b') + 1)
              (Z.min (inner b' + 1) (lev a' b' + (if (x =? y)%N then 0 else 1)))
        end
  end.

(** The row of the table for a prefix of [s1] (given reversed): entry [j]
    is the distance to the first [j] characters of [s2]. *)
Definition row_of (ru : str) (s2 : str) : list Z :=
  map (fun j => lev ru (rev (firstn j s2))) (seq 0 (S (length s2))).

End Aux.

Import Aux.

(* ================================================================= *)
(** * Properties *)

(** ** Rounding: the renderer and the validator *)

(** C1. The validator's expected fill length is computed with the built-in
    [round] (ties to even) while the renderer's [_scale_bar_len] uses
    floor(x + 0.5): for value 5, maximum 40 and width 20 the product is
    exactly 2.5; the renderer draws 3 cells, the validator expects 2, and
    [qc_block] reports [proportions_ok = False] on the chart the renderer
    draws for that very data and width. *)
Theorem validator_and_renderer_disagree_on_tie :
  Renderer._scale_bar_len (zf 5) (zf 40) 20 = Ok 3
  /\ QC.expected_chars (zf 5) (zf 40) 20 = Ok 2
  /\ exists text,
       Renderer.render_bar_chart_ascii (lit "T") [(lit "A", zf 40); (lit "B", zf 5)]
         20 (lit "bold_unicode") true false = Ok text
       /\ QC.proportions_ok
            (QC.qc_block text (Some [(lit "A", zf 40); (lit "B", zf 5)]) (Some 20))
          = false.
Proof.
  split; [vm_compute; reflexivity |]. split; [vm_compute; reflexivity |].
  eexists. split; vm_compute; reflexivity.
Qed.

(** C4. [_round_half_up] rounds 2.5 to 3 and -2.5 to -2, and the compact
    renderer uses it for the fill length (5 of 40 on 20 cells: 3), the
    ruler ticks (width 10: columns 0, 3, 5, 8, 9), the tick labels (maximum
    10: 0, 3, 5, 8, 10) and the percentages (1 of 8: 13). The sparkline
    palette index is computed with the built-in [round] instead: for the
    values 0, 5, 6 and the four-glyph ASCII palette the middle index is
    exactly 2.5, half-up gives 3 (the glyph [#]) and the sparkline shows
    index 2 (the glyph [=]). *)
Theorem sparkline_index_rounds_half_even :
  Renderer._round_half_up (dec 5 2) = Ok 3
  /\ Renderer._round_half_up (dec (-5) 2) = Ok (-2)
  /\ Renderer._scale_bar_len (zf 5) (zf 40) 20 = Ok 3
  /\ Renderer._build_horizontal_ruler 10 Renderer.TICK_POSITIONS (lit "|") (lit "-")
     = Ok (lit "|--|-|--||")
  /\ mapM (fun p => Renderer._round_half_up (fmul p (zf 10))) Renderer.TICK_POSITIONS
     = Ok [0; 3; 5; 8; 10]
  /\ Renderer.percent_of (zf 8) (zf 1) = Ok 13
  /\ fmul (fdiv (fsub (zf 5) (zf 0)) (fsub (zf 6) (zf 0))) (zf 3) = dec 5 2
  /\ Procgen.sparkline [zf 0; zf 5; zf 6] true None = Ok (lit ".=#")
  /\ Py.round (dec 5 2) = Ok 2.
Proof. repeat split; vm_compute; reflexivity. Qed.

(** ** Row widths of the full-block band *)

Lemma len_cons {A : Type} (c : A) (s : list A) : len (c :: s) = 1 + len s.
Proof. unfold len. cbn [List.length]. lia. Qed.

Lemma len_nil {A : Type} : len (@nil A) = 0.
Proof. reflexivity. Qed.

Lemma len_app {A : Type} (a b : list A) : len (a ++ b) = len a + len b.
Proof. unfold len. rewrite length_app. lia. Qed.

Lemma len_rev {A : Type} (a : list A) : len (rev a) = len a.
Proof. unfold len. now rewrite length_rev. Qed.

Lemma len_nonneg {A : Type} (a : list A) : 0 <= len a.
Proof. unfold len. lia. Qed.

Lemma repeat_str_len (c : char) (n : Z) : len (repeat_str [c] n) = Z.max 0 n.
Proof.
  unfold repeat_str, len.
  assert (H : forall k, length (concat (repeat [c] k)) = k).
  { induction k as [| k IH]; cbn; [reflexivity | now rewrite IH]. }
  rewrite H. lia.
Qed.

Lemma repeat_space_len (n : Z) : len (repeat_str space n) = Z.max 0 n.
Proof. apply repeat_str_len. Qed.

Lemma repeat_block_len (n : Z) : len (repeat_str FULL_BLOCK n) = Z.max 0 n.
Proof. apply repeat_str_len. Qed.

Lemma slice_to_len_min (s : str) (n : Z) :
  0 <= n -> len (slice_to s n) = Z.min n (len s).
Proof.
  intros Hn. unfold slice_to, len.
  destruct (0 <=? n) eqn:E; [| apply Z.leb_gt in E; lia].
  rewrite length_firstn. lia.
Qed.

Lemma center_len (s : str) (w : Z) : len (center s w) = Z.max (len s) w.
Proof.
  unfold center.
  destruct (w - len s <=? 0) eqn:E.
  - apply Z.leb_le in E. lia.
  - apply Z.leb_gt in E.
    assert (Hbit : 0 <= Z.land (Z.land (w - len s) w) 1 <= 1).
    { change 1 with (Z.ones 1) at 1 2. rewrite Z.land_ones by lia.
      pose proof (Z.mod_pos_bound (Z.land (w - len s) w) (2 ^ 1) ltac:(lia)).
      change (2 ^ 1) with 2 in *. lia. }
    assert (Hhalf : 0 <= (w - len s) / 2 /\ 2 * ((w - len s) / 2) <= w - len s)
      by (split; [apply Z.div_pos; lia | apply Z.mul_div_le; lia]).
    assert (Hleft : (w - len s) / 2 + Z.land (Z.land (w - len s) w) 1 <= w - len s).
    { destruct (Z.eq_dec (w - len s) 1) as [E1 | E1].
      - assert ((w - len s) / 2 = 0) by (rewrite E1; reflexivity). lia.
      - assert (1 <= (w - len s) / 2) by (apply Z.div_le_lower_bound; lia). lia. }
    rewrite !len_app, !repeat_space_len. lia.
Qed.

Lemma packaged_fit_row_len (W : Z) (row : str) :
  0 <= W -> len (Renderer.fit_row W row) = W.
Proof.
  intros HW. unfold Renderer.fit_row.
  destruct (len row =? W) eqn:Eeq; [now apply Z.eqb_eq |].
  destruct (W <? len row) eqn:Elt.
  - apply Z.ltb_lt in Elt. rewrite slice_to_len_min by exact HW. lia.
  - apply Z.ltb_ge in Elt. rewrite len_app, repeat_space_len. lia.
Qed.

Lemma mapM_forall {A B : Type} (f : A -> result B) (P : B -> Prop) (xs : list A) :
  (forall x y, f x = Ok y -> P y) ->
  forall ys, mapM f xs = Ok ys -> Forall P ys.
Proof.
  intros Hf. induction xs as [| x rest IH]; intros ys Hrun; cbn [mapM] in Hrun.
  - injection Hrun as <-. constructor.
  - destruct (f x) as [y | e] eqn:Ey; cbn [Py.bind] in Hrun; [| discriminate].
    destruct (mapM f rest) as [ys' | e]; cbn [Py.bind] in Hrun; [| discriminate].
    injection Hrun as <-. constructor; [exact (Hf _ _ Ey) | now apply IH].
Qed.

(** In the packaged renderer the cap rows and every bar row have exactly
    [total_width] characters; the title row has [total_width] characters
    only when the upper-cased title has at most [total_width - 2]. *)
Lemma packaged_rows_width (upper : str -> str) (title : str) (labels : list str)
    (values : list Z) (W B : Z) (lines : list str) :
  0 <= W ->
  Renderer.full_block_lines upper title labels values W B = Ok lines ->
  exists title_row rows,
    lines = repeat_str FULL_BLOCK W :: title_row :: rows ++ [repeat_str FULL_BLOCK W]
    /\ len (repeat_str FULL_BLOCK W) = W
    /\ Forall (fun row => len row = W) rows
    /\ len title_row = 2 + Z.max (len (upper title)) (W - 2).
Proof.
  intros HW Hrun. unfold Renderer.full_block_lines in Hrun.
  destruct (W - (B + 8) <? 4); [discriminate |].
  match type of Hrun with
  | Py.bind (mapM ?f ?xs) _ = _ => destruct (mapM f xs) as [rows | e] eqn:Erows
  end; cbn [Py.bind] in Hrun; [| discriminate].
  injection Hrun as <-.
  exists (FULL_BLOCK ++ center (upper title) (W - 2) ++ FULL_BLOCK), rows.
  split; [reflexivity |].
  split; [rewrite repeat_block_len; lia |].
  split.
  - refine (mapM_forall _ _ _ _ rows Erows).
    intros [lab val] row Hrow. unfold Renderer.bar_row in Hrow. cbn [fst snd] in Hrow.
    repeat match type of Hrow with
           | Py.bind ?r _ = _ => destruct r; cbn [Py.bind] in Hrow; [| discriminate]
           end.
    injection Hrow as <-. now apply packaged_fit_row_len.
  - rewrite !len_app, center_len. change (len FULL_BLOCK) with 1. lia.
Qed.

Lemma legacy_fit_row_len (W : Z) (row : str) :
  0 <= W -> len (Legacy.fit_row W row) = W.
Proof. exact (packaged_fit_row_len W row). Qed.

Lemma legacy_title_row_len (title : str) (W : Z) :
  2 <= W -> len (Legacy.title_row title W) = W.
Proof.
  intros HW. unfold Legacy.title_row.
  set (inner := if W - 2 <? len (space ++ title ++ space)
                then space ++ slice_to title (Z.max 0 (W - 4)) ++ space
                else space ++ title ++ space).
  assert (Hinner : 2 <= len inner <= W).
  { subst inner. pose proof (len_nonneg title).
    destruct (W - 2 <? len (space ++ title ++ space)) eqn:E.
    - rewrite !len_app, slice_to_len_min by lia. cbn [space len length Z.of_nat]. lia.
    - apply Z.ltb_ge in E. revert E. rewrite !len_app. cbn [space len length Z.of_nat]. lia. }
  clearbody inner.
  assert (Hhalf : 0 <= (W - len inner) / 2 /\ 2 * ((W - len inner) / 2) <= W - len inner)
    by (split; [apply Z.div_pos; lia | apply Z.mul_div_le; lia]).
  rewrite !len_app, !repeat_block_len. lia.
Qed.

(** In the legacy renderer every line of the block, the title row
    included, has exactly [total_width] characters. *)
Lemma legacy_rows_width (title : str) (labels : list str) (values : list float)
    (W : Z) (bar_width : option Z) (lines : list str) :
  2 <= W ->
  Legacy.full_block_lines title labels values W bar_width = Ok lines ->
  Forall (fun row => len row = W) lines.
Proof.
  intros HW Hrun. unfold Legacy.full_block_lines in Hrun.
  destruct (Legacy._prepare_swiss_fields labels values W bar_width)
    as [[[[L B] V] W'] | e] eqn:Eprep; cbn [Py.bind] in Hrun; [| discriminate].
  assert (W' = W) as ->.
  { unfold Legacy._prepare_swiss_fields in Eprep.
    destruct (mapM trunc values); cbn [Py.bind] in Eprep; [| discriminate].
    destruct (_ <? 0) in Eprep; destruct (_ <? 1) in Eprep; congruence. }
  match type of Hrun with
  | Py.bind (mapM ?f ?xs) _ = _ => destruct (mapM f xs) as [rows | e] eqn:Erows
  end; cbn [Py.bind] in Hrun; [| discriminate].
  injection Hrun as <-.
  assert (Hband : len (repeat_str FULL_BLOCK W) = W)
    by (rewrite repeat_block_len; lia).
  repeat constructor; try exact Hband; try (apply legacy_title_row_len; exact HW).
  apply Forall_app. split; [| repeat constructor; exact Hband].
  refine (mapM_forall _ _ _ _ rows Erows).
  intros [lab val] row Hrow. unfold Legacy.data_row in Hrow. cbn [fst snd] in Hrow.
  repeat match type of Hrow with
         | Py.bind ?r _ = _ => destruct r; cbn [Py.bind] in Hrow; [| discriminate]
         end.
  injection Hrow as <-. apply legacy_fit_row_len. lia.
Qed.

(** C2. In the packaged renderer the title row is the upper-cased title
    centred in [W - 2] cells between two caps, without any cut: with a
    27-character title and [total_width = 20] (bar width 8, which is
    feasible) the cap rows and the bar row have 20 characters and the title
    row has 29, and the width check of [qc_block] fails on the block. *)
Theorem full_block_title_row_exceeds_width :
  exists text,
    Renderer.render_swiss_full_block_bar Renderer.ascii_upper
      (lit "QUARTERLY REVENUE BY REGION") [lit "NORTH"] [45] 20 8 = Ok text
    /\ map len (split_rows text) = [20; 29; 20; 20]
    /\ QC.width_ok (QC.qc_block text None None) = false.
Proof. eexists; repeat split; vm_compute; reflexivity. Qed.

(** ** The proportion check of [qc_block] *)

Lemma validate_bar_proportions_no_data (lines : list str) (width : Z) :
  QC.validate_bar_proportions lines [] width = Ok true.
Proof.
  unfold QC.validate_bar_proportions.
  destruct (filter QC.is_bar_line lines); reflexivity.
Qed.

Lemma validate_bar_proportions_no_rows (lines : list str) (data : QC.series) (width : Z) :
  filter QC.is_bar_line lines = [] ->
  QC.validate_bar_proportions lines data width = Ok true.
Proof.
  intros Hnone. unfold QC.validate_bar_proportions. rewrite Hnone. reflexivity.
Qed.

(** C10. When the data or the width is omitted, [qc_block] reports
    [proportions_ok = True] whatever the text; and with both supplied the
    check passes when the data mapping is empty or no line of the text
    starts (after stripping) with an opening bracket. *)
Theorem qc_block_proportions_vacuous (text : str) (data : option QC.series)
    (width : option Z) :
  (data = None \/ width = None ->
   QC.proportions_ok (QC.qc_block text data width) = true)
  /\ (forall d w,
        data = Some d -> width = Some w ->
        d = [] \/ filter QC.is_bar_line (splitlines text) = [] ->
        QC.validate_bar_proportions (splitlines text) d w = Ok true
        /\ QC.proportions_ok (QC.qc_block text data width) = true).
Proof.
  split.
  - intros [-> | ->]; unfold QC.qc_block; cbn.
    + reflexivity.
    + destruct data; reflexivity.
  - intros d w -> -> Hvac.
    assert (Hval : QC.validate_bar_proportions (splitlines text) d w = Ok true).
    { destruct Hvac as [-> | Hnone].
      - apply validate_bar_proportions_no_data.
      - now apply validate_bar_proportions_no_rows. }
    split; [exact Hval |].
    unfold QC.qc_block; cbn. now rewrite Hval.
Qed.

Lemma qc_block_proportions_vacuous_witness :
  QC.proportions_ok
    (QC.qc_block (lit "[A] " ++ repeat_str FULL_BLOCK 7) None (Some 20)) = true
  /\ QC.proportions_ok
       (QC.qc_block (lit "no bars here") (Some [(lit "A", zf 40)]) (Some 20)) = true.
Proof.
  split.
  - apply (proj1 (qc_block_proportions_vacuous _ None (Some 20))).
    left; reflexivity.
  - apply (proj2 (qc_block_proportions_vacuous (lit "no bars here")
                    (Some [(lit "A", zf 40)]) (Some 20)) [(lit "A", zf 40)] 20);
      [reflexivity | reflexivity | right; vm_compute; reflexivity].
Defined.

(** ** Best-effort normalisation *)

(** C8. Text that the numeric classifier refuses is returned unchanged by
    [normalize_number], which does not raise on it; this holds for any
    behaviour of the [float] parser and of the digit class. *)
Theorem normalize_number_passes_unrecognized
    (float_of_str : str -> option float) (re_digit : char -> bool)
    (text currency : str) (ascii_only : bool) :
  Numbers.is_numeric_like float_of_str text = false ->
  Numbers.normalize_number float_of_str re_digit text currency ascii_only = Ok text.
Proof.
  intros Hnot. unfold Numbers.normalize_number. rewrite Hnot. reflexivity.
Qed.

Lemma normalize_number_passes_unrecognized_witness :
  Numbers.is_numeric_like Instances.float_of_digits (lit "n/a (pending)") = false
  /\ Numbers.normalize_number Instances.float_of_digits Claimed.is_digit
       (lit "n/a (pending)") (lit "USD") true = Ok (lit "n/a (pending)").
Proof.
  split; [vm_compute; reflexivity |].
  apply (normalize_number_passes_unrecognized Instances.float_of_digits
           Claimed.is_digit (lit "n/a (pending)") (lit "USD") true).
  vm_compute; reflexivity.
Defined.

(** ** Width clamp of the HTML transformer *)

Lemma split_rows_aux_app (cur a b : str) :
  split_rows_aux cur (a ++ newline :: b) = split_rows_aux cur a ++ split_rows b.
Proof.
  revert cur. induction a as [| c a IH]; intros cur; cbn.
  - reflexivity.
  - destruct (c =? newline)%N; cbn; now rewrite IH.
Qed.

Lemma split_rows_aux_len (w : Z) (s cur : str) :
  len cur + len s <= w ->
  Forall (fun row => len row <= w) (split_rows_aux cur s).
Proof.
  revert cur. induction s as [| c s IH]; intros cur Hle; cbn [split_rows_aux].
  - rewrite len_nil in Hle. constructor; [| constructor]. rewrite len_rev. lia.
  - rewrite len_cons in Hle. pose proof (len_nonneg s) as Hs.
    pose proof (len_nonneg cur) as Hc.
    destruct (c =? newline)%N.
    + constructor; [rewrite len_rev; lia |].
      apply IH. rewrite len_nil. lia.
    + apply IH. rewrite len_cons. lia.
Qed.

Lemma slice_to_len (s : str) (w : Z) : 0 <= w -> len (slice_to s w) <= w.
Proof.
  intros Hw. unfold slice_to, len.
  destruct (0 <=? w) eqn:E; [| apply Z.leb_gt in E; lia].
  rewrite length_firstn. lia.
Qed.

Lemma rows_of_joined_lines (w : Z) (parts : list str) :
  0 <= w ->
  Forall (fun p => len p <= w) parts ->
  Forall (fun row => len row <= w) (split_rows (join [newline] parts)).
Proof.
  intros Hw Hall. induction Hall as [| p rest Hp Hrest IH].
  - cbn. constructor; [cbn; lia | constructor].
  - destruct rest as [| q rest'].
    + cbn [join]. apply split_rows_aux_len. rewrite len_nil. lia.
    + change (join [newline] (p :: q :: rest'))
        with (p ++ newline :: join [newline] (q :: rest')).
      unfold split_rows. rewrite split_rows_aux_app.
      apply Forall_app. split; [| exact IH].
      apply split_rows_aux_len. rewrite len_nil. lia.
Qed.

Section ParserWidth.

Variable textwrap_wrap : str -> Z -> list str.
Variable float_of_str : str -> option float.

Ltac break_match :=
  repeat match goal with
         | |- context [if ?b then _ else _] => destruct b
         | |- context [match ?x with _ => _ end] => destruct x
         | H : context [if ?b then _ else _] |- _ => destruct b
         | H : context [match ?x with _ => _ end] |- _ => destruct x
         end.

Lemma handle_keeps_width (p p' : Html2Ascii.parser) (e : Html2Ascii.event) :
  Html2Ascii.handle textwrap_wrap float_of_str p e = Ok p' ->
  Html2Ascii.p_width p' = Html2Ascii.p_width p.
Proof.
  destruct e as [tag | tag | data]; cbn [Html2Ascii.handle]; intros H.
  - injection H as <-. unfold Html2Ascii.handle_starttag.
    break_match; reflexivity.
  - unfold Html2Ascii.handle_endtag, Html2Ascii.end_heading, Html2Ascii.end_li,
      Html2Ascii.end_pre in H.
    break_match;
      try match type of H with
          | Py.bind ?r _ = _ => destruct r; cbn [Py.bind] in H
          end;
      try discriminate; injection H as <-; reflexivity.
  - injection H as <-. unfold Html2Ascii.handle_data.
    break_match; reflexivity.
Qed.

Lemma run_keeps_width (events : list Html2Ascii.event) :
  forall p p',
    Html2Ascii.run textwrap_wrap float_of_str p events = Ok p' ->
    Html2Ascii.p_width p' = Html2Ascii.p_width p.
Proof.
  induction events as [| e rest IH]; intros p p' Hrun; cbn [Html2Ascii.run] in Hrun.
  - now injection Hrun as <-.
  - destruct (Html2Ascii.handle textwrap_wrap float_of_str p e) as [p1 | x] eqn:E1;
      cbn [Py.bind] in Hrun; [| discriminate].
    rewrite (IH _ _ Hrun). exact (handle_keeps_width _ _ _ E1).
Qed.

End ParserWidth.

(** The handlers can raise: a cell closed inside a table but outside any
    row appends to a row that is [None]. *)
Lemma cell_outside_row_raises :
  Html2Ascii.run Instances.wrap_unbroken Instances.float_of_digits
    (Html2Ascii.mk_parser 60 false [] [] false None)
    [Html2Ascii.StartTag (lit "table"); Html2Ascii.StartTag (lit "td");
     Html2Ascii.Data (lit "x"); Html2Ascii.EndTag (lit "td")]
  = Raise AttributeError.
Proof. vm_compute; reflexivity. Qed.

(** The parser consults the wrapping function at its width and, for list
    items, two columns short of it. *)
Section WrapWidth.

Variable wrap1 wrap2 : str -> Z -> list str.
Variable float_of_str : str -> option float.
Variable w : Z.
Hypothesis same_at_width : forall chunk, wrap1 chunk w = wrap2 chunk w.
Hypothesis same_at_item_width : forall chunk, wrap1 chunk (w - 2) = wrap2 chunk (w - 2).

Lemma wrap_agrees (text : str) (width : Z) :
  (forall chunk, wrap1 chunk width = wrap2 chunk width) ->
  Html2Ascii._wrap wrap1 text width = Html2Ascii._wrap wrap2 text width.
Proof.
  intros Hsame. unfold Html2Ascii._wrap. apply flat_map_ext. intros para.
  destruct (strip para); [reflexivity | apply Hsame].
Qed.

Lemma flush_agrees (p : Html2Ascii.parser) :
  Html2Ascii.p_width p = w ->
  Html2Ascii._flush_buf_as_paragraph wrap1 p = Html2Ascii._flush_buf_as_paragraph wrap2 p.
Proof.
  intros Hp. unfold Html2Ascii._flush_buf_as_paragraph.
  rewrite Hp, (wrap_agrees _ w same_at_width). reflexivity.
Qed.

Lemma end_li_agrees (p : Html2Ascii.parser) :
  Html2Ascii.p_width p = w ->
  Html2Ascii.end_li wrap1 p = Html2Ascii.end_li wrap2 p.
Proof.
  intros Hp. unfold Html2Ascii.end_li. cbn [Html2Ascii.p_width Html2Ascii.set_in_li
    Html2Ascii.set_buf]. rewrite Hp.
  change (len Html2Ascii.BULLET) with 2.
  rewrite (wrap_agrees _ (w - 2) same_at_item_width). reflexivity.
Qed.

Lemma handle_agrees (p : Html2Ascii.parser) (e : Html2Ascii.event) :
  Html2Ascii.p_width p = w ->
  Html2Ascii.handle wrap1 float_of_str p e = Html2Ascii.handle wrap2 float_of_str p e.
Proof.
  intros Hp. destruct e as [tag | tag | data]; cbn [Html2Ascii.handle].
  - f_equal. unfold Html2Ascii.handle_starttag. rewrite (flush_agrees p Hp). reflexivity.
  - unfold Html2Ascii.handle_endtag.
    rewrite (flush_agrees p Hp), (end_li_agrees p Hp). reflexivity.
  - reflexivity.
Qed.

Lemma run_agrees (events : list Html2Ascii.event) :
  forall p,
    Html2Ascii.p_width p = w ->
    Html2Ascii.run wrap1 float_of_str p events = Html2Ascii.run wrap2 float_of_str p events.
Proof.
  induction events as [| e rest IH]; intros p Hp; cbn [Html2Ascii.run]; [reflexivity |].
  rewrite (handle_agrees p e Hp).
  destruct (Html2Ascii.handle wrap2 float_of_str p e) as [p1 | x] eqn:E1;
    cbn [Py.bind]; [| reflexivity].
  apply IH. rewrite (handle_keeps_width _ _ _ _ _ E1). exact Hp.
Qed.

End WrapWidth.

Lemma effective_width_idem (width : Z) :
  Html2Ascii.effective_width (Html2Ascii.effective_width width)
  = Html2Ascii.effective_width width.
Proof. unfold Html2Ascii.effective_width, Html2Ascii.SWISS_MAX_LINE. lia. Qed.

Lemma paragraph_tags (textwrap_wrap : str -> Z -> list str)
    (float_of_str : str -> option float) (p : Html2Ascii.parser) :
  Html2Ascii.handle_starttag textwrap_wrap p (lit "p")
  = Html2Ascii._flush_buf_as_paragraph textwrap_wrap p
  /\ Html2Ascii.handle_endtag textwrap_wrap float_of_str p (lit "p")
     = Ok (Html2Ascii._flush_buf_as_paragraph textwrap_wrap p).
Proof. split; reflexivity. Qed.

Lemma item_tags (textwrap_wrap : str -> Z -> list str)
    (float_of_str : str -> option float) (p : Html2Ascii.parser) :
  Html2Ascii.handle_starttag textwrap_wrap p (lit "li")
  = Html2Ascii.set_in_li (Html2Ascii._flush_buf_as_paragraph textwrap_wrap p) true
  /\ Html2Ascii.handle_endtag textwrap_wrap float_of_str p (lit "li")
     = Ok (Html2Ascii.end_li textwrap_wrap p).
Proof. split; reflexivity. Qed.

(** C9. [html_to_swiss_ascii] works at [max(40, min(width, 80))], which
    lies in the band 40..80 and equals the request only inside it: the
    call returns what the call at the clamped width returns, so a width
    outside the band is overridden, neither honoured nor refused. The
    wrapping function is consulted at that width for paragraphs and two
    columns less for list items (the bullet takes them), and at no other
    width; a document that is one paragraph is its text wrapped at the
    clamped width, and one that is a list item is its text wrapped two
    columns short, behind the bullet and its indent. The returned text is
    the parser's output lines, each cut to the clamped width, and none of
    its lines is longer. This holds for any tokenizer, wrapping function
    and [float] parser. *)
Theorem html_width_is_clamped
    (feed : str -> list Html2Ascii.event) (textwrap_wrap : str -> Z -> list str)
    (float_of_str : str -> option float)
    (html : str) (width : Z) (ascii_only : bool) :
  let w := Z.max 40 (Z.min width 80) in
  let cut := map (fun line => slice_to line w) in
  40 <= w <= 80
  /\ (w = width <-> 40 <= width <= 80)
  /\ Html2Ascii.html_to_swiss_ascii feed textwrap_wrap float_of_str html width ascii_only
     = Html2Ascii.html_to_swiss_ascii feed textwrap_wrap float_of_str html w ascii_only
  /\ (forall wrap2,
        (forall chunk, wrap2 chunk w = textwrap_wrap chunk w) ->
        (forall chunk, wrap2 chunk (w - 2) = textwrap_wrap chunk (w - 2)) ->
        Html2Ascii.html_to_swiss_ascii feed wrap2 float_of_str html width ascii_only
        = Html2Ascii.html_to_swiss_ascii feed textwrap_wrap float_of_str html width
            ascii_only)
  /\ (forall data,
        feed html = [Html2Ascii.StartTag (lit "p"); Html2Ascii.Data data;
                     Html2Ascii.EndTag (lit "p")] ->
        Html2Ascii.collapse data <> [] ->
        Html2Ascii.html_to_swiss_ascii feed textwrap_wrap float_of_str html width
          ascii_only
        = Ok (join [newline]
                (cut (Html2Ascii._wrap textwrap_wrap (Html2Ascii.collapse data) w
                      ++ [[]]))))
  /\ (forall data first rest,
        feed html = [Html2Ascii.StartTag (lit "li"); Html2Ascii.Data data;
                     Html2Ascii.EndTag (lit "li")] ->
        Html2Ascii.collapse data <> [] ->
        Html2Ascii._wrap textwrap_wrap (Html2Ascii.collapse data) (w - 2)
        = first :: rest ->
        Html2Ascii.html_to_swiss_ascii feed textwrap_wrap float_of_str html width
          ascii_only
        = Ok (join [newline]
                (cut ((lit "- " ++ first) :: map (fun l => lit "  " ++ l) rest
                      ++ [[]]))))
  /\ (forall text,
        Html2Ascii.html_to_swiss_ascii feed textwrap_wrap float_of_str html width
          ascii_only = Ok text ->
        (exists p,
           Html2Ascii.run textwrap_wrap float_of_str
             (Html2Ascii.mk_parser w ascii_only [] [] false None) (feed html) = Ok p
           /\ Html2Ascii.p_width p = w
           /\ text
              = join [newline]
                  (cut (Html2Ascii.p_out
                          (Html2Ascii._flush_buf_as_paragraph textwrap_wrap p))))
        /\ Forall (fun row => len row <= w) (split_rows text)).
Proof.
  intros w cut.
  assert (Hw : Html2Ascii.effective_width width = w) by reflexivity.
  assert (Hww : Html2Ascii.effective_width w = w).
  { rewrite <- Hw. apply effective_width_idem. }
  split; [lia |]. split; [lia |]. split.
  { unfold Html2Ascii.html_to_swiss_ascii. now rewrite Hww, Hw. }
  split.
  { intros wrap2 Hsame Hitem. unfold Html2Ascii.html_to_swiss_ascii. rewrite Hw.
    rewrite (run_agrees wrap2 textwrap_wrap float_of_str w Hsame Hitem) by reflexivity.
    destruct (Html2Ascii.run textwrap_wrap float_of_str _ (feed html)) as [p | e] eqn:Erun;
      cbn [Py.bind]; [| reflexivity].
    rewrite (flush_agrees wrap2 textwrap_wrap w Hsame p); [reflexivity |].
    exact (run_keeps_width _ _ _ _ _ Erun). }
  split.
  { intros data Hfeed Hdata. unfold Html2Ascii.html_to_swiss_ascii.
    rewrite Hw, Hfeed.
    cbn [Html2Ascii.run Html2Ascii.handle Py.bind].
    rewrite (proj1 (paragraph_tags textwrap_wrap float_of_str _)).
    rewrite (proj2 (paragraph_tags textwrap_wrap float_of_str _)).
    cbn [Py.bind].
    unfold Html2Ascii._flush_buf_as_paragraph, Html2Ascii.handle_data, Html2Ascii.set_buf.
    cbn [Html2Ascii.p_buf Html2Ascii.p_width Html2Ascii.p_out Html2Ascii.p_table
           Html2Ascii.p_ascii_only Html2Ascii.p_in_li app].
    change (Html2Ascii.collapse []) with (@nil char). cbv iota.
    cbn [Html2Ascii.p_buf Html2Ascii.p_width Html2Ascii.p_out Html2Ascii.p_table
           Html2Ascii.p_ascii_only Html2Ascii.p_in_li app].
    destruct (Html2Ascii.collapse data) as [| c txt] eqn:E; [contradiction |].
    reflexivity. }
  split.
  { intros data first rest Hfeed Hdata Hwrap. unfold Html2Ascii.html_to_swiss_ascii.
    rewrite Hw, Hfeed.
    cbn [Html2Ascii.run Html2Ascii.handle Py.bind].
    rewrite (proj1 (item_tags textwrap_wrap float_of_str _)).
    rewrite (proj2 (item_tags textwrap_wrap float_of_str _)).
    cbn [Py.bind].
    unfold Html2Ascii.end_li, Html2Ascii._flush_buf_as_paragraph,
      Html2Ascii.handle_data, Html2Ascii.set_buf, Html2Ascii.set_in_li, Html2Ascii.emit.
    cbn [Html2Ascii.p_buf Html2Ascii.p_width Html2Ascii.p_out Html2Ascii.p_table
           Html2Ascii.p_ascii_only Html2Ascii.p_in_li app].
    change (Html2Ascii.collapse []) with (@nil char). cbv iota.
    cbn [Html2Ascii.p_buf Html2Ascii.p_width Html2Ascii.p_out Html2Ascii.p_table
           Html2Ascii.p_ascii_only Html2Ascii.p_in_li app].
    change (len Html2Ascii.BULLET) with 2.
    destruct (Html2Ascii.collapse data) as [| c txt] eqn:E; [contradiction |].
    rewrite Hwrap. reflexivity. }
  intros text Hrun.
  unfold Html2Ascii.html_to_swiss_ascii in Hrun. rewrite Hw in Hrun.
  destruct (Html2Ascii.run _ _ _ _) as [p | e] eqn:Erun; cbn [Py.bind] in Hrun;
    [| discriminate Hrun].
  injection Hrun as <-. split.
  - exists p. split; [reflexivity |]. split; [| reflexivity].
    exact (run_keeps_width _ _ _ _ _ Erun).
  - apply rows_of_joined_lines; [lia |].
    apply Forall_forall. intros line Hin.
    apply in_map_iff in Hin. destruct Hin as [l [<- _]].
    apply slice_to_len. lia.
Qed.

Lemma html_width_is_clamped_witness :
  Html2Ascii.html_to_swiss_ascii Instances.feed_paragraph Instances.wrap_unbroken
    Instances.float_of_digits (repeat 120%N 100) 200 true
  = Ok (repeat 120%N 80 ++ [newline])
  /\ Html2Ascii.html_to_swiss_ascii Instances.feed_paragraph Instances.wrap_unbroken
       Instances.float_of_digits (repeat 120%N 100) 10 true
     = Ok (repeat 120%N 40 ++ [newline])
  /\ Forall (fun row => len row <= 80)
       (split_rows (repeat 120%N 80 ++ [newline])).
Proof.
  pose proof (html_width_is_clamped Instances.feed_paragraph Instances.wrap_unbroken
                Instances.float_of_digits (repeat 120%N 100) 200 true) as Hwide.
  pose proof (html_width_is_clamped Instances.feed_paragraph Instances.wrap_unbroken
                Instances.float_of_digits (repeat 120%N 100) 10 true) as Hnarrow.
  cbv zeta in Hwide, Hnarrow.
  destruct Hwide as (_ & _ & _ & _ & Hpar & _ & Htext).
  destruct Hnarrow as (_ & _ & _ & _ & Hpar' & _ & _).
  assert (Hrun : Html2Ascii.html_to_swiss_ascii Instances.feed_paragraph
                   Instances.wrap_unbroken Instances.float_of_digits (repeat 120%N 100)
                   200 true
                 = Ok (repeat 120%N 80 ++ [newline])).
  { rewrite (Hpar (repeat 120%N 100) eq_refl); [vm_compute; reflexivity |].
    vm_compute. discriminate. }
  split; [exact Hrun |]. split.
  - rewrite (Hpar' (repeat 120%N 100) eq_refl); [vm_compute; reflexivity |].
    vm_compute. discriminate.
  - exact (proj2 (Htext _ Hrun)).
Defined.

(** ** Binary64 products that cannot overflow *)

Lemma shr_1_bounds (r : shr_record) :
  0 <= shr_m r -> 0 <= shr_m (shr_1 r) <= shr_m r.
Proof.
  destruct r as [m rr s]. cbn [shr_m]. intros Hm.
  destruct m as [| p | p]; [cbn; lia | | lia].
  destruct p; cbn; lia.
Qed.

Lemma iter_shr_1_bounds (p : positive) :
  forall r, 0 <= shr_m r -> 0 <= shr_m (iter_pos shr_1 p r) <= shr_m r.
Proof.
  induction p as [p IH | p IH |]; intros r Hr; cbn [iter_pos].
  - pose proof (shr_1_bounds r Hr) as H1.
    pose proof (IH _ (proj1 H1)) as H2.
    pose proof (IH _ (proj1 H2)) as H3. lia.
  - pose proof (IH _ Hr) as H2.
    pose proof (IH _ (proj1 H2)) as H3. lia.
  - now apply shr_1_bounds.
Qed.

Lemma digits2_pos_size (p : positive) : digits2_pos p = Pos.size p.
Proof. induction p; cbn; now rewrite ?IHp. Qed.

Lemma Zdigits2_log2 (m : Z) : 0 < m -> Zdigits2 m = Z.log2 m + 1.
Proof.
  destruct m as [| p | p]; try lia. intros _.
  cbn [Zdigits2]. rewrite digits2_pos_size.
  destruct p; cbn; lia.
Qed.

Lemma Zdigits2_mono (a b : Z) : 0 <= a <= b -> Zdigits2 a <= Zdigits2 b.
Proof.
  intros [Ha Hab].
  destruct (Z.eq_dec a 0) as [-> | Hnz].
  - destruct b; cbn; lia.
  - rewrite !Zdigits2_log2 by lia.
    pose proof (Z.log2_le_mono a b Hab). lia.
Qed.

Lemma Zdigits2_succ (a : Z) : 0 <= a -> Zdigits2 (a + 1) <= Zdigits2 a + 1.
Proof.
  intros Ha.
  destruct (Z.eq_dec a 0) as [-> | Hnz]; [cbn; lia |].
  rewrite !Zdigits2_log2 by lia.
  pose proof (Z.log2_succ_le a) as H. unfold Z.succ in H. lia.
Qed.

Lemma Zdigits2_mul (a b : positive) :
  Zdigits2 (Zpos (a * b)) <= Zdigits2 (Zpos a) + Zdigits2 (Zpos b).
Proof.
  rewrite !Zdigits2_log2 by lia.
  rewrite Pos2Z.inj_mul.
  pose proof (Z.log2_mul_above (Zpos a) (Zpos b)). lia.
Qed.

Lemma shr_fexp_bounds (m e : Z) (l : location) :
  0 <= m ->
  0 <= shr_m (fst (shr_fexp prec emax m e l)) <= m
  /\ snd (shr_fexp prec emax m e l) = Z.max e (fexp prec emax (Zdigits2 m + e)).
Proof.
  intros Hm. unfold shr_fexp, shr.
  assert (Hrec : shr_m (shr_record_of_loc m l) = m).
  { destruct l as [| []]; reflexivity. }
  destruct (fexp prec emax (Zdigits2 m + e) - e) as [| n | n] eqn:En; cbn [fst snd].
  - rewrite Hrec. lia.
  - pose proof (iter_shr_1_bounds n (shr_record_of_loc m l)) as H.
    rewrite Hrec in H. specialize (H Hm). lia.
  - rewrite Hrec. lia.
Qed.

Lemma round_nearest_even_bounds (m : Z) (l : location) :
  0 <= m -> m <= round_nearest_even m l <= m + 1.
Proof.
  intros Hm. destruct l as [| []]; cbn; try lia.
  destruct (Z.even m); lia.
Qed.

(** A product or quotient whose mantissa has at most [D] digits at an
    exponent of at most [E] does not overflow when the bounds leave room. *)
Lemma binary_round_aux_finite (s : bool) (mx ex : Z) (l : location) :
  0 <= mx -> Zdigits2 mx <= 128 -> ex <= 0 ->
  is_finite (binary_round_aux prec emax s mx ex l) = true.
Proof.
  intros Hmx HD HE.
  unfold binary_round_aux.
  pose proof (shr_fexp_bounds mx ex l Hmx) as [Hm1 He1].
  destruct (shr_fexp prec emax mx ex l) as [r1 e1]. cbn [fst snd] in Hm1, He1.
  pose proof (round_nearest_even_bounds (shr_m r1) (loc_of_shr_record r1) (proj1 Hm1)) as Hrn.
  set (m2 := round_nearest_even (shr_m r1) (loc_of_shr_record r1)) in *.
  assert (Hm2 : 0 <= m2) by lia.
  pose proof (shr_fexp_bounds m2 e1 loc_Exact Hm2) as [Hm3 He2].
  destruct (shr_fexp prec emax m2 e1 loc_Exact) as [r2 e2]. cbn [fst snd] in Hm3, He2.
  assert (Hd2 : Zdigits2 m2 <= 129).
  { pose proof (Zdigits2_mono m2 (shr_m r1 + 1) (conj Hm2 (proj2 Hrn))).
    pose proof (Zdigits2_succ (shr_m r1) (proj1 Hm1)).
    pose proof (Zdigits2_mono (shr_m r1) mx Hm1). lia. }
  assert (Hd1 : 0 <= Zdigits2 mx).
  { destruct mx; cbn; lia. }
  assert (Hd20 : 0 <= Zdigits2 m2).
  { destruct m2; cbn; lia. }
  unfold fexp, SpecFloat.emin, prec, emax in *.
  destruct (shr_m r2) as [| p | p] eqn:Er2; [reflexivity | | lia].
  destruct (e2 <=? 1024 - 53) eqn:Ele; [reflexivity |].
  apply Z.leb_gt in Ele.
  change IntDef.Z.max with Z.max in *. lia.
Qed.


Lemma trunc_total (x : float) : is_finite x = true -> exists n, Py.trunc x = Ok n.
Proof. destruct x; cbn; intros H; try discriminate; eexists; reflexivity. Qed.

Lemma valid_digits (s : bool) (m : positive) (e : Z) :
  valid_binary prec emax (S754_finite s m e) = true -> Zdigits2 (Zpos m) <= 53.
Proof.
  cbn [valid_binary]. unfold bounded, canonical_mantissa, fexp, SpecFloat.emin, prec, emax.
  intros H. apply andb_prop in H. destruct H as [H _].
  apply Z.eqb_eq in H. cbn [Zdigits2]. change IntDef.Z.max with Z.max in H. lia.
Qed.

Lemma zf_1 : zf 1 = S754_finite false 4503599627370496 (-52).
Proof. vm_compute; reflexivity. Qed.

Lemma zf_mask : zf Procgen.MASK32 = S754_finite false 9007199252643840 (-21).
Proof. vm_compute; reflexivity. Qed.

Lemma below_one_exponent (s : bool) (m : positive) (e : Z) :
  flt (S754_finite s m e) (zf 1) = true -> s = true \/ e <= -52.
Proof.
  rewrite zf_1. unfold flt, SFltb, SFcompare.
  destruct s; [now left |]. intros Hlt. right.
  destruct (Z.compare_spec e (-52)) as [Heq | Hl | Hg]; [lia | lia | discriminate].
Qed.

Lemma density_threshold_total (density : float) :
  valid_binary prec emax density = true ->
  exists threshold, Procgen.density_threshold density = Ok threshold.
Proof.
  intros Hvalid. unfold Procgen.density_threshold. apply trunc_total.
  unfold Procgen.clamp_density, max_float, min_float. cbn [fold_left].
  destruct (flt density (zf 1)) eqn:Hlt1.
  - destruct (flt (zf 0) density) eqn:Hgt0; [| vm_compute; reflexivity].
    destruct density as [s0 | s0 | | s m e].
    + exfalso. revert Hgt0. destruct s0; vm_compute; discriminate.
    + exfalso. destruct s0; [revert Hgt0 | revert Hlt1]; vm_compute; discriminate.
    + exfalso. revert Hgt0. vm_compute; discriminate.
    + assert (Hs : s = false) by (destruct s; [discriminate | reflexivity]).
      subst s.
      destruct (below_one_exponent false m e Hlt1) as [Hs | He]; [discriminate |].
      rewrite zf_mask. unfold fmul, SFmul. cbn [xorb].
      apply binary_round_aux_finite; [lia | | lia].
      pose proof (Zdigits2_mul m 9007199252643840) as Hmul.
      pose proof (valid_digits false m e Hvalid) as Hd.
      change (Zdigits2 (Zpos 9007199252643840)) with 53 in Hmul. lia.
  - vm_compute; reflexivity.
Qed.


(** ** The density field as one walk of the generator *)

Lemma steps_succ (n : nat) (state : Z) :
  Procgen.steps (S n) state = Procgen.xorshift32 (Procgen.steps n state).
Proof.
  revert state. induction n as [| n IH]; intros state; [reflexivity |].
  change (Procgen.steps (S (S n)) state)
    with (Procgen.steps (S n) (Procgen.xorshift32 state)).
  rewrite IH. reflexivity.
Qed.

Lemma steps_add (a b : nat) (state : Z) :
  Procgen.steps (a + b) state = Procgen.steps b (Procgen.steps a state).
Proof.
  revert state. induction a as [| a IH]; intros state; [reflexivity |].
  cbn [Nat.add Procgen.steps]. apply IH.
Qed.

Lemma density_line_state (fill_char : char) (threshold : Z) (n : nat) (state : Z) :
  snd (Procgen.density_line fill_char threshold n state) = Procgen.steps n state.
Proof.
  revert state. induction n as [| n IH]; intros state; [reflexivity |].
  cbn [Procgen.density_line Procgen.steps].
  specialize (IH (Procgen.xorshift32 state)).
  destruct (Procgen.density_line fill_char threshold n (Procgen.xorshift32 state)).
  exact IH.
Qed.

Lemma density_line_length (fill_char : char) (threshold : Z) (n : nat) (state : Z) :
  length (fst (Procgen.density_line fill_char threshold n state)) = n.
Proof.
  revert state. induction n as [| n IH]; intros state; [reflexivity |].
  cbn [Procgen.density_line].
  specialize (IH (Procgen.xorshift32 state)).
  destruct (Procgen.density_line fill_char threshold n (Procgen.xorshift32 state)).
  cbn in *. now rewrite IH.
Qed.

Lemma density_line_nth (fill_char : char) (threshold : Z) (n : nat) :
  forall (state : Z) (x : nat),
    (x < n)%nat ->
    nth x (fst (Procgen.density_line fill_char threshold n state)) 0%N
    = if Procgen.steps (S x) state <? threshold then fill_char else 32%N.
Proof.
  induction n as [| n IH]; intros state x Hx; [lia |].
  cbn [Procgen.density_line].
  specialize (IH (Procgen.xorshift32 state)).
  destruct (Procgen.density_line fill_char threshold n (Procgen.xorshift32 state))
    as [rest final].
  cbn [fst] in *. destruct x as [| x].
  - reflexivity.
  - cbn [nth]. rewrite IH by lia. reflexivity.
Qed.

Lemma density_lines_length (fill_char : char) (threshold : Z) (w h : nat) (state : Z) :
  length (Procgen.density_lines fill_char threshold w h state) = h.
Proof.
  revert state. induction h as [| h IH]; intros state; [reflexivity |].
  cbn [Procgen.density_lines].
  destruct (Procgen.density_line fill_char threshold w state) as [line st].
  cbn [length]. now rewrite IH.
Qed.

Lemma density_lines_nth (fill_char : char) (threshold : Z) (w h : nat) :
  forall (state : Z) (y : nat),
    (y < h)%nat ->
    nth y (Procgen.density_lines fill_char threshold w h state) []
    = fst (Procgen.density_line fill_char threshold w (Procgen.steps (y * w) state)).
Proof.
  induction h as [| h IH]; intros state y Hy; [lia |].
  cbn [Procgen.density_lines].
  pose proof (density_line_state fill_char threshold w state) as Hst.
  destruct (Procgen.density_line fill_char threshold w state) as [line st] eqn:Eline.
  cbn [snd] in Hst. subst st. destruct y as [| y].
  - cbn [nth Nat.mul Procgen.steps]. now rewrite Eline.
  - cbn [nth]. rewrite IH by lia.
    cbn [Nat.mul]. now rewrite steps_add.
Qed.

Lemma density_fill_not_space (ascii_only : bool) :
  (32 =? Procgen.density_fill ascii_only)%N = false.
Proof. destruct ascii_only; reflexivity. Qed.

(** C5, as the code has it. For positive width and height, every binary64
    density and every seed, [density_field] returns [height] lines of
    [width] cells; with [threshold = int(d * 0xFFFFFFFF)], [d] the density
    clamped to [0, 1] and the product taken in binary64, the cell at row
    [y], column [x] is filled exactly when the state reached after
    [y * width + x + 1] steps from the seed is below the threshold. *)
Theorem density_field_is_one_walk (width height : Z) (density : float)
    (ascii_only : bool) (seed : Z) :
  0 < width -> 0 < height ->
  valid_binary prec emax density = true ->
  exists threshold lines,
    Procgen.density_threshold density = Ok threshold
    /\ Procgen.density_field width height density ascii_only seed = Ok lines
    /\ length lines = Z.to_nat height
    /\ forall y x,
         (y < Z.to_nat height)%nat -> (x < Z.to_nat width)%nat ->
         length (nth y lines []) = Z.to_nat width
         /\ Claimed.filled lines (Procgen.density_fill ascii_only) y x
            = (Procgen.steps (y * Z.to_nat width + x + 1) seed <? threshold).
Proof.
  intros Hw Hh Hvalid.
  destruct (density_threshold_total density Hvalid) as [threshold Hthr].
  exists threshold.
  eexists. split; [exact Hthr |].
  unfold Procgen.density_field.
  replace ((width <=? 0) || (height <=? 0)) with false
    by (symmetry; apply orb_false_iff; split; apply Z.leb_gt; lia).
  rewrite Hthr. cbn [Py.bind]. split; [reflexivity |].
  split; [apply density_lines_length |].
  intros y x Hy Hx. unfold Claimed.filled.
  rewrite density_lines_nth by exact Hy.
  split; [apply density_line_length |].
  rewrite density_line_nth by exact Hx.
  rewrite <- steps_add.
  replace (y * Z.to_nat width + S x)%nat with (y * Z.to_nat width + x + 1)%nat by lia.
  destruct (Procgen.steps (y * Z.to_nat width + x + 1) seed <? threshold).
  - apply N.eqb_refl.
  - apply density_fill_not_space.
Qed.

Lemma density_field_is_one_walk_witness :
  exists threshold lines,
    Procgen.density_threshold (dec 3 10) = Ok threshold
    /\ Procgen.density_field 4 3 (dec 3 10) true 42 = Ok lines
    /\ length lines = Z.to_nat 3
    /\ forall y x,
         (y < Z.to_nat 3)%nat -> (x < Z.to_nat 4)%nat ->
         length (nth y lines []) = Z.to_nat 4
         /\ Claimed.filled lines (Procgen.density_fill true) y x
            = (Procgen.steps (y * Z.to_nat 4 + x + 1) 42 <? threshold).
Proof.
  apply (density_field_is_one_walk 4 3 (dec 3 10) true 42).
  - lia.
  - lia.
  - vm_compute; reflexivity.
Defined.

(** C5, as the specification states it, fails: with density 0.5 the code's
    threshold is int(0.5 * 4294967295) = 2147483647, and the seed
    3597450471 steps to the state 2147483647, which is below
    0.5 * 2^32 = 2147483648 but not below the threshold, so the cell is
    left empty. *)
Lemma density_rule_pow32_fails :
  Procgen.steps 1 3597450471 = 2147483647
  /\ Procgen.density_threshold (dec 1 2) = Ok 2147483647
  /\ ~ Claimed.density_rule_pow32 1 1 (dec 1 2) true 3597450471.
Proof.
  split; [vm_compute; reflexivity |].
  split; [vm_compute; reflexivity |].
  intros Hrule.
  specialize (Hrule [[32%N]] 0%nat 0%nat).
  assert (Hrun : Procgen.density_field 1 1 (dec 1 2) true 3597450471 = Ok [[32%N]])
    by (vm_compute; reflexivity).
  specialize (Hrule Hrun).
  assert (H0 : (0 < Z.to_nat 1)%nat) by (cbn; lia).
  specialize (Hrule H0 H0).
  vm_compute in Hrule. discriminate.
Qed.

(** ** Field allocation of the full-block band *)

Lemma mapM_trunc_total (values : list float) :
  Forall (fun v => is_finite v = true) values ->
  exists ints, mapM Py.trunc values = Ok ints.
Proof.
  induction 1 as [| v rest Hv _ [ints IH]].
  - exists []. reflexivity.
  - destruct (trunc_total v Hv) as [n Hn].
    exists (n :: ints). cbn [mapM]. rewrite Hn. cbn [Py.bind]. rewrite IH. reflexivity.
Qed.

(** On finite values the legacy allocation always returns: when the bar
    field would be negative it shrinks the label field by
    [min(label_field - 3, deficit)], which leaves at least 3 characters,
    and then sets the bar field to 1; otherwise the label field is kept and
    the bar field is at least 1. The packaged renderer does not shrink: it
    raises [ValueError] whenever [total_width - (bar_width + 8) < 4]. *)
Lemma layout_allocation_shrinks_or_forces_bar
    (labels : list str) (values : list float) (total_width : Z)
    (bar_width : option Z) :
  Forall (fun v => is_finite v = true) values ->
  (exists ints L B,
     mapM Py.trunc values = Ok ints
     /\ Legacy._prepare_swiss_fields labels values total_width bar_width
        = Ok (L, B, Legacy.widest_value ints, total_width)
     /\ 1 <= B
     /\ let L0 := Legacy.widest_label labels in
        let B0 := total_width - (L0 + Legacy.widest_value ints + 6) in
        (0 <= B0 -> L = L0 /\ B = Z.max 1 B0)
        /\ (B0 < 0 -> L = L0 - Z.min (L0 - 3) (- B0) /\ 3 <= L /\ B = 1))
  /\ (forall upper title l ls v vs W Bw,
        len (l :: ls) = len (v :: vs) ->
        W - (Bw + 8) < 4 ->
        Renderer.render_swiss_full_block_bar upper title (l :: ls) (v :: vs) W Bw
        = Raise ValueError).
Proof.
  intros Hfin. split.
  - destruct (mapM_trunc_total values Hfin) as [ints Hints].
    exists ints. unfold Legacy._prepare_swiss_fields. rewrite Hints. cbn [Py.bind].
    set (L0 := Legacy.widest_label labels).
    set (V := Legacy.widest_value ints).
    destruct (total_width - (L0 + V + 6) <? 0) eqn:Eneg.
    + apply Z.ltb_lt in Eneg.
      exists (L0 - Z.min (L0 - 3) (- (total_width - (L0 + V + 6)))), 1.
      split; [reflexivity |]. split.
      * f_equal.
        replace (total_width - (L0 - Z.min (L0 - 3) (- (total_width - (L0 + V + 6))) + V + 6) <? 1)
          with true by (symmetry; apply Z.ltb_lt; lia).
        reflexivity.
      * split; [lia |]. cbn zeta. split; intros; lia.
    + apply Z.ltb_ge in Eneg.
      exists L0, (Z.max 1 (total_width - (L0 + V + 6))).
      split; [reflexivity |]. split.
      * f_equal.
        destruct (total_width - (L0 + V + 6) <? 1) eqn:Eone.
        -- apply Z.ltb_lt in Eone. rewrite Z.max_l by lia. reflexivity.
        -- apply Z.ltb_ge in Eone. rewrite Z.max_r by lia. reflexivity.
      * split; [lia |]. cbn zeta. split; intros; lia.
  - intros upper title l ls v vs W Bw Hlen Hsmall.
    unfold Renderer.render_swiss_full_block_bar.
    rewrite Hlen, Z.eqb_refl. cbn [negb].
    unfold Renderer.full_block_lines.
    replace (W - (Bw + 8) <? 4) with true by (symmetry; apply Z.ltb_lt; lia).
    reflexivity.
Qed.

(** C3. The legacy field allocation does not fail when the fields have
    no room: a layout it returns fits its row template,
    [L + B + V + 6 == total_width], only when the widest label leaves a bar
    of at least one cell; otherwise the layout is wider than
    [total_width], also when shrinking the label could have made room. For
    the label [ABCDEFGH], the value 5 and [total_width = 14] it shrinks the
    label field to 6 where 5 would fit, returns (6, 1, 2, 14), and the data
    row is cut to 14 characters and loses its right cap; for
    [total_width = 10] it returns (3, 1, 2, 10), which needs 12 columns,
    and the row is cut again. The packaged renderer raises [ValueError]
    when its label field has no room. *)
Theorem shrunk_layout_overflows_total_width :
  (forall labels values total_width bar_width L B V W,
     Legacy._prepare_swiss_fields labels values total_width bar_width = Ok (L, B, V, W) ->
     W = total_width /\ 1 <= B
     /\ (L + B + V + 6 = W <-> 1 <= total_width - (Legacy.widest_label labels + V + 6))
     /\ (total_width - (Legacy.widest_label labels + V + 6) < 1 -> W < L + B + V + 6))
  /\ Legacy._prepare_swiss_fields [lit "ABCDEFGH"] [zf 5] 14 (Some 35) = Ok (6, 1, 2, 14)
  /\ 5 + 1 + 2 + 6 = 14
  /\ (exists text,
        Legacy.render_swiss_full_block_bar (lit "T") [lit "ABCDEFGH"] [zf 5] 14 (Some 35)
        = Ok text
        /\ nth 3 (split_rows text) []
           = FULL_BLOCK ++ lit " [ABCDE " ++ FULL_BLOCK ++ lit "  5 ")
  /\ Legacy._prepare_swiss_fields [lit "ABCDEFGH"] [zf 5] 10 (Some 35) = Ok (3, 1, 2, 10)
  /\ (exists text,
        Legacy.render_swiss_full_block_bar (lit "T") [lit "ABCDEFGH"] [zf 5] 10 (Some 35)
        = Ok text
        /\ nth 3 (split_rows text) []
           = FULL_BLOCK ++ lit " [AB " ++ FULL_BLOCK ++ lit "  5")
  /\ ~ Claimed.returned_layout_fits [lit "ABCDEFGH"] [zf 5] 10 (Some 35)
  /\ Renderer.render_swiss_full_block_bar Renderer.ascii_upper (lit "T")
       [lit "ABCDEFGH"] [5] 10 1
     = Raise ValueError.
Proof.
  split.
  { intros labels values total_width bar_width L B V W Hrun.
    unfold Legacy._prepare_swiss_fields in Hrun.
    destruct (mapM Py.trunc values) as [ints | e]; cbn [Py.bind] in Hrun;
      [| discriminate Hrun].
    set (L0 := Legacy.widest_label labels) in *.
    set (V0 := Legacy.widest_value ints) in *.
    destruct (total_width - (L0 + V0 + 6) <? 0) eqn:Eneg.
    - apply Z.ltb_lt in Eneg.
      destruct (total_width
                - (L0 - Z.min (L0 - 3) (- (total_width - (L0 + V0 + 6))) + V0 + 6) <? 1)
        eqn:Eone; injection Hrun as <- <- <- <-;
        [apply Z.ltb_lt in Eone | apply Z.ltb_ge in Eone]; lia.
    - apply Z.ltb_ge in Eneg.
      destruct (total_width - (L0 + V0 + 6) <? 1) eqn:Eone;
        injection Hrun as <- <- <- <-;
        [apply Z.ltb_lt in Eone | apply Z.ltb_ge in Eone]; lia. }
  assert (Hrun : Legacy._prepare_swiss_fields [lit "ABCDEFGH"] [zf 5] 10 (Some 35)
                 = Ok (3, 1, 2, 10)) by (vm_compute; reflexivity).
  split; [vm_compute; reflexivity |]. split; [reflexivity |].
  split; [eexists; split; vm_compute; reflexivity |].
  split; [exact Hrun |].
  split; [eexists; split; vm_compute; reflexivity |].
  split; [| vm_compute; reflexivity].
  intros Hfits. destruct (Hfits 3 1 2 10 Hrun) as [_ Hsum]. discriminate Hsum.
Qed.

(** ** Currency formatting *)

Lemma mod3_next (i : Z) :
  i mod 3 = 0 ->
  ((i + 1) mod 3 =? 0) = false /\ ((i + 1 + 1) mod 3 =? 0) = false
  /\ (i + 1 + 1 + 1) mod 3 = 0.
Proof.
  intros H. repeat split; try apply Z.eqb_neq; Z.div_mod_to_equations; lia.
Qed.

Section Grouping.

Variable sep : str.

Lemma group_loop_acc (rd : str) :
  forall i acc, Numbers.group_loop sep i rd acc = acc ++ Numbers.group_loop sep i rd [].
Proof.
  induction rd as [| d rest IH]; intros i acc; cbn [Numbers.group_loop].
  - now rewrite app_nil_r.
  - rewrite IH. rewrite (IH _ (_ ++ [[d]])).
    destruct ((0 <? i) && (i mod 3 =? 0)); cbn [app]; now rewrite <- !app_assoc.
Qed.

Lemma loop_text_cons (i : Z) (d : char) (rest : str) :
  Numbers.loop_text sep i (d :: rest)
  = Numbers.loop_text sep (i + 1) rest ++ [d] ++ (if (0 <? i) && (i mod 3 =? 0) then sep else []).
Proof.
  unfold Numbers.loop_text. cbn [Numbers.group_loop]. rewrite group_loop_acc.
  rewrite rev_app_distr, concat_app.
  destruct ((0 <? i) && (i mod 3 =? 0)); cbn; now rewrite ?app_nil_r.
Qed.

Lemma join_nil_concat (parts : list str) : join [] parts = concat parts.
Proof.
  induction parts as [| p rest IH]; [reflexivity |].
  destruct rest; cbn in *; [now rewrite app_nil_r | now rewrite IH].
Qed.

Lemma join_snoc (parts : list str) (g : str) :
  join sep (parts ++ [g])
  = match parts with [] => g | _ => join sep parts ++ sep ++ g end.
Proof.
  induction parts as [| p rest IH]; [reflexivity |].
  destruct rest as [| q rest'].
  - reflexivity.
  - change (join sep ((p :: q :: rest') ++ [g]))
      with (p ++ sep ++ join sep ((q :: rest') ++ [g])).
    rewrite IH.
    change (join sep (p :: q :: rest')) with (p ++ sep ++ join sep (q :: rest')).
    now rewrite <- !app_assoc.
Qed.

Lemma right_groups_nil_iff (fuel : nat) (rd : str) :
  (length rd <= fuel)%nat -> (Fmt.right_groups fuel rd = [] <-> rd = []).
Proof.
  intros Hf. destruct rd as [| c rd].
  - split; [reflexivity |]. intros _. destruct fuel; reflexivity.
  - destruct fuel; [cbn in Hf; lia |]. split; discriminate.
Qed.

Lemma loop_text_groups (fuel : nat) :
  forall (rd : str) (i : Z),
    (length rd <= fuel)%nat -> 0 <= i -> i mod 3 = 0 ->
    Numbers.loop_text sep i rd
    = join sep (rev (Fmt.right_groups fuel rd))
      ++ match rd with
         | [] => []
         | _ => if 0 <? i then sep else []
         end.
Proof.
  induction fuel as [| fuel IH]; intros rd i Hlen Hi Hmod.
  - destruct rd; [reflexivity | cbn in Hlen; lia].
  - destruct rd as [| a [| b [| c rest]]].
    + reflexivity.
    + rewrite loop_text_cons. cbn [Fmt.right_groups firstn skipn rev app].
      rewrite Hmod. cbn [Z.eqb andb].
      destruct fuel; cbn; rewrite ?andb_true_r; reflexivity.
    + rewrite !loop_text_cons. cbn [Fmt.right_groups firstn skipn rev app].
      destruct (mod3_next i Hmod) as [H1 [H2 H3]]. rewrite H1.
      rewrite Hmod, andb_false_r. cbn [Z.eqb].
      destruct fuel; cbn; rewrite ?andb_true_r; reflexivity.
    + rewrite !loop_text_cons. cbn [Fmt.right_groups firstn skipn rev app].
      destruct (mod3_next i Hmod) as [H1 [H2 H3]]. rewrite H1, H2.
      rewrite Hmod, !andb_false_r. cbn [Z.eqb]. rewrite andb_true_r.
      rewrite (IH rest (i + 1 + 1 + 1)) by (cbn in Hlen; lia).
      rewrite join_snoc.
      replace (0 <? i + 1 + 1 + 1) with true by (symmetry; apply Z.ltb_lt; lia).
      pose proof (right_groups_nil_iff fuel rest) as Hnil.
      destruct (Fmt.right_groups fuel rest) as [| g gs] eqn:Eg.
      * assert (rest = []) as -> by (apply Hnil; [cbn in Hlen; lia | reflexivity]).
        cbn. reflexivity.
      * assert (rest <> []) as Hne.
        { intros ->. destruct fuel; discriminate. }
        destruct rest as [| r0 rest']; [congruence |].
        destruct (rev (g :: gs)) eqn:Erev.
        { apply (f_equal (@length _)) in Erev. rewrite length_rev in Erev. discriminate. }
        cbn [app]. rewrite <- !app_assoc. reflexivity.
Qed.

(** The loop of [format_currency] groups the digits in threes from the right. *)
Lemma group_loop_is_grouped (digits : str) :
  join [] (rev (Numbers.group_loop sep 0 (rev digits) [])) = Fmt.grouped sep digits.
Proof.
  rewrite join_nil_concat. fold (Numbers.loop_text sep 0 (rev digits)).
  rewrite (loop_text_groups (length digits)); [| rewrite length_rev; lia | lia | reflexivity].
  unfold Fmt.grouped, Fmt.digit_groups.
  destruct (rev digits); cbn [Z.ltb Z.compare]; now rewrite app_nil_r.
Qed.

Lemma grouped_short (digits : str) :
  (length digits <= 3)%nat -> Fmt.grouped sep digits = digits.
Proof.
  intros Hlen. unfold Fmt.grouped, Fmt.digit_groups.
  destruct digits as [| a [| b [| c [| d rest]]]]; cbn in *; try reflexivity; lia.
Qed.

End Grouping.

Lemma digit_char (n : Z) :
  Claimed.is_digit (N.of_nat (Z.to_nat (48 + n mod 10))) = true.
Proof.
  pose proof (Z.mod_pos_bound n 10 ltac:(lia)) as Hb.
  unfold Claimed.is_digit. apply andb_true_intro. split; apply N.leb_le; lia.
Qed.

Lemma digits_fuel_digits (fuel : nat) :
  forall (n : Z) (acc : str),
    forallb Claimed.is_digit acc = true ->
    forallb Claimed.is_digit (digits_fuel fuel n acc) = true.
Proof.
  induction fuel as [| fuel IH]; intros n acc Hacc; cbn [digits_fuel]; [exact Hacc |].
  assert (Hacc' : forallb Claimed.is_digit
                    (N.of_nat (Z.to_nat (48 + n mod 10)) :: acc) = true).
  { cbn [forallb]. now rewrite digit_char, Hacc. }
  destruct (n <? 10); [exact Hacc' | now apply IH].
Qed.

Lemma digits_of_digits (n : Z) : forallb Claimed.is_digit (digits_of n) = true.
Proof. now apply digits_fuel_digits. Qed.

Lemma digits_of_two (r : Z) :
  0 <= r < 100 -> (1 <= length (digits_of r) <= 2)%nat.
Proof.
  intros Hr. unfold digits_of. cbn [digits_fuel].
  destruct (r <? 10) eqn:E10; [cbn; lia |].
  apply Z.ltb_ge in E10.
  assert (Hlog : 3 <= Z.log2 r).
  { change 3 with (Z.log2 10). apply Z.log2_le_mono. lia. }
  destruct (Z.to_nat (Z.log2 r)) as [| fuel] eqn:Ef; [lia |].
  cbn [digits_fuel].
  replace (r / 10 <? 10) with true; [cbn; lia |].
  symmetry. apply Z.ltb_lt. apply Z.div_lt_upper_bound; lia.
Qed.

Lemma frac_digits_two (x : float) :
  length (Fmt.frac_digits 2 x) = 2%nat
  /\ forallb Claimed.is_digit (Fmt.frac_digits 2 x) = true.
Proof.
  unfold Fmt.frac_digits.
  set (r := Fmt.scaled 2 x mod 10 ^ Z.of_nat 2).
  assert (Hr : 0 <= r < 100) by (apply Z.mod_pos_bound; reflexivity).
  clearbody r.
  pose proof (digits_of_two r Hr) as Hlen.
  split.
  - destruct (digits_of r) as [| a [| b [| c rest]]]; cbn in Hlen |- *;
      try reflexivity; lia.
  - rewrite forallb_app, digits_of_digits, andb_true_r.
    apply forallb_forall. intros c Hc. apply repeat_spec in Hc. now subst c.
Qed.

Lemma digit_not_dot (s : str) :
  forallb Claimed.is_digit s = true -> existsb (N.eqb 46) s = false.
Proof.
  induction s as [| c s IH]; [reflexivity |].
  cbn [forallb existsb]. intros H. apply andb_prop in H. destruct H as [Hc Hs].
  rewrite (IH Hs), orb_false_r.
  unfold Claimed.is_digit in Hc. apply andb_prop in Hc. destruct Hc as [Hc _].
  apply N.leb_le in Hc. apply N.eqb_neq. lia.
Qed.

Lemma split_aux_plain (sep : char) (s : str) :
  forall cur, existsb (N.eqb sep) s = false -> Fmt.split_aux sep cur s = [rev cur ++ s].
Proof.
  induction s as [| c s IH]; intros cur Hno; cbn [Fmt.split_aux].
  - now rewrite app_nil_r.
  - cbn [existsb] in Hno. apply orb_false_elim in Hno. destruct Hno as [Hc Hs].
    rewrite N.eqb_sym, Hc. rewrite IH by exact Hs. cbn [rev].
    now rewrite <- app_assoc.
Qed.

Lemma split_aux_first (sep : char) (a b : str) :
  forall cur,
    existsb (N.eqb sep) a = false ->
    Fmt.split_aux sep cur (a ++ sep :: b) = (rev cur ++ a) :: Fmt.split_aux sep [] b.
Proof.
  induction a as [| c a IH]; intros cur Hno; cbn [Fmt.split_aux app].
  - now rewrite N.eqb_refl, app_nil_r.
  - cbn [existsb] in Hno. apply orb_false_elim in Hno. destruct Hno as [Hc Hs].
    rewrite N.eqb_sym, Hc. rewrite IH by exact Hs. cbn [rev].
    now rewrite <- app_assoc.
Qed.

Lemma format_fixed_abs (x : float) :
  is_finite x = true ->
  Fmt.format_fixed false 2 (fabs x)
  = Fmt.int_digits 2 (fabs x) ++ 46%N :: Fmt.frac_digits 2 (fabs x).
Proof.
  destruct x as [s | s | | s m e]; intros Hfin; try discriminate; reflexivity.
Qed.

Lemma in_join (sep : str) (c : char) (parts : list str) :
  In c (join sep parts) -> In c sep \/ exists p, In p parts /\ In c p.
Proof.
  induction parts as [| p rest IH]; [intros [] |].
  destruct rest as [| q rest'].
  - intros H. right. exists p. split; [now left | exact H].
  - change (join sep (p :: q :: rest')) with (p ++ sep ++ join sep (q :: rest')).
    intros H. apply in_app_or in H. destruct H as [H | H].
    + right. exists p. split; [now left | exact H].
    + apply in_app_or in H. destruct H as [H | H]; [now left |].
      destruct (IH H) as [Hs | [g [Hg Hc]]]; [now left |].
      right. exists g. split; [now right | exact Hc].
Qed.

Lemma in_right_groups (fuel : nat) :
  forall (rd g : str) (c : char),
    In g (Fmt.right_groups fuel rd) -> In c g -> In c rd.
Proof.
  induction fuel as [| fuel IH]; intros rd g c Hg Hc.
  - destruct rd; contradiction.
  - destruct rd as [| d rest]; [contradiction |].
    cbn [Fmt.right_groups] in Hg.
    rewrite <- (firstn_skipn 3 (d :: rest)). apply in_or_app.
    destruct Hg as [<- | Hg].
    + left. now apply in_rev.
    + right. exact (IH _ _ _ Hg Hc).
Qed.

Lemma in_grouped (sep digits : str) (c : char) :
  In c (Fmt.grouped sep digits) -> In c sep \/ In c digits.
Proof.
  intros H. apply in_join in H. destruct H as [H | [g [Hg Hc]]]; [now left |].
  right. unfold Fmt.digit_groups in Hg. apply in_rev in Hg.
  apply in_rev. exact (in_right_groups _ _ _ _ Hg Hc).
Qed.

Lemma digit_not_minus (s : str) :
  forallb Claimed.is_digit s = true -> ~ In 45%N s.
Proof.
  intros Hall Hin. rewrite forallb_forall in Hall. specialize (Hall _ Hin).
  discriminate.
Qed.

Lemma symbol_cases (currency : str) :
  In (dict_get Numbers.CURRENCY_SYMBOLS currency (lit "$"))
     (lit "$" :: map snd Numbers.CURRENCY_SYMBOLS).
Proof.
  unfold Numbers.CURRENCY_SYMBOLS. cbn [dict_get map snd].
  repeat match goal with
         | |- context [str_eqb ?k currency] => destruct (str_eqb k currency)
         end; cbn; tauto.
Qed.

Lemma symbol_no_minus (currency : str) :
  ~ In 45%N (dict_get Numbers.CURRENCY_SYMBOLS currency (lit "$")).
Proof.
  pose proof (symbol_cases currency) as H.
  assert (Hall : forallb (fun s => negb (existsb (N.eqb 45) s))
                   (lit "$" :: map snd Numbers.CURRENCY_SYMBOLS) = true) by reflexivity.
  rewrite forallb_forall in Hall. specialize (Hall _ H).
  intros Hin. apply negb_true_iff in Hall.
  assert (existsb (N.eqb 45) (dict_get Numbers.CURRENCY_SYMBOLS currency (lit "$")) = true).
  { apply existsb_exists. exists 45%N. split; [exact Hin | apply N.eqb_refl]. }
  congruence.
Qed.

Lemma dict_get_fallback (d : list (str * str)) (key default : str) :
  (forall v, ~ In (key, v) d) -> dict_get d key default = default.
Proof.
  induction d as [| [k v] rest IH]; intros Hno; [reflexivity |].
  cbn [dict_get]. unfold str_eqb.
  destruct (list_eq_dec N.eq_dec k key) as [-> | Hne].
  - exfalso. apply (Hno v). now left.
  - apply IH. intros v' Hin. apply (Hno v'). now right.
Qed.

(** On a finite value [format_currency] is the text of the specification. *)
Lemma format_currency_finite (value : float) (currency : str) (ascii_only : bool) :
  is_finite value = true ->
  Numbers.format_currency value currency ascii_only
  = Claimed.currency_text value currency ascii_only.
Proof.
  intros Hfin.
  pose proof (digits_of_digits (Fmt.scaled 2 (fabs value) / 10 ^ Z.of_nat 2)) as Hidig.
  fold (Fmt.int_digits 2 (fabs value)) in Hidig.
  unfold Numbers.format_currency, Claimed.currency_text.
  rewrite (format_fixed_abs value Hfin).
  unfold Fmt.split. rewrite split_aux_first by now apply digit_not_dot.
  rewrite split_aux_plain
    by (apply digit_not_dot; exact (proj2 (frac_digits_two (fabs value)))).
  cbn [rev app nth len length Z.of_nat Z.ltb Z.compare Pos.of_succ_nat Pos.succ
       Pos.compare Pos.compare_cont].
  assert (Hgroup :
    (if 3 <? len (Fmt.int_digits 2 (fabs value))
     then join [] (rev (Numbers.group_loop
                          (if ascii_only then Numbers.REGULAR_SPACE
                           else Numbers.THIN_SPACE)
                          0 (rev (Fmt.int_digits 2 (fabs value))) []))
     else Fmt.int_digits 2 (fabs value))
    = Fmt.grouped (if ascii_only then lit " " else [0x2009%N])
        (Fmt.int_digits 2 (fabs value))).
  { destruct (3 <? len (Fmt.int_digits 2 (fabs value))) eqn:E3.
    - rewrite group_loop_is_grouped. now destruct ascii_only.
    - apply Z.ltb_ge in E3. unfold len in E3.
      symmetry. apply grouped_short. lia. }
  rewrite Hgroup. cbn [lit list_ascii_of_string map app].
  destruct (flt value (zf 0)); cbn [app]; now rewrite <- ?app_assoc.
Qed.

Lemma wrapped_no_minus (negative : bool) (body : str) :
  ~ In 45%N body ->
  ~ In 45%N (if negative then lit "(" ++ body ++ lit ")" else body).
Proof.
  intros Hbody Hin. destruct negative; [| exact (Hbody Hin)].
  change (lit "(") with [40%N] in Hin. change (lit ")") with [41%N] in Hin.
  cbn [app] in Hin.
  destruct Hin as [H | Hin]; [discriminate |].
  apply in_app_or in Hin. destruct Hin as [Hin | [H | []]];
    [exact (Hbody Hin) | discriminate].
Qed.

(** The text of the specification holds no minus sign. *)
Lemma currency_text_no_minus (value : float) (currency : str) (ascii_only : bool) :
  ~ In 45%N (Claimed.currency_text value currency ascii_only).
Proof.
  unfold Claimed.currency_text. apply wrapped_no_minus.
  pose proof (frac_digits_two (fabs value)) as [_ Hfdig].
  pose proof (digits_of_digits (Fmt.scaled 2 (fabs value) / 10 ^ Z.of_nat 2)) as Hidig.
  fold (Fmt.int_digits 2 (fabs value)) in Hidig.
  intros H. apply in_app_or in H. destruct H as [H | H];
    [exact (symbol_no_minus currency H) |].
  apply in_app_or in H. destruct H as [H | H].
  - apply in_grouped in H. destruct H as [H | H].
    + destruct ascii_only; cbn in H; destruct H as [H | []]; discriminate.
    + exact (digit_not_minus _ Hidig H).
  - destruct H as [H | H]; [discriminate |].
    exact (digit_not_minus _ Hfdig H).
Qed.

(** An infinity or a NaN is printed by name, also without a minus sign. *)
Lemma format_currency_no_minus (value : float) (currency : str) (ascii_only : bool) :
  ~ In 45%N (Numbers.format_currency value currency ascii_only).
Proof.
  destruct (is_finite value) eqn:Hfin.
  - rewrite (format_currency_finite value currency ascii_only Hfin).
    apply currency_text_no_minus.
  - assert (Hshape :
      exists (negative : bool) (name : str),
        Numbers.format_currency value currency ascii_only
        = (if negative
           then lit "(" ++ (dict_get Numbers.CURRENCY_SYMBOLS currency (lit "$") ++ name)
                ++ lit ")"
           else dict_get Numbers.CURRENCY_SYMBOLS currency (lit "$") ++ name)
        /\ ~ In 45%N name).
    { destruct value as [s | s | | s m e]; try discriminate.
      - exists s, (lit "inf.00"). split.
        + destruct s; unfold Numbers.format_currency; cbn;
            rewrite <- ?app_assoc; reflexivity.
        + cbn. intuition discriminate.
      - exists false, (lit "nan.00"). split; [reflexivity |].
        cbn. intuition discriminate. }
    destruct Hshape as [negative [name [-> Hname]]].
    apply wrapped_no_minus. intros H. apply in_app_or in H.
    destruct H as [H | H]; [exact (symbol_no_minus currency H) | exact (Hname H)].
Qed.

(** C6. For every finite value, [format_currency] returns the text the
    specification describes: the currency symbol of the table (the dollar
    sign for an unknown code), the integer digits of the absolute value
    rounded to 2 decimals in groups of three from the right, separated by an
    ASCII space when [ascii_only] and by U+2009 otherwise, a point and
    exactly 2 fractional digits, the whole in parentheses when the value is
    negative. No minus sign occurs in the result, for any float; and
    [format_currency(-456789.12, "USD", ascii_only=True)] is
    ["($456 789.12)"]. *)
Theorem format_currency_swiss (value : float) (currency : str) (ascii_only : bool) :
  (is_finite value = true ->
   Numbers.format_currency value currency ascii_only
   = Claimed.currency_text value currency ascii_only)
  /\ length (Fmt.frac_digits 2 (fabs value)) = 2%nat
  /\ forallb Claimed.is_digit (Fmt.frac_digits 2 (fabs value)) = true
  /\ forallb Claimed.is_digit (Fmt.int_digits 2 (fabs value)) = true
  /\ ~ In 45%N (Numbers.format_currency value currency ascii_only)
  /\ ((forall sym, ~ In (currency, sym) Numbers.CURRENCY_SYMBOLS) ->
      dict_get Numbers.CURRENCY_SYMBOLS currency (lit "$") = lit "$")
  /\ Numbers.format_currency (dec (-45678912) 100) (lit "USD") true
     = lit "($456 789.12)".
Proof.
  pose proof (frac_digits_two (fabs value)) as [Hflen Hfdig].
  pose proof (digits_of_digits (Fmt.scaled 2 (fabs value) / 10 ^ Z.of_nat 2)) as Hidig.
  fold (Fmt.int_digits 2 (fabs value)) in Hidig.
  split; [apply format_currency_finite |].
  split; [exact Hflen |]. split; [exact Hfdig |]. split; [exact Hidig |].
  split; [apply format_currency_no_minus |].
  split; [apply dict_get_fallback | vm_compute; reflexivity].
Qed.

Lemma format_currency_swiss_witness :
  is_finite (dec 123456789 100) = true
  /\ Numbers.format_currency (dec 123456789 100) (lit "EUR") false
     = Claimed.currency_text (dec 123456789 100) (lit "EUR") false
  /\ Numbers.format_currency (dec 123456789 100) (lit "ZZZ") true
     = lit "$1 234 567.89".
Proof.
  split; [vm_compute; reflexivity |]. split.
  - apply (proj1 (format_currency_swiss (dec 123456789 100) (lit "EUR") false)).
    vm_compute; reflexivity.
  - vm_compute; reflexivity.
Defined.

(** ** The seed of the procedural generators *)

Lemma xorshift32_low_bits (s : Z) :
  Procgen.xorshift32 s = Procgen.xorshift32 (s mod 2 ^ 32).
Proof.
  unfold Procgen.xorshift32.
  change Procgen.MASK32 with (Z.ones 32).
  rewrite !(Z.land_ones s), !(Z.land_ones (s mod 2 ^ 32)) by lia.
  now rewrite Z.mod_mod by lia.
Qed.

Lemma xorshift32_same_seed (s1 s2 : Z) :
  Claimed.same_seed32 s1 s2 -> Procgen.xorshift32 s1 = Procgen.xorshift32 s2.
Proof.
  intros H. rewrite (xorshift32_low_bits s1), (xorshift32_low_bits s2).
  now rewrite H.
Qed.

Lemma same_seed32_offset (s1 s2 k : Z) :
  Claimed.same_seed32 s1 s2 -> Claimed.same_seed32 (s1 + k) (s2 + k).
Proof.
  unfold Claimed.same_seed32. intros H.
  rewrite (Z.add_mod s1), (Z.add_mod s2) by lia. now rewrite H.
Qed.

Lemma same_seed32_scale (s1 s2 k : Z) :
  Claimed.same_seed32 s1 s2 -> Claimed.same_seed32 (s1 * k) (s2 * k).
Proof.
  unfold Claimed.same_seed32. intros H.
  rewrite (Z.mul_mod s1), (Z.mul_mod s2) by lia. now rewrite H.
Qed.

Lemma spark_cell_same_seed (palette : list char) (lo hi : float) (s1 s2 i : Z)
    (v : float) :
  Claimed.same_seed32 s1 s2 ->
  Procgen.spark_cell palette lo hi (Some s1) i v
  = Procgen.spark_cell palette lo hi (Some s2) i v.
Proof.
  intros H. unfold Procgen.spark_cell.
  rewrite (xorshift32_same_seed _ _ (same_seed32_offset _ _ (i * 1337) H)).
  rewrite (xorshift32_same_seed _ _
             (same_seed32_scale _ _ 2 (same_seed32_offset _ _ (i * 1337) H))).
  reflexivity.
Qed.

Lemma spark_loop_same_seed (palette : list char) (lo hi : float) (s1 s2 : Z)
    (vals : list float) :
  Claimed.same_seed32 s1 s2 ->
  forall i,
    Procgen.spark_loop palette lo hi (Some s1) i vals
    = Procgen.spark_loop palette lo hi (Some s2) i vals.
Proof.
  intros H. induction vals as [| v rest IH]; intros i; cbn [Procgen.spark_loop].
  - reflexivity.
  - now rewrite (spark_cell_same_seed _ _ _ _ _ _ _ H), IH.
Qed.

Lemma braid_loop_same_step (a b : char) (n : nat) (i s1 s2 : Z) :
  Procgen.xorshift32 s1 = Procgen.xorshift32 s2 ->
  Procgen.braid_loop a b n i s1 = Procgen.braid_loop a b n i s2.
Proof.
  intros H. destruct n as [| n]; cbn [Procgen.braid_loop]; [reflexivity |].
  now rewrite H.
Qed.

Lemma density_line_same_step (fill_char : char) (threshold : Z) (n : nat) (s1 s2 : Z) :
  (0 < n)%nat ->
  Procgen.xorshift32 s1 = Procgen.xorshift32 s2 ->
  Procgen.density_line fill_char threshold n s1
  = Procgen.density_line fill_char threshold n s2.
Proof.
  intros Hn H. destruct n as [| n]; [lia |].
  cbn [Procgen.density_line]. now rewrite H.
Qed.

Lemma density_lines_same_step (fill_char : char) (threshold : Z) (w h : nat)
    (s1 s2 : Z) :
  (0 < w)%nat ->
  Procgen.xorshift32 s1 = Procgen.xorshift32 s2 ->
  Procgen.density_lines fill_char threshold w h s1
  = Procgen.density_lines fill_char threshold w h s2.
Proof.
  intros Hw H. destruct h as [| h]; cbn [Procgen.density_lines]; [reflexivity |].
  now rewrite (density_line_same_step _ _ _ _ _ Hw H).
Qed.

Lemma border_line_same_step (chars : Procgen.border_chars) (rough : bool)
    (width : Z) (edge : bool) (n : nat) :
  forall (x s1 s2 : Z),
    Procgen.xorshift32 s1 = Procgen.xorshift32 s2 ->
    fst (Procgen.border_line chars rough width edge n x s1)
    = fst (Procgen.border_line chars rough width edge n x s2)
    /\ Procgen.xorshift32 (snd (Procgen.border_line chars rough width edge n x s1))
       = Procgen.xorshift32 (snd (Procgen.border_line chars rough width edge n x s2)).
Proof.
  induction n as [| n IH]; intros x s1 s2 H; cbn [Procgen.border_line].
  - split; [reflexivity | exact H].
  - destruct edge.
    + destruct ((x =? 0) || (x =? width - 1)).
      * specialize (IH (x + 1) s1 s2 H).
        destruct (Procgen.border_line chars rough width true n (x + 1) s1).
        destruct (Procgen.border_line chars rough width true n (x + 1) s2).
        cbn [fst snd] in *. destruct IH as [-> ->]. split; reflexivity.
      * rewrite H.
        destruct (rough && (Procgen.xorshift32 s2 mod 10 =? 0));
          destruct (Procgen.border_line chars rough width true n (x + 1)
                      (Procgen.xorshift32 s2)); split; reflexivity.
    + specialize (IH (x + 1) s1 s2 H).
      destruct ((x =? 0) || (x =? width - 1));
        destruct (Procgen.border_line chars rough width false n (x + 1) s1);
        destruct (Procgen.border_line chars rough width false n (x + 1) s2);
        cbn [fst snd] in *; destruct IH as [-> ->]; split; reflexivity.
Qed.

Lemma border_lines_same_step (chars : Procgen.border_chars) (rough : bool)
    (width height : Z) (n : nat) :
  forall (y s1 s2 : Z),
    Procgen.xorshift32 s1 = Procgen.xorshift32 s2 ->
    Procgen.border_lines chars rough width height n y s1
    = Procgen.border_lines chars rough width height n y s2.
Proof.
  induction n as [| n IH]; intros y s1 s2 H; cbn [Procgen.border_lines];
    [reflexivity |].
  pose proof (border_line_same_step chars rough width
                ((y =? 0) || (y =? height - 1)) (Z.to_nat width) 0 s1 s2 H)
    as [Hline Hstate].
  destruct (Procgen.border_line chars rough width _ (Z.to_nat width) 0 s1).
  destruct (Procgen.border_line chars rough width _ (Z.to_nat width) 0 s2).
  cbn [fst snd] in *. subst. f_equal. now apply IH.
Qed.

(** X28. Each of the four generators reads its seed through the low
    32 bits only: two seeds that agree modulo 2^32 give the same sparkline,
    braid, density field and border for the same other arguments, an
    exception included. *)
Theorem generators_read_32_bits_of_the_seed (seed1 seed2 : Z) :
  seed1 mod 2 ^ 32 = seed2 mod 2 ^ 32 ->
  (forall vals ascii_only,
     Procgen.sparkline vals ascii_only (Some seed1)
     = Procgen.sparkline vals ascii_only (Some seed2))
  /\ (forall width ascii_only,
        Procgen.braid width ascii_only (Some seed1)
        = Procgen.braid width ascii_only (Some seed2))
  /\ (forall width height density ascii_only,
        Procgen.density_field width height density ascii_only seed1
        = Procgen.density_field width height density ascii_only seed2)
  /\ (forall width height style ascii_only,
        Procgen.procedural_border width height style ascii_only seed1
        = Procgen.procedural_border width height style ascii_only seed2).
Proof.
  intros H. change (Claimed.same_seed32 seed1 seed2) in H.
  split; [| split; [| split]].
  - intros vals ascii_only. unfold Procgen.sparkline.
    destruct vals as [| v vs]; [reflexivity |].
    destruct (feq _ _); [reflexivity |].
    now apply spark_loop_same_seed.
  - intros width ascii_only. unfold Procgen.braid.
    destruct (width <=? 0); [reflexivity |].
    destruct ascii_only; apply braid_loop_same_step; now apply xorshift32_same_seed.
  - intros width height density ascii_only.
    unfold Procgen.density_field.
    destruct ((width <=? 0) || (height <=? 0)) eqn:E; [reflexivity |].
    apply orb_false_iff in E. destruct E as [Ew _]. apply Z.leb_gt in Ew.
    destruct (Procgen.density_threshold density); cbn [Py.bind]; [| reflexivity].
    f_equal. apply density_lines_same_step; [lia | now apply xorshift32_same_seed].
  - intros width height style ascii_only.
    unfold Procgen.procedural_border.
    destruct ((width <? 3) || (height <? 3)); [reflexivity |].
    apply border_lines_same_step. now apply xorshift32_same_seed.
Qed.

Lemma generators_read_32_bits_of_the_seed_witness :
  Procgen.sparkline (map zf [1; 3; 2; 5; 4]) true (Some (42 + 2 ^ 32)) = Ok (lit ".=-#=")
  /\ Procgen.braid 12 true (Some (-1)) = Procgen.braid 12 true (Some (2 ^ 32 - 1))
  /\ Procgen.density_field 8 2 (dec 3 10) true 42
     = Procgen.density_field 8 2 (dec 3 10) true (42 + 2 ^ 32).
Proof.
  assert (H42 : 42 mod 2 ^ 32 = (42 + 2 ^ 32) mod 2 ^ 32) by reflexivity.
  assert (Hneg : (-1) mod 2 ^ 32 = (2 ^ 32 - 1) mod 2 ^ 32) by reflexivity.
  split; [| split].
  - rewrite <- (proj1 (generators_read_32_bits_of_the_seed 42 (42 + 2 ^ 32) H42)).
    vm_compute. reflexivity.
  - exact (proj1 (proj2 (generators_read_32_bits_of_the_seed (-1) (2 ^ 32 - 1) Hneg))
             12 true).
  - exact (proj1 (proj2 (proj2 (generators_read_32_bits_of_the_seed 42 (42 + 2 ^ 32) H42)))
             8 2 (dec 3 10) true).
Defined.

(** ** The xorshift32 generator and what is drawn from it *)

Lemma mask32_ones : Procgen.MASK32 = Z.ones 32.
Proof. reflexivity. Qed.

Lemma land_mask_range (x : Z) : 0 <= Z.land x Procgen.MASK32 < 2 ^ 32.
Proof.
  rewrite mask32_ones, Z.land_ones by lia. apply Z.mod_pos_bound. lia.
Qed.

Lemma xorshift32_range (seed : Z) : 0 <= Procgen.xorshift32 seed < 2 ^ 32.
Proof. unfold Procgen.xorshift32. apply land_mask_range. Qed.

(** Bits of a 32-bit value. *)
Lemma high_bits_zero (x : Z) (i : Z) :
  0 <= x < 2 ^ 32 -> 32 <= i -> Z.testbit x i = false.
Proof.
  intros Hx Hi.
  destruct (Z.eq_dec x 0) as [-> | Hnz]; [apply Z.testbit_0_l |].
  apply Z.bits_above_log2; [lia |].
  assert (Z.log2 x < 32) by (apply Z.log2_lt_pow2; lia). lia.
Qed.

Lemma range_of_high_bits (x : Z) :
  0 <= x -> (forall i, 32 <= i -> Z.testbit x i = false) -> x < 2 ^ 32.
Proof.
  intros Hx Hbits.
  destruct (Z.eq_dec x 0) as [-> | Hnz]; [lia |].
  apply Z.log2_lt_pow2; [lia |].
  destruct (Z_lt_le_dec (Z.log2 x) 32) as [Hlt | Hge]; [exact Hlt |].
  pose proof (Z.bit_log2 x ltac:(lia)) as Hb.
  rewrite Hbits in Hb by lia. discriminate.
Qed.

Lemma lxor_range (x y : Z) :
  0 <= x < 2 ^ 32 -> 0 <= y < 2 ^ 32 -> 0 <= Z.lxor x y < 2 ^ 32.
Proof.
  intros Hx Hy.
  assert (H0 : 0 <= Z.lxor x y) by (apply Z.lxor_nonneg; lia).
  split; [exact H0 |].
  apply range_of_high_bits; [exact H0 |].
  intros i Hi. rewrite Z.lxor_spec, !high_bits_zero by assumption. reflexivity.
Qed.

Lemma land_mask_id (x : Z) : 0 <= x < 2 ^ 32 -> Z.land x Procgen.MASK32 = x.
Proof.
  intros Hx. rewrite mask32_ones, Z.land_ones by lia. apply Z.mod_small. exact Hx.
Qed.

Lemma left_step_bit (k x i : Z) :
  0 < k -> 0 <= i ->
  Z.testbit (left_step k x) i
  = xorb (Z.testbit x i) (Z.testbit x (i - k) && (i <? 32)).
Proof.
  intros Hk Hi. unfold left_step.
  rewrite Z.lxor_spec, Z.land_spec, mask32_ones, Z.shiftl_spec by lia.
  f_equal. f_equal.
  destruct (i <? 32) eqn:E.
  - apply Z.ltb_lt in E. apply Z.ones_spec_low. lia.
  - apply Z.ltb_ge in E. apply Z.ones_spec_high. lia.
Qed.

Lemma left_step_range (k x : Z) :
  0 <= x < 2 ^ 32 -> 0 <= left_step k x < 2 ^ 32.
Proof. intros Hx. apply lxor_range; [exact Hx | apply land_mask_range]. Qed.

Lemma left_step_inj (k x y : Z) :
  0 < k -> 0 <= x < 2 ^ 32 -> 0 <= y < 2 ^ 32 ->
  left_step k x = left_step k y -> x = y.
Proof.
  intros Hk Hx Hy Heq.
  apply Z.bits_inj'. intros i Hi. revert i Hi.
  apply (Z_lt_induction (fun i => Z.testbit x i = Z.testbit y i)).
  intros i IH.
  destruct (Z_lt_le_dec i 0) as [Hneg | Hi].
  - now rewrite !Z.testbit_neg_r.
  - pose proof (f_equal (fun z => Z.testbit z i) Heq) as Hb. cbn beta in Hb.
    rewrite !left_step_bit in Hb by lia.
    destruct (Z_lt_le_dec (i - k) 0) as [Hlow | Hhigh].
    + rewrite !(Z.testbit_neg_r _ (i - k)) in Hb by lia. cbn [andb] in Hb.
      now rewrite !xorb_false_r in Hb.
    + rewrite (IH (i - k)) in Hb by lia.
      destruct (Z.testbit x i), (Z.testbit y i), (Z.testbit y (i - k) && (i <? 32));
        cbn in Hb; congruence.
Qed.

Lemma right_step_bit (k x i : Z) :
  0 <= i ->
  Z.testbit (right_step k x) i = xorb (Z.testbit x i) (Z.testbit x (i + k)).
Proof. intros Hi. unfold right_step. now rewrite Z.lxor_spec, Z.shiftr_spec by lia. Qed.

Lemma right_step_range (k x : Z) :
  0 <= k -> 0 <= x < 2 ^ 32 -> 0 <= right_step k x < 2 ^ 32.
Proof.
  intros Hk Hx. apply lxor_range; [exact Hx |].
  rewrite Z.shiftr_div_pow2 by lia. split.
  - apply Z.div_pos; lia.
  - apply Z.le_lt_trans with x; [| lia].
    apply Z.div_le_upper_bound; [lia |].
    assert (1 <= 2 ^ k) by (apply (Z.pow_le_mono_r 2 0 k); lia). nia.
Qed.

Lemma right_step_inj (k x y : Z) :
  0 < k -> 0 <= x < 2 ^ 32 -> 0 <= y < 2 ^ 32 ->
  right_step k x = right_step k y -> x = y.
Proof.
  intros Hk Hx Hy Heq.
  assert (Hdown : forall n : nat, forall i,
             32 - Z.of_nat n <= i -> 0 <= i -> Z.testbit x i = Z.testbit y i).
  { induction n as [| n IH]; intros i Hlo Hi.
    - now rewrite !high_bits_zero by lia.
    - pose proof (f_equal (fun z => Z.testbit z i) Heq) as Hb. cbn beta in Hb.
      rewrite !right_step_bit in Hb by lia.
      rewrite (IH (i + k)) in Hb by lia.
      destruct (Z.testbit x i), (Z.testbit y i), (Z.testbit y (i + k));
        cbn in Hb; congruence. }
  apply Z.bits_inj'. intros i Hi.
  apply (Hdown 32%nat); lia.
Qed.

Lemma xorshift32_steps (seed : Z) :
  Procgen.xorshift32 seed
  = left_step 5 (right_step 17 (left_step 13 (Z.land seed Procgen.MASK32))).
Proof.
  unfold Procgen.xorshift32. cbv zeta.
  fold (left_step 13 (Z.land seed Procgen.MASK32)).
  fold (right_step 17 (left_step 13 (Z.land seed Procgen.MASK32))).
  fold (left_step 5 (right_step 17 (left_step 13 (Z.land seed Procgen.MASK32)))).
  apply land_mask_id, left_step_range, right_step_range; [lia |].
  apply left_step_range, land_mask_range.
Qed.

Lemma xorshift32_inj (a b : Z) :
  Procgen.xorshift32 a = Procgen.xorshift32 b -> a mod 2 ^ 32 = b mod 2 ^ 32.
Proof.
  rewrite !xorshift32_steps. intros H.
  pose proof (land_mask_range a) as Ha. pose proof (land_mask_range b) as Hb.
  apply left_step_inj in H;
    [| lia | apply right_step_range; [lia | now apply left_step_range]
           | apply right_step_range; [lia | now apply left_step_range]].
  apply right_step_inj in H; [| lia | now apply left_step_range | now apply left_step_range].
  apply left_step_inj in H; [| lia | exact Ha | exact Hb].
  now rewrite mask32_ones, !Z.land_ones in H by lia.
Qed.

Lemma xorshift32_zero : Procgen.xorshift32 0 = 0.
Proof. reflexivity. Qed.

Lemma xorshift32_zero_iff (s : Z) :
  Procgen.xorshift32 s = 0 <-> s mod 2 ^ 32 = 0.
Proof.
  split.
  - intros H. rewrite <- xorshift32_zero in H. apply xorshift32_inj in H.
    now rewrite H.
  - intros H. now rewrite xorshift32_low_bits, H.
Qed.

Lemma steps_range (n : nat) (s : Z) :
  0 <= s < 2 ^ 32 -> 0 <= Procgen.steps n s < 2 ^ 32.
Proof.
  revert s. induction n as [| n IH]; intros s Hs; cbn [Procgen.steps]; [exact Hs |].
  apply IH, xorshift32_range.
Qed.

Lemma steps_nonzero (n : nat) (s : Z) :
  0 <= s < 2 ^ 32 -> s <> 0 -> Procgen.steps n s <> 0.
Proof.
  revert s. induction n as [| n IH]; intros s Hs Hnz; cbn [Procgen.steps]; [exact Hnz |].
  apply IH; [apply xorshift32_range |].
  intros H0. apply xorshift32_zero_iff in H0. rewrite Z.mod_small in H0 by exact Hs.
  contradiction.
Qed.

(** X1. [xorshift32] permutes the 32-bit words: its result is always in
    [0, 2^32), two seeds give the same result exactly when they agree on
    their low 32 bits, and the result is 0 exactly for a seed that is 0 on
    its low 32 bits. *)
Theorem xorshift32_permutes_words (a b : Z) :
  0 <= Procgen.xorshift32 a < 2 ^ 32
  /\ (Procgen.xorshift32 a = Procgen.xorshift32 b <-> a mod 2 ^ 32 = b mod 2 ^ 32)
  /\ (Procgen.xorshift32 a = 0 <-> a mod 2 ^ 32 = 0).
Proof.
  split; [apply xorshift32_range |]. split; [| apply xorshift32_zero_iff].
  split; [apply xorshift32_inj |].
  intros H. now rewrite (xorshift32_low_bits a), (xorshift32_low_bits b), H.
Qed.

Lemma rand_sequence_length (seed : Z) (n : nat) :
  length (Procgen.rand_sequence seed n) = n.
Proof.
  revert seed. induction n as [| n IH]; intros seed; cbn [Procgen.rand_sequence length];
    [reflexivity | now rewrite IH].
Qed.

Lemma rand_sequence_range (seed : Z) (n : nat) :
  Forall (fun v => 0 <= v < 2 ^ 32) (Procgen.rand_sequence seed n).
Proof.
  revert seed. induction n as [| n IH]; intros seed; cbn [Procgen.rand_sequence];
    constructor; [apply xorshift32_range | apply IH].
Qed.

Lemma last_nonempty {A : Type} (l : list A) (d d' : A) :
  l <> [] -> last l d = last l d'.
Proof.
  induction l as [| x [| y l] IH]; intros Hne; [contradiction | reflexivity |].
  change (last (y :: l) d = last (y :: l) d'). apply IH. discriminate.
Qed.

Lemma rand_sequence_app (seed : Z) (a b : nat) :
  Procgen.rand_sequence seed (a + b)
  = Procgen.rand_sequence seed a
    ++ Procgen.rand_sequence (last (Procgen.rand_sequence seed a) seed) b.
Proof.
  revert seed. induction a as [| a IH]; intros seed; [reflexivity |].
  cbn [Nat.add Procgen.rand_sequence app]. rewrite IH. f_equal. f_equal. f_equal.
  destruct a as [| a]; [reflexivity |].
  change (last (Procgen.rand_sequence (Procgen.xorshift32 seed) (S a))
            (Procgen.xorshift32 seed)
          = last (Procgen.xorshift32 seed
                  :: Procgen.rand_sequence (Procgen.xorshift32 seed) (S a)) seed).
  set (l := Procgen.rand_sequence (Procgen.xorshift32 seed) (S a)).
  assert (Hl : l <> []) by (subst l; cbn [Procgen.rand_sequence]; discriminate).
  destruct l as [| x l]; [contradiction |].
  change (last (x :: l) (Procgen.xorshift32 seed) = last (x :: l) seed).
  now apply last_nonempty.
Qed.

Lemma rand_sequence_nonzero (seed : Z) (n : nat) :
  seed mod 2 ^ 32 <> 0 -> Forall (fun v => v <> 0) (Procgen.rand_sequence seed n).
Proof.
  revert seed. induction n as [| n IH]; intros seed Hs; cbn [Procgen.rand_sequence];
    constructor.
  - intros H0. now apply xorshift32_zero_iff in H0.
  - apply IH. rewrite Z.mod_small by apply xorshift32_range.
    intros H0. now apply xorshift32_zero_iff in H0.
Qed.

(** X2. [rand_sequence(seed, a)] has [a] values, all in [0, 2^32), none
    of them 0 when the seed is not 0 on its low 32 bits; and a longer
    sequence is the shorter one followed by the sequence started from its
    last value (from the seed itself when it is empty). *)
Theorem rand_sequence_resumes (seed : Z) (a b : nat) :
  length (Procgen.rand_sequence seed a) = a
  /\ Forall (fun v => 0 <= v < 2 ^ 32) (Procgen.rand_sequence seed a)
  /\ (seed mod 2 ^ 32 <> 0 -> Forall (fun v => v <> 0) (Procgen.rand_sequence seed a))
  /\ Procgen.rand_sequence seed (a + b)
     = Procgen.rand_sequence seed a
       ++ Procgen.rand_sequence (last (Procgen.rand_sequence seed a) seed) b.
Proof.
  split; [apply rand_sequence_length |].
  split; [apply rand_sequence_range |].
  split; [apply rand_sequence_nonzero | apply rand_sequence_app].
Qed.

Lemma steps_of_zero_seed (n : nat) (s : Z) :
  s mod 2 ^ 32 = 0 -> Procgen.steps (S n) s = 0.
Proof.
  intros Hs. cbn [Procgen.steps].
  replace (Procgen.xorshift32 s) with 0
    by (symmetry; now apply xorshift32_zero_iff).
  induction n as [| n IH]; [reflexivity | exact IH].
Qed.

Lemma rand_sequence_nth (n : nat) :
  forall (seed : Z) (x : nat),
    (x < n)%nat -> nth x (Procgen.rand_sequence seed n) 0 = Procgen.steps (S x) seed.
Proof.
  induction n as [| n IH]; intros seed x Hx; [lia |].
  cbn [Procgen.rand_sequence]. destruct x as [| x]; [reflexivity |].
  cbn [nth]. rewrite IH by lia. reflexivity.
Qed.

Lemma braid_plain_length (a b : char) (n : nat) (i : Z) :
  length (Procgen.braid_plain a b n i) = n.
Proof.
  revert i. induction n as [| n IH]; intros i; cbn [Procgen.braid_plain length];
    [reflexivity | now rewrite IH].
Qed.

Lemma braid_loop_length (a b : char) (n : nat) (i s : Z) :
  length (Procgen.braid_loop a b n i s) = n.
Proof.
  revert i s. induction n as [| n IH]; intros i s; cbn [Procgen.braid_loop length];
    [reflexivity | now rewrite IH].
Qed.

Lemma braid_plain_nth (a b : char) (n : nat) :
  forall (i : Z) (x : nat),
    (x < n)%nat ->
    nth x (Procgen.braid_plain a b n i) 0%N
    = if (i + Z.of_nat x) mod 2 =? 0 then a else b.
Proof.
  induction n as [| n IH]; intros i x Hx; [lia |].
  cbn [Procgen.braid_plain]. destruct x as [| x].
  - cbn [nth]. now rewrite Z.add_0_r.
  - cbn [nth]. rewrite IH by lia.
    now replace (i + 1 + Z.of_nat x) with (i + Z.of_nat (S x)) by lia.
Qed.

Lemma braid_loop_nth (a b : char) (n : nat) :
  forall (i s : Z) (x : nat),
    (x < n)%nat ->
    nth x (Procgen.braid_loop a b n i s) 0%N
    = if Procgen.steps (S x) s mod 20 =? 0
      then (if (i + Z.of_nat x) mod 2 =? 0 then b else a)
      else (if (i + Z.of_nat x) mod 2 =? 0 then a else b).
Proof.
  induction n as [| n IH]; intros i s x Hx; [lia |].
  cbn [Procgen.braid_loop]. destruct x as [| x].
  - cbn [nth Procgen.steps]. now rewrite Z.add_0_r.
  - cbn [nth]. rewrite IH by lia.
    replace (i + 1 + Z.of_nat x) with (i + Z.of_nat (S x)) by lia.
    reflexivity.
Qed.

Lemma braid_shape (width : Z) (ascii_only : bool) (seed : option Z) :
  length (Procgen.braid width ascii_only seed) = Z.to_nat width
  /\ forall x : nat,
       (x < Z.to_nat width)%nat ->
       let a := if ascii_only then 47%N else 0x2571%N in
       let b := if ascii_only then 92%N else 0x2572%N in
       let even := Z.of_nat x mod 2 =? 0 in
       nth x (Procgen.braid width ascii_only seed) 0%N
       = match seed with
         | Some s =>
             if Procgen.steps (S x) s mod 20 =? 0
             then (if even then b else a) else (if even then a else b)
         | None => if even then a else b
         end.
Proof.
  unfold Procgen.braid.
  destruct (width <=? 0) eqn:Ew.
  - apply Z.leb_le in Ew. split; [cbn; lia |]. intros x Hx. lia.
  - split.
    + destruct ascii_only, seed; cbn iota beta;
        first [apply braid_loop_length | apply braid_plain_length].
    + intros x Hx. cbv zeta.
      destruct ascii_only, seed; cbn iota beta;
        first [now rewrite braid_loop_nth by exact Hx
              | now rewrite braid_plain_nth by exact Hx].
Qed.

(** X3. [braid] returns one glyph per column ([max(0, width)] of them).
    Without a seed, even columns hold the first glyph and odd columns the
    second; with a seed, column [x] is exchanged exactly when the state
    after [x + 1] steps of the generator is a multiple of 20. *)
Theorem braid_follows_the_walk (width : Z) (ascii_only : bool) (seed : option Z) :
  length (Procgen.braid width ascii_only seed) = Z.to_nat width
  /\ forall x : nat,
       (x < Z.to_nat width)%nat ->
       let a := if ascii_only then 47%N else 0x2571%N in
       let b := if ascii_only then 92%N else 0x2572%N in
       let even := Z.of_nat x mod 2 =? 0 in
       nth x (Procgen.braid width ascii_only seed) 0%N
       = match seed with
         | Some s =>
             if Procgen.steps (S x) s mod 20 =? 0
             then (if even then b else a) else (if even then a else b)
         | None => if even then a else b
         end.
Proof. apply braid_shape. Qed.

Lemma nth_map_lt {A B : Type} (f : A -> B) (l : list A) (x : nat) (d : A) (d' : B) :
  (x < length l)%nat -> nth x (map f l) d' = f (nth x l d).
Proof.
  revert x. induction l as [| a l IH]; intros x Hx; cbn [length] in Hx; [lia |].
  destruct x as [| x]; [reflexivity |]. cbn [map nth]. apply IH. lia.
Qed.

(** X4. A seed that is 0 on its low 32 bits never leaves 0:
    [rand_sequence] is all zeros, and the seeded [braid] is the unseeded
    one with its two glyphs exchanged in every column. *)
Theorem zero_seed_is_stuck (seed : Z) (n : nat) (width : Z) (ascii_only : bool) :
  seed mod 2 ^ 32 = 0 ->
  Procgen.rand_sequence seed n = repeat 0 n
  /\ Procgen.braid width ascii_only (Some seed)
     = map (fun c => if (c =? (if ascii_only then 47 else 0x2571))%N
                     then (if ascii_only then 92%N else 0x2572%N)
                     else (if ascii_only then 47%N else 0x2571%N))
           (Procgen.braid width ascii_only None).
Proof.
  intros Hs. split.
  - apply (nth_ext _ _ 0 0).
    + now rewrite rand_sequence_length, repeat_length.
    + intros x Hx. rewrite rand_sequence_length in Hx.
      rewrite rand_sequence_nth by exact Hx.
      rewrite steps_of_zero_seed by exact Hs.
      symmetry. apply nth_repeat_lt. exact Hx.
  - pose proof (braid_shape width ascii_only (Some seed)) as [Hl1 Hn1].
    pose proof (braid_shape width ascii_only None) as [Hl2 Hn2].
    unfold str, char in *.
    apply (nth_ext _ _ 0%N 0%N).
    + rewrite length_map. congruence.
    + intros x Hx. rewrite Hl1 in Hx.
      rewrite (nth_map_lt _ _ x 0%N) by congruence.
      rewrite (Hn1 x Hx), (Hn2 x Hx). cbv zeta.
      rewrite steps_of_zero_seed by exact Hs.
      change (0 mod 20 =? 0) with true. cbn iota.
      destruct ascii_only, (Z.of_nat x mod 2 =? 0); reflexivity.
Qed.

Lemma zero_seed_is_stuck_witness :
  Procgen.rand_sequence (2 ^ 32) 3 = repeat 0 3
  /\ Procgen.braid 5 true (Some (2 ^ 32))
     = map (fun c => if (c =? (if true then 47 else 0x2571))%N
                     then (if true then 92%N else 0x2572%N)
                     else (if true then 47%N else 0x2571%N))
           (Procgen.braid 5 true None).
Proof. apply (zero_seed_is_stuck (2 ^ 32) 3 5 true). reflexivity. Defined.

(** ** The border generator *)

Lemma border_line_length (chars : Procgen.border_chars) (rough : bool) (width : Z)
    (edge : bool) (n : nat) :
  forall (x state : Z),
    length (fst (Procgen.border_line chars rough width edge n x state)) = n.
Proof.
  induction n as [| n IH]; intros x state; cbn [Procgen.border_line]; [reflexivity |].
  match goal with
  | |- context [match ?e with pair _ _ => _ end] => destruct e as [c st]
  end.
  specialize (IH (x + 1) st).
  destruct (Procgen.border_line chars rough width edge n (x + 1) st).
  cbn [fst length] in *. now rewrite IH.
Qed.

Lemma border_line_cells (chars : Procgen.border_chars) (rough : bool) (width : Z)
    (edge : bool) (n : nat) :
  forall (x state : Z) (k : nat),
    (k < n)%nat ->
    border_cell_ok chars rough width edge (x + Z.of_nat k)
      (nth k (fst (Procgen.border_line chars rough width edge n x state)) 0%N).
Proof.
  induction n as [| n IH]; intros x state k Hk; [lia |].
  cbn [Procgen.border_line].
  match goal with
  | |- context [match ?e with pair _ _ => _ end] => destruct e as [c st] eqn:Ecell
  end.
  specialize (IH (x + 1) st).
  destruct (Procgen.border_line chars rough width edge n (x + 1) st) as [rest final].
  cbn [fst] in *. destruct k as [| k].
  - cbn [nth]. rewrite Z.add_0_r. unfold border_cell_ok.
    destruct edge.
    + destruct ((x =? 0) || (x =? width - 1)).
      * now inversion Ecell.
      * destruct rough; cbn [andb] in Ecell.
        -- destruct (Procgen.xorshift32 state mod 10 =? 0); inversion Ecell; auto.
        -- inversion Ecell; auto.
    + destruct ((x =? 0) || (x =? width - 1)); now inversion Ecell.
  - cbn [nth]. replace (x + Z.of_nat (S k)) with (x + 1 + Z.of_nat k) by lia.
    apply IH. lia.
Qed.

Lemma border_lines_length (chars : Procgen.border_chars) (rough : bool)
    (width height : Z) (n : nat) :
  forall (y state : Z),
    length (Procgen.border_lines chars rough width height n y state) = n.
Proof.
  induction n as [| n IH]; intros y state; cbn [Procgen.border_lines]; [reflexivity |].
  destruct (Procgen.border_line chars rough width _ (Z.to_nat width) 0 state).
  cbn [length]. now rewrite IH.
Qed.

Lemma border_lines_nth (chars : Procgen.border_chars) (rough : bool)
    (width height : Z) (n : nat) :
  forall (y state : Z) (k : nat),
    (k < n)%nat ->
    exists st,
      nth k (Procgen.border_lines chars rough width height n y state) []
      = fst (Procgen.border_line chars rough width
               ((y + Z.of_nat k =? 0) || (y + Z.of_nat k =? height - 1))
               (Z.to_nat width) 0 st).
Proof.
  induction n as [| n IH]; intros y state k Hk; [lia |].
  cbn [Procgen.border_lines].
  destruct (Procgen.border_line chars rough width _ (Z.to_nat width) 0 state)
    as [line st] eqn:Eline.
  destruct k as [| k].
  - exists state. cbn [nth]. rewrite Z.add_0_r, Eline. reflexivity.
  - cbn [nth]. destruct (IH (y + 1) st k ltac:(lia)) as [st' Hst'].
    exists st'. rewrite Hst'.
    now replace (y + Z.of_nat (S k)) with (y + 1 + Z.of_nat k) by lia.
Qed.

(** X5. For a width and a height of at least 3, [procedural_border]
    returns [height] lines of [width] glyphs: the corner glyph at the four
    corners, the vertical glyph on the two side columns of the inner rows,
    spaces inside, and on the top and bottom rows the horizontal glyph, or
    the rough glyph and only when the style is ["rough"]. *)
Theorem procedural_border_is_a_frame (width height : Z) (style : str)
    (ascii_only : bool) (seed : Z) :
  3 <= width -> 3 <= height ->
  let lines := Procgen.procedural_border width height style ascii_only seed in
  let corner := if ascii_only then 43%N else 0x250C%N in
  let h := if ascii_only then 45%N else 0x2500%N in
  let v := if ascii_only then 124%N else 0x2502%N in
  let rough := if ascii_only then 126%N else 0x2248%N in
  length lines = Z.to_nat height
  /\ forall y x : nat,
       (y < Z.to_nat height)%nat -> (x < Z.to_nat width)%nat ->
       let c := nth x (nth y lines []) 0%N in
       let side := (x =? 0)%nat || (x =? Z.to_nat width - 1)%nat in
       length (nth y lines []) = Z.to_nat width
       /\ if (y =? 0)%nat || (y =? Z.to_nat height - 1)%nat then
            if side then c = corner
            else c = h \/ (style = lit "rough" /\ c = rough)
          else if side then c = v else c = 32%N.
Proof.
  intros Hw Hh. cbv zeta. unfold Procgen.procedural_border.
  replace ((width <? 3) || (height <? 3)) with false
    by (symmetry; apply orb_false_iff; split; apply Z.ltb_ge; lia).
  split; [apply border_lines_length |].
  intros y x Hy Hx.
  match goal with
  | |- context [Procgen.border_lines ?chars _ _ _ _ _ _] => set (cs := chars)
  end.
  destruct (border_lines_nth cs (str_eqb style (lit "rough")) width height
              (Z.to_nat height) 0 seed y Hy) as [st Hst].
  rewrite Hst. split; [apply border_line_length |].
  pose proof (border_line_cells cs (str_eqb style (lit "rough")) width
                ((0 + Z.of_nat y =? 0) || (0 + Z.of_nat y =? height - 1))
                (Z.to_nat width) 0 st x Hx) as Hcell.
  unfold border_cell_ok in Hcell.
  replace ((0 + Z.of_nat y =? 0) || (0 + Z.of_nat y =? height - 1))
    with ((y =? 0)%nat || (y =? Z.to_nat height - 1)%nat) in *.
  2:{ f_equal.
      - destruct (Nat.eqb_spec y 0), (Z.eqb_spec (0 + Z.of_nat y) 0); lia || reflexivity.
      - destruct (Nat.eqb_spec y (Z.to_nat height - 1)),
          (Z.eqb_spec (0 + Z.of_nat y) (height - 1)); lia || reflexivity. }
  replace ((0 + Z.of_nat x =? 0) || (0 + Z.of_nat x =? width - 1))
    with ((x =? 0)%nat || (x =? Z.to_nat width - 1)%nat) in *.
  2:{ f_equal.
      - destruct (Nat.eqb_spec x 0), (Z.eqb_spec (0 + Z.of_nat x) 0); lia || reflexivity.
      - destruct (Nat.eqb_spec x (Z.to_nat width - 1)),
          (Z.eqb_spec (0 + Z.of_nat x) (width - 1)); lia || reflexivity. }
  destruct ((y =? 0)%nat || (y =? Z.to_nat height - 1)%nat);
    destruct ((x =? 0)%nat || (x =? Z.to_nat width - 1)%nat);
    subst cs; destruct ascii_only; cbn [Procgen.ch_corner Procgen.ch_h Procgen.ch_v
                                         Procgen.ch_rough] in Hcell; try exact Hcell.
  all: destruct Hcell as [Hc | [Hr Hc]]; [now left | right; split; [| exact Hc]].
  all: unfold str_eqb in Hr; destruct (list_eq_dec N.eq_dec style (lit "rough"));
    [assumption | discriminate].
Qed.

Lemma procedural_border_is_a_frame_witness :
  let lines := Procgen.procedural_border 4 3 (lit "plain") true 7 in
  length lines = Z.to_nat 3
  /\ forall y x : nat,
       (y < Z.to_nat 3)%nat -> (x < Z.to_nat 4)%nat ->
       let c := nth x (nth y lines []) 0%N in
       let side := (x =? 0)%nat || (x =? Z.to_nat 4 - 1)%nat in
       length (nth y lines []) = Z.to_nat 4
       /\ if (y =? 0)%nat || (y =? Z.to_nat 3 - 1)%nat then
            if side then c = 43%N
            else c = 45%N \/ (lit "plain" = lit "rough" /\ c = 126%N)
          else if side then c = 124%N else c = 32%N.
Proof. apply (procedural_border_is_a_frame 4 3 (lit "plain") true 7); lia. Defined.

(** ** The density field at its ends *)

Lemma density_line_blank (fill_char : char) (threshold : Z) (n : nat) :
  threshold <= 0 ->
  forall state,
    fst (Procgen.density_line fill_char threshold n state) = repeat 32%N n.
Proof.
  intros Ht. induction n as [| n IH]; intros state; cbn [Procgen.density_line];
    [reflexivity |].
  specialize (IH (Procgen.xorshift32 state)).
  destruct (Procgen.density_line fill_char threshold n (Procgen.xorshift32 state)).
  cbn [fst repeat] in *. rewrite IH.
  pose proof (xorshift32_range state).
  replace (Procgen.xorshift32 state <? threshold) with false
    by (symmetry; apply Z.ltb_ge; lia).
  reflexivity.
Qed.

Lemma density_lines_blank (fill_char : char) (threshold : Z) (w h : nat) :
  threshold <= 0 ->
  forall state,
    Procgen.density_lines fill_char threshold w h state = repeat (repeat 32%N w) h.
Proof.
  intros Ht. induction h as [| h IH]; intros state; cbn [Procgen.density_lines];
    [reflexivity |].
  pose proof (density_line_blank fill_char threshold w Ht state) as Hline.
  destruct (Procgen.density_line fill_char threshold w state) as [line st].
  cbn [fst] in Hline. subst line. cbn [repeat]. now rewrite IH.
Qed.

Lemma threshold_of_nonpositive (density : float) :
  fle density (zf 0) = true -> Procgen.density_threshold density = Ok 0.
Proof.
  intros Hle. unfold Procgen.density_threshold, Procgen.clamp_density,
    max_float, min_float. cbn [fold_left].
  destruct density as [s | s | | s m e].
  - destruct s; vm_compute; reflexivity.
  - destruct s; [vm_compute; reflexivity | vm_compute in Hle; discriminate].
  - vm_compute in Hle. discriminate.
  - destruct s; [| vm_compute in Hle; discriminate].
    replace (flt (S754_finite true m e) (zf 1)) with true by reflexivity.
    replace (flt (zf 0) (S754_finite true m e)) with false by reflexivity.
    vm_compute. reflexivity.
Qed.

(** X6. A density of zero or less (negative zero and minus infinity
    included) gives a blank field, whatever the seed: no lines when the
    width or the height is not positive, and otherwise [height] lines of
    [width] spaces. *)
Theorem density_field_of_no_density_is_blank (width height : Z) (density : float)
    (ascii_only : bool) (seed : Z) :
  fle density (zf 0) = true ->
  Procgen.density_field width height density ascii_only seed
  = Ok (if (width <=? 0) || (height <=? 0) then []
        else repeat (repeat 32%N (Z.to_nat width)) (Z.to_nat height)).
Proof.
  intros Hle. unfold Procgen.density_field.
  destruct ((width <=? 0) || (height <=? 0)); [reflexivity |].
  rewrite threshold_of_nonpositive by exact Hle. cbn [Py.bind].
  f_equal. apply density_lines_blank. lia.
Qed.

Lemma density_field_of_no_density_is_blank_witness :
  Procgen.density_field 3 2 (zf (-1)) true 42
  = Ok (if (3 <=? 0) || (2 <=? 0) then []
        else repeat (repeat 32%N (Z.to_nat 3)) (Z.to_nat 2)).
Proof.
  apply (density_field_of_no_density_is_blank 3 2 (zf (-1)) true 42).
  vm_compute. reflexivity.
Defined.

(** ** The sparkline *)

Lemma clamp_idx_range (n idx : Z) : 0 < n -> 0 <= Procgen.clamp_idx n idx < n.
Proof. unfold Procgen.clamp_idx. lia. Qed.

Lemma spark_cell_in_palette (palette : list char) (lo hi : float) (seed : option Z)
    (i : Z) (v : float) (c : char) :
  palette <> [] ->
  Procgen.spark_cell palette lo hi seed i v = Ok c -> In c palette.
Proof.
  intros Hne Hrun. unfold Procgen.spark_cell in Hrun.
  assert (Hn : 0 < len palette).
  { destruct palette; [contradiction | rewrite len_cons; pose proof (len_nonneg palette); lia]. }
  repeat match type of Hrun with
         | Py.bind ?r _ = _ => destruct r; cbn [Py.bind] in Hrun; [| discriminate]
         end.
  injection Hrun as <-.
  apply nth_In.
  match goal with |- (Z.to_nat ?k < _)%nat => assert (Hk : 0 <= k < len palette) end.
  { destruct seed as [s |].
    - destruct (_ =? 0); apply clamp_idx_range; exact Hn.
    - apply clamp_idx_range; exact Hn. }
  unfold len, str, char in *. lia.
Qed.

Lemma spark_loop_shape (palette : list char) (lo hi : float) (seed : option Z)
    (vals : list float) :
  palette <> [] ->
  forall i s,
    Procgen.spark_loop palette lo hi seed i vals = Ok s ->
    length s = length vals /\ Forall (fun c => In c palette) s.
Proof.
  intros Hne. induction vals as [| v rest IH]; intros i s Hrun;
    cbn [Procgen.spark_loop] in Hrun.
  - injection Hrun as <-. split; [reflexivity | constructor].
  - destruct (Procgen.spark_cell palette lo hi seed i v) as [c | e] eqn:Ec;
      cbn [Py.bind] in Hrun; [| discriminate].
    destruct (Procgen.spark_loop palette lo hi seed (i + 1) rest) as [out | e] eqn:Eo;
      cbn [Py.bind] in Hrun; [| discriminate].
    injection Hrun as <-. destruct (IH _ _ Eo) as [Hl Hin].
    split; [cbn [length]; now rewrite Hl |].
    constructor; [now apply (spark_cell_in_palette palette lo hi seed i v) | exact Hin].
Qed.

(** X7. Whenever [sparkline] returns, the string has one glyph per input
    value, each taken from the palette in use. *)
Theorem sparkline_has_one_glyph_per_value (vals : list float) (ascii_only : bool)
    (seed : option Z) (s : str) :
  Procgen.sparkline vals ascii_only seed = Ok s ->
  length s = length vals
  /\ Forall (fun c => In c (if ascii_only then Procgen.SPARK_ASC else Procgen.SPARK_UNI)) s.
Proof.
  intros Hrun. unfold Procgen.sparkline in Hrun.
  destruct vals as [| v vs]; [injection Hrun as <-; split; [reflexivity | constructor] |].
  destruct (feq _ _).
  - injection Hrun as <-.
    split; [cbn [length repeat]; now rewrite repeat_length |].
    apply Forall_forall. intros c Hc.
    change (In c (repeat (nth 0 (if ascii_only then Procgen.SPARK_ASC
                                 else Procgen.SPARK_UNI) 0%N) (length (v :: vs)))) in Hc.
    apply repeat_spec in Hc. subst c.
    destruct ascii_only; cbn; auto.
  - refine (spark_loop_shape _ _ _ _ _ _ _ _ Hrun).
    destruct ascii_only; unfold Procgen.SPARK_ASC, Procgen.SPARK_UNI; discriminate.
Qed.

Lemma sparkline_has_one_glyph_per_value_witness :
  length (lit ".=-#=") = length (map zf [1; 3; 2; 5; 4])
  /\ Forall (fun c => In c (if true then Procgen.SPARK_ASC else Procgen.SPARK_UNI))
       (lit ".=-#=").
Proof.
  apply (sparkline_has_one_glyph_per_value (map zf [1; 3; 2; 5; 4]) true (Some 42)).
  vm_compute. reflexivity.
Defined.

(** ** The compact bar chart *)

Lemma ljust_len (s : str) (w : Z) : len (ljust s w) = Z.max (len s) w.
Proof. unfold ljust. rewrite len_app, repeat_space_len. lia. Qed.

Lemma rjust_len (s : str) (w : Z) : len (rjust s w) = Z.max (len s) w.
Proof. unfold rjust. rewrite len_app, repeat_space_len. lia. Qed.

Lemma max_int_ge (xs : list Z) :
  forall x, x <= max_int x xs /\ Forall (fun y => y <= max_int x xs) xs.
Proof.
  unfold max_int. induction xs as [| y ys IH]; intros x; cbn [fold_left].
  - split; [lia | constructor].
  - destruct (IH (if x <? y then y else x)) as [H1 H2].
    destruct (x <? y) eqn:E; [apply Z.ltb_lt in E | apply Z.ltb_ge in E];
      (split; [lia | constructor; [lia | exact H2]]).
Qed.

Lemma max_of_ge (xs : list Z) (x : Z) : In x xs -> x <= Renderer.max_of xs.
Proof.
  destruct xs as [| y ys]; [contradiction |]. cbn [Renderer.max_of].
  destruct (max_int_ge ys y) as [H1 H2]. intros [<- | Hin]; [exact H1 |].
  rewrite Forall_forall in H2. now apply H2.
Qed.

Lemma mapM_length {A B : Type} (f : A -> result B) (xs : list A) :
  forall ys, mapM f xs = Ok ys -> length ys = length xs.
Proof.
  induction xs as [| x rest IH]; intros ys Hrun; cbn [mapM] in Hrun.
  - now injection Hrun as <-.
  - destruct (f x); cbn [Py.bind] in Hrun; [| discriminate].
    destruct (mapM f rest) as [ys' |]; cbn [Py.bind] in Hrun; [| discriminate].
    injection Hrun as <-. cbn [length]. now rewrite (IH ys').
Qed.

Lemma mapM_forall_in {A B : Type} (f : A -> result B) (P : B -> Prop) (xs : list A) :
  (forall x y, In x xs -> f x = Ok y -> P y) ->
  forall ys, mapM f xs = Ok ys -> Forall P ys.
Proof.
  induction xs as [| x rest IH]; intros Hf ys Hrun; cbn [mapM] in Hrun.
  - injection Hrun as <-. constructor.
  - destruct (f x) as [y | e] eqn:Ey; cbn [Py.bind] in Hrun; [| discriminate].
    destruct (mapM f rest) as [ys' | e]; cbn [Py.bind] in Hrun; [| discriminate].
    injection Hrun as <-. constructor.
    + apply (Hf x); [now left | exact Ey].
    + apply IH; [| reflexivity]. intros x' y' Hin. apply Hf. now right.
Qed.

Lemma startswith_nil (s : str) : startswith s [] = true.
Proof. destruct s; reflexivity. Qed.

(** Every style pack fills with one character. *)
Lemma style_pack_fill_one (name : str) :
  exists c, Charlib.sp_fill (Charlib.get_style_pack name) = [c].
Proof.
  unfold Charlib.get_style_pack, Charlib.STYLE_PACKS. cbn [dict_get].
  repeat match goal with
         | |- context [if ?b then _ else _] => destruct b
         end; eexists; reflexivity.
Qed.

Lemma scale_bar_len_clamped (value vmax : float) (width n : Z) :
  Renderer._scale_bar_len value vmax width = Ok n -> 0 <= n <= Z.max 0 width.
Proof.
  unfold Renderer._scale_bar_len. destruct (fle vmax (zf 0)).
  - intros H. injection H as <-. lia.
  - intros H.
    repeat match type of H with
           | Py.bind ?r _ = _ => destruct r; cbn [Py.bind] in H; [| discriminate]
           end.
    injection H as <-. lia.
Qed.

(** ** Rows of a text whose lines hold no line feed *)

Lemma split_rows_aux_plain (s cur : str) :
  ~ In newline s -> split_rows_aux cur s = [rev cur ++ s].
Proof.
  revert cur. induction s as [| c s IH]; intros cur Hno; cbn [split_rows_aux].
  - now rewrite app_nil_r.
  - destruct (c =? newline)%N eqn:E.
    + apply N.eqb_eq in E. exfalso. apply Hno. now left.
    + rewrite IH by (intros Hin; apply Hno; now right).
      cbn [rev]. now rewrite <- app_assoc.
Qed.

Lemma split_rows_join (parts : list str) :
  parts <> [] ->
  Forall (fun p => ~ In newline p) parts ->
  split_rows (join [newline] parts) = parts.
Proof.
  intros Hne Hall. induction Hall as [| p rest Hp Hrest IH]; [contradiction |].
  destruct rest as [| q rest'].
  - cbn [join]. unfold split_rows. now rewrite split_rows_aux_plain.
  - change (join [newline] (p :: q :: rest'))
      with (p ++ newline :: join [newline] (q :: rest')).
    unfold split_rows at 1. rewrite split_rows_aux_app.
    rewrite split_rows_aux_plain by exact Hp.
    rewrite IH by discriminate. reflexivity.
Qed.

Lemma in_repeat_str (c : char) (s : str) (n : Z) : In c (repeat_str s n) -> In c s.
Proof.
  unfold repeat_str. induction (Z.to_nat n) as [| k IH]; cbn [repeat concat]; [intros [] |].
  rewrite in_app_iff. tauto.
Qed.

Lemma in_firstn {A : Type} (x : A) (k : nat) :
  forall xs, In x (firstn k xs) -> In x xs.
Proof.
  induction k as [| k IH]; intros [| y ys]; cbn [firstn In]; try tauto.
  intros [H | H]; [now left | right; now apply IH].
Qed.

Lemma in_slice_to (c : char) (s : str) (n : Z) : In c (slice_to s n) -> In c s.
Proof.
  unfold slice_to. destruct (0 <=? n); apply in_firstn.
Qed.

Lemma in_ljust (c : char) (s : str) (w : Z) : In c (ljust s w) -> In c s \/ c = 32%N.
Proof.
  unfold ljust. rewrite in_app_iff. intros [H | H]; [now left | right].
  apply in_repeat_str in H. destruct H as [H | []]. now symmetry.
Qed.

Lemma in_rjust (c : char) (s : str) (w : Z) : In c (rjust s w) -> In c s \/ c = 32%N.
Proof.
  unfold rjust. rewrite in_app_iff. intros [H | H]; [right | now left].
  apply in_repeat_str in H. destruct H as [H | []]. now symmetry.
Qed.

Lemma in_center (c : char) (s : str) (w : Z) : In c (center s w) -> In c s \/ c = 32%N.
Proof.
  unfold center. destruct (w - len s <=? 0); [now left |].
  rewrite !in_app_iff. intros [H | [H | H]]; [right | now left | right];
    apply in_repeat_str in H; destruct H as [H | []]; now symmetry.
Qed.

Lemma in_lstrip (c : char) (s : str) : In c (lstrip s) -> In c s.
Proof.
  induction s as [| x s IH]; cbn [lstrip]; [tauto |].
  destruct (isspace x); [intros H; right; now apply IH | tauto].
Qed.

Lemma in_strip (c : char) (s : str) : In c (strip s) -> In c s.
Proof.
  unfold strip, rstrip. intros H.
  apply in_rev in H. apply in_lstrip in H. apply in_rev in H. now apply in_lstrip.
Qed.

Lemma in_str_of_int (c : char) (n : Z) :
  In c (str_of_int n) -> c = 45%N \/ Claimed.is_digit c = true.
Proof.
  unfold str_of_int. destruct (n <? 0).
  - intros [H | H]; [now left | right].
    pose proof (digits_of_digits (- n)) as Hd. rewrite forallb_forall in Hd. now apply Hd.
  - intros H. right.
    pose proof (digits_of_digits n) as Hd. rewrite forallb_forall in Hd. now apply Hd.
Qed.

Lemma str_of_int_plain (n : Z) : ~ In newline (str_of_int n).
Proof.
  intros H. apply in_str_of_int in H. destruct H as [H | H]; [discriminate H |].
  vm_compute in H. discriminate H.
Qed.

Lemma in_packaged_fit_row (c : char) (W : Z) (row : str) :
  In c (Renderer.fit_row W row) -> In c row \/ c = 32%N.
Proof.
  unfold Renderer.fit_row. destruct (len row =? W); [now left |].
  destruct (W <? len row).
  - intros H. left. now apply in_slice_to in H.
  - rewrite in_app_iff. intros [H | H]; [now left | right].
    apply in_repeat_str in H. destruct H as [H | []]. now symmetry.
Qed.

Lemma in_slice_1_m1 (c : char) (s : str) : In c (Renderer.slice_1_m1 s) -> In c s.
Proof.
  unfold Renderer.slice_1_m1. intros H.
  assert (Htl : In c (tl s)).
  { revert H. generalize (tl s). intros t. induction t as [| x t IH]; cbn [removelast].
    - tauto.
    - destruct t as [| y t']; [intros [] |].
      intros [H | H]; [now left | right; now apply IH]. }
  destruct s; [exact Htl | now right].
Qed.

Lemma full_block_plain : ~ In newline FULL_BLOCK.
Proof. intros [H | []]. discriminate H. Qed.

Lemma repeat_str_plain (s : str) (n : Z) :
  ~ In newline s -> ~ In newline (repeat_str s n).
Proof. intros Hs H. now apply in_repeat_str in H. Qed.

Ltac in_cases H :=
  repeat match type of H with
         | In _ (_ ++ _) => apply in_app_or in H; destruct H as [H | H]
         | In _ (_ :: _) => destruct H as [H | H]
         | In _ [] => destruct H
         | In _ (lit _) => vm_compute in H
         | In _ FULL_BLOCK => destruct H as [H | H]
         | In _ space => destruct H as [H | H]
         | In _ (repeat_str _ _) => apply in_repeat_str in H
         | In _ (slice_to _ _) => apply in_slice_to in H
         | In _ (ljust _ _) => apply in_ljust in H; destruct H as [H | H]
         | In _ (rjust _ _) => apply in_rjust in H; destruct H as [H | H]
         | In _ (center _ _) => apply in_center in H; destruct H as [H | H]
         | In _ (strip _) => apply in_strip in H
         | In _ (Renderer.slice_1_m1 _) => apply in_slice_1_m1 in H
         | In newline (str_of_int _) => apply str_of_int_plain in H; destruct H
         | _ = _ \/ _ => destruct H as [H | H]
         | False => destruct H
         end;
  try discriminate H.

Lemma packaged_bar_row_plain (upper : str -> str) (W B L_inner vmax : Z)
    (lab : str) (val : Z) (row : str) :
  (forall s, ~ In newline s -> ~ In newline (upper s)) ->
  ~ In newline lab ->
  Renderer.bar_row upper W B L_inner vmax lab val = Ok row ->
  ~ In newline row.
Proof.
  intros Hup Hlab Hrun. unfold Renderer.bar_row in Hrun.
  repeat match type of Hrun with
         | Py.bind ?r _ = _ => destruct r; cbn [Py.bind] in Hrun; [| discriminate Hrun]
         end.
  injection Hrun as <-. intros H.
  apply in_packaged_fit_row in H. destruct H as [H | H]; [| discriminate H].
  in_cases H.
  revert H. apply Hup. destruct (_ && _); intros H; in_cases H; contradiction.
Qed.

Lemma packaged_rows_plain (upper : str -> str) (title : str) (labels : list str)
    (values : list Z) (W B : Z) (lines : list str) :
  (forall s, ~ In newline s -> ~ In newline (upper s)) ->
  ~ In newline title ->
  Forall (fun l => ~ In newline l) labels ->
  Renderer.full_block_lines upper title labels values W B = Ok lines ->
  Forall (fun row => ~ In newline row) lines.
Proof.
  intros Hup Htitle Hlabels Hrun. unfold Renderer.full_block_lines in Hrun.
  destruct (W - (B + 8) <? 4); [discriminate Hrun |].
  match type of Hrun with
  | Py.bind (mapM ?f ?xs) _ = _ => destruct (mapM f xs) as [rows | e] eqn:Erows
  end; cbn [Py.bind] in Hrun; [| discriminate Hrun].
  injection Hrun as <-.
  assert (Hcap : ~ In newline (repeat_str FULL_BLOCK W))
    by (apply repeat_str_plain, full_block_plain).
  cbn [app]. constructor; [exact Hcap |]. constructor.
  - intros H. in_cases H. now apply (Hup title).
  - apply Forall_app. split; [| constructor; [exact Hcap | constructor]].
    refine (mapM_forall_in _ _ _ _ _ Erows).
    intros [lab val] row Hin Hrow. cbn [fst snd] in Hrow.
    apply (packaged_bar_row_plain _ _ _ _ _ _ _ _ Hup) in Hrow; [exact Hrow |].
    apply in_combine_l in Hin. rewrite Forall_forall in Hlabels. now apply Hlabels.
Qed.


Lemma dict_get_plain (d : list (str * str)) (key default : str) :
  Forall (fun kv => ~ In newline (snd kv)) d ->
  ~ In newline default ->
  ~ In newline (dict_get d key default).
Proof.
  intros Hd Hdef. induction Hd as [| [k v] rest Hv _ IH]; cbn [dict_get]; [exact Hdef |].
  destruct (str_eqb k key); [exact Hv | exact IH].
Qed.

Lemma alias_label_plain (label : str) :
  ~ In newline label -> ~ In newline (Aliases.alias_label label).
Proof.
  intros Hlab. unfold Aliases.alias_label.
  destruct (Aliases.dict_has _ _).
  - apply dict_get_plain; [| exact Hlab].
    unfold Aliases.LABEL_ALIASES_CJK.
    repeat (constructor; [cbn [snd]; let H := fresh in intros H; vm_compute in H; intuition discriminate |]); constructor.
  - intros H. apply in_flat_map in H. destruct H as [ch [Hch H]].
    revert H. apply dict_get_plain.
    + unfold Aliases.EMOJI_TO_ASCII.
      repeat (constructor; [cbn [snd]; let H := fresh in intros H; vm_compute in H; intuition discriminate |]); constructor.
    + intros [E | []]. rewrite E in Hch. contradiction.
Qed.

Lemma style_pack_plain (name : str) :
  ~ In newline (Charlib.sp_fill (Charlib.get_style_pack name))
  /\ ~ In newline (Charlib.sp_ruler (Charlib.get_style_pack name)).
Proof.
  unfold Charlib.get_style_pack, Charlib.STYLE_PACKS. cbn [dict_get].
  repeat match goal with
         | |- context [if ?b then _ else _] => destruct b
         end; split; vm_compute; intuition discriminate.
Qed.

Lemma list_set_forall {A : Type} (P : A -> Prop) (x : A) :
  P x -> forall xs i, Forall P xs -> Forall P (list_set xs i x).
Proof.
  intros Hx xs. induction xs as [| y ys IH]; intros i Hall; cbn [list_set];
    [constructor |].
  inversion Hall as [| ? ? Hy Hys]; subst.
  destruct i as [| i]; constructor; auto.
Qed.

Lemma ruler_ticks_plain (width : Z) (tick : str) (tick_positions : list float) :
  ~ In newline tick ->
  forall cols cols',
    Forall (fun c => ~ In newline c) cols ->
    Renderer.ruler_ticks width tick tick_positions cols = Ok cols' ->
    Forall (fun c => ~ In newline c) cols'.
Proof.
  intros Htick. induction tick_positions as [| p rest IH]; intros cols cols' Hcols Hrun;
    cbn [Renderer.ruler_ticks] in Hrun.
  - now injection Hrun as <-.
  - repeat match type of Hrun with
           | Py.bind ?r _ = _ =>
               let E := fresh "E" in
               destruct r eqn:E; cbn [Py.bind] in Hrun; [| discriminate Hrun]
           end.
    refine (IH _ _ _ Hrun).
    match goal with
    | E : set_item _ _ _ = Ok _ |- _ => unfold set_item in E; revert E
    end.
    destruct (_ || _); [discriminate |]. intros Hset. injection Hset as <-.
    now apply list_set_forall.
Qed.

Lemma concat_plain (cols : list str) :
  Forall (fun c => ~ In newline c) cols -> ~ In newline (concat cols).
Proof.
  intros Hall H. apply in_concat in H. destruct H as [c [Hc H]].
  rewrite Forall_forall in Hall. exact (Hall c Hc H).
Qed.

Lemma ruler_plain (width : Z) (tick fill ruler : str) :
  ~ In newline tick -> ~ In newline fill ->
  Renderer._build_horizontal_ruler width Renderer.TICK_POSITIONS tick fill = Ok ruler ->
  ~ In newline ruler.
Proof.
  intros Htick Hfill Hrun. unfold Renderer._build_horizontal_ruler in Hrun.
  destruct (Renderer.ruler_ticks _ _ _ _) as [cols |] eqn:E; cbn [Py.bind] in Hrun;
    [| discriminate Hrun].
  injection Hrun as <-. apply concat_plain.
  refine (ruler_ticks_plain _ _ _ Htick _ _ _ E).
  apply Forall_forall. intros c Hc. apply repeat_spec in Hc. now subst c.
Qed.

Lemma tick_row_plain (width : Z) (ticks : list (float * str)) :
  Forall (fun t => ~ In newline (snd t)) ticks ->
  forall pos_chars tick_row out,
    ~ In newline tick_row ->
    Renderer.tick_row_loop width ticks pos_chars tick_row = Ok out ->
    ~ In newline out.
Proof.
  induction 1 as [| [p lab] rest Hlab _ IH]; intros pos_chars tick_row out Hrow Hrun;
    cbn [Renderer.tick_row_loop] in Hrun.
  - now injection Hrun as <-.
  - repeat match type of Hrun with
           | Py.bind ?r _ = _ => destruct r; cbn [Py.bind] in Hrun; [| discriminate Hrun]
           end.
    refine (IH _ _ _ _ Hrun). cbn [snd] in Hlab.
    intros H. in_cases H; contradiction.
Qed.

Lemma in_enumerate {A : Type} (xs : list A) :
  forall k i x, In (i, x) (enumerate k xs) -> In x xs.
Proof.
  induction xs as [| y ys IH]; intros k i x; cbn [enumerate In]; [tauto |].
  intros [H | H]; [left; congruence | right; exact (IH _ _ _ H)].
Qed.

(** X8. Whenever the compact chart is rendered for a non-empty series
    whose title and labels hold no line feed, the rows of its text are the
    title, the legend (one heading and one entry per label, present
    exactly when a label has CJK or emoji), one bar row per entry and the
    two scale rows (when the scale is shown); every bar row starts with a
    bracket and all bar rows have the same number of characters. *)
Theorem chart_bar_rows_share_one_width (title : str) (series : list (str * float))
    (width : Z) (style_pack : str) (show_scale ascii_only : bool) (text : str) :
  series <> [] ->
  ~ In newline title ->
  Forall (fun lv => ~ In newline (fst lv)) series ->
  Renderer.render_bar_chart_ascii title series width style_pack show_scale ascii_only
  = Ok text ->
  exists (legend bars scale : list str) (w : Z),
    split_rows text = [title] ++ legend ++ bars ++ scale
    /\ length bars = length series
    /\ Forall (fun row => len row = w /\ startswith row (lit "[") = true) bars
    /\ length legend
       = (if Renderer._any_cjk_or_emoji (map fst series) then S (length series) else O)
    /\ length scale = (if show_scale then 2 else 0)%nat.
Proof.
  intros Hne Htitle Hplain Hrun. unfold Renderer.render_bar_chart_ascii in Hrun.
  destruct series as [| [l0 v0] rest]; [contradiction |].
  cbv beta iota zeta in Hrun.
  set (series := (l0, v0) :: rest) in *.
  set (sp := Charlib.get_style_pack (if ascii_only then lit "minimal_ascii" else style_pack)) in *.
  set (labels := map fst series) in *.
  set (values := map snd series) in *.
  set (vmax := max_float v0 (map snd rest)) in *.
  set (total := fold_left fadd values (zf 0)) in *.
  set (resolved :=
         if Renderer._any_cjk_or_emoji labels
         then map (fun il => str_of_int (fst il + 1)) (enumerate 0 labels)
         else map Aliases.alias_label labels) in *.
  set (lcw := Z.max 6 (Renderer.max_of (map len resolved))) in *.
  destruct (mapM Py.trunc values) as [ints | e] eqn:Eints; cbn [Py.bind] in Hrun;
    [| discriminate Hrun].
  set (mvl := Renderer.max_of (map (fun n => len (str_of_int n)) ints)) in *.
  destruct (mapM (Renderer.percent_of total) values) as [percents | e] eqn:Epct;
    cbn [Py.bind] in Hrun; [| discriminate Hrun].
  set (mpl := Renderer.max_of (map (fun n => len (str_of_int n)) percents)) in *.
  match type of Hrun with
  | Py.bind (mapM ?f ?xs) _ = _ =>
      set (row_of := f) in *; destruct (mapM row_of xs) as [bars | e] eqn:Ebars
  end; cbn [Py.bind] in Hrun; [| discriminate Hrun].
  match type of Hrun with
  | Py.bind ?sc _ = _ => destruct sc as [scale | e] eqn:Escale
  end; cbn [Py.bind] in Hrun; [| discriminate Hrun].
  match type of Hrun with
  | Ok (join _ ([title] ++ ?lg ++ bars ++ scale)) = _ => set (legend := lg) in *
  end.
  assert (Htext : text = join [newline] ([title] ++ legend ++ bars ++ scale))
    by congruence.
  clear Hrun.
  exists legend, bars, scale, (lcw + 2 + 1 + Z.max 0 width + 1 + (mvl + 2 + mpl + 2)).
  assert (Hlabels : length labels = length series) by (subst labels; apply length_map).
  assert (Hvalues : length values = length series) by (subst values; apply length_map).
  assert (Hresolved : length resolved = length series).
  { subst resolved. destruct (Renderer._any_cjk_or_emoji labels).
    - rewrite length_map.
      assert (He : forall (xs : list str) k, length (enumerate k xs) = length xs).
      { induction xs as [| x xs IH]; intros k; cbn; [reflexivity | now rewrite IH]. }
      now rewrite He.
    - now rewrite length_map. }
  assert (Hints : length ints = length series)
    by (rewrite (mapM_length _ _ _ Eints); exact Hvalues).
  assert (Hpct : length percents = length series)
    by (rewrite (mapM_length _ _ _ Epct); exact Hvalues).
  assert (Hlabels_plain : Forall (fun l => ~ In newline l) labels).
  { subst labels. apply Forall_forall. intros l Hl. apply in_map_iff in Hl.
    destruct Hl as [lv [<- Hlv]]. rewrite Forall_forall in Hplain. now apply Hplain. }
  assert (Hresolved_plain : Forall (fun l => ~ In newline l) resolved).
  { subst resolved. apply Forall_forall. intros l Hl.
    destruct (Renderer._any_cjk_or_emoji labels).
    - apply in_map_iff in Hl. destruct Hl as [il [<- _]]. apply str_of_int_plain.
    - apply in_map_iff in Hl. destruct Hl as [l0' [<- Hl0]].
      apply alias_label_plain. rewrite Forall_forall in Hlabels_plain.
      now apply Hlabels_plain. }
  destruct (style_pack_plain (if ascii_only then lit "minimal_ascii" else style_pack))
    as [Hfill Hruler].
  fold sp in Hfill, Hruler.
  split.
  { rewrite Htext. apply split_rows_join; [discriminate |].
    apply Forall_app. split; [constructor; [exact Htitle | constructor] |].
    apply Forall_app. split; [| apply Forall_app; split].
    - subst legend. destruct (Renderer._any_cjk_or_emoji labels); [| constructor].
      constructor; [intros H; in_cases H |].
      apply Forall_forall. intros line Hline. apply in_map_iff in Hline.
      destruct Hline as [[i l] [<- Hil]]. cbn [fst snd].
      apply in_enumerate in Hil. rewrite Forall_forall in Hlabels_plain.
      pose proof (Hlabels_plain l Hil) as Hl.
      intros H. in_cases H. now apply alias_label_plain in H.
    - refine (mapM_forall_in _ _ _ _ bars Ebars).
      intros [[[shown v] n_int] pct] row Hin Hrow.
      apply in_combine_l in Hin. apply in_combine_l in Hin. apply in_combine_l in Hin.
      rewrite Forall_forall in Hresolved_plain.
      pose proof (Hresolved_plain shown Hin) as Hshown.
      subst row_of. cbv beta iota in Hrow.
      destruct (Renderer._scale_bar_len v vmax width) as [n | e];
        cbn [Py.bind] in Hrow; [| discriminate Hrow].
      injection Hrow as <-. intros H. in_cases H; contradiction.
    - destruct show_scale; [| injection Escale as <-; constructor].
      destruct (Renderer._build_horizontal_ruler width Renderer.TICK_POSITIONS
                  (Charlib.sp_ruler sp) (lit "-")) as [ruler | e] eqn:Eruler;
        cbn [Py.bind] in Escale; [| discriminate Escale].
      destruct (mapM (fun p => Renderer._round_half_up (fmul p vmax))
                  Renderer.TICK_POSITIONS) as [tick_ints | e];
        cbn [Py.bind] in Escale; [| discriminate Escale].
      match type of Escale with
      | Py.bind ?r _ = _ => destruct r as [tick_row | e] eqn:Etick
      end; cbn [Py.bind] in Escale; [| discriminate Escale].
      injection Escale as <-.
      assert (Hr : ~ In newline ruler).
      { refine (ruler_plain _ _ _ _ Hruler _ Eruler). intros H. in_cases H. }
      constructor; [intros H; in_cases H; contradiction |].
      constructor; [| constructor].
      refine (tick_row_plain _ _ _ _ _ _ _ Etick).
      + apply Forall_forall. intros [p lab] Hp. apply in_combine_r in Hp.
        apply in_map_iff in Hp. destruct Hp as [k [<- _]]. apply str_of_int_plain.
      + intros H. in_cases H. }
  split.
  { pose proof (mapM_length _ _ _ Ebars) as Hb. rewrite !length_combine in Hb.
    unfold str, char in *. lia. }
  split.
  { refine (mapM_forall_in _ _ _ _ bars Ebars).
    intros [[[shown v] n_int] pct] row Hin Hrow.
    pose proof (in_combine_r _ _ _ _ Hin) as Hinp.
    apply in_combine_l in Hin.
    pose proof (in_combine_r _ _ _ _ Hin) as Hini.
    apply in_combine_l in Hin. apply in_combine_l in Hin.
    subst row_of. cbv beta iota in Hrow.
    destruct (Renderer._scale_bar_len v vmax width) as [n | e] eqn:En;
      cbn [Py.bind] in Hrow; [| discriminate Hrow].
    injection Hrow as <-.
    pose proof (scale_bar_len_clamped _ _ _ _ En) as Hn.
    destruct (style_pack_fill_one (if ascii_only then lit "minimal_ascii" else style_pack))
      as [c Hc].
    fold sp in Hc. rewrite Hc.
    assert (Hshown : len shown <= lcw).
    { subst lcw. pose proof (max_of_ge (map len resolved) (len shown) (in_map len _ _ Hin)).
      lia. }
    assert (Hni : len (str_of_int n_int) <= mvl).
    { subst mvl. apply max_of_ge.
      exact (in_map (fun n => len (str_of_int n)) _ _ Hini). }
    assert (Hnp : len (str_of_int pct) <= mpl).
    { subst mpl. apply max_of_ge.
      exact (in_map (fun n => len (str_of_int n)) _ _ Hinp). }
    split; [| change (lit "[") with [91%N]; cbn [app startswith];
               rewrite N.eqb_refl; apply startswith_nil].
    repeat first [rewrite len_cons | rewrite len_app].
    rewrite ljust_len, !rjust_len, repeat_str_len.
    change (lit " ") with space. rewrite repeat_space_len.
    change (len (lit "]")) with 1. change (len (lit "%)")) with 2. lia. }
  split.
  { subst legend. destruct (Renderer._any_cjk_or_emoji labels); [| reflexivity].
    cbn [length]. rewrite length_map.
    assert (He : forall (xs : list str) k, length (enumerate k xs) = length xs).
    { induction xs as [| x xs IH]; intros k; cbn; [reflexivity | now rewrite IH]. }
    now rewrite He, Hlabels. }
  { destruct show_scale.
    - repeat match type of Escale with
             | Py.bind ?r _ = _ => destruct r; cbn [Py.bind] in Escale; [| discriminate Escale]
             end.
      now injection Escale as <-.
    - now injection Escale as <-. }
Qed.


Lemma chart_bar_rows_share_one_width_witness :
  exists text,
    Renderer.render_bar_chart_ascii (lit "Load")
      [([0x6E29; 0x5EA6]%N, zf 40); (lit "B", zf 5); (lit "C", zf 20)] 20
      (lit "bold_unicode") true false = Ok text
    /\ map len (split_rows text) = [4; 7; 9; 6; 6; 38; 38; 38; 29; 29]
    /\ exists (legend bars scale : list str) (w : Z),
         split_rows text = [lit "Load"] ++ legend ++ bars ++ scale
         /\ length bars = 3%nat
         /\ Forall (fun row => len row = w /\ startswith row (lit "[") = true) bars
         /\ length legend = 4%nat
         /\ length scale = 2%nat.
Proof.
  eexists. split; [vm_compute; reflexivity |].
  split; [vm_compute; reflexivity |].
  apply (chart_bar_rows_share_one_width (lit "Load")
           [([0x6E29; 0x5EA6]%N, zf 40); (lit "B", zf 5); (lit "C", zf 20)] 20
           (lit "bold_unicode") true false).
  - discriminate.
  - vm_compute. intuition discriminate.
  - repeat constructor; vm_compute; intuition discriminate.
  - vm_compute. reflexivity.
Defined.

(** ** The ruler of the compact chart *)

Lemma first_tick_zero (w : float) (r : Z) :
  Renderer._round_half_up (fmul (zf 0) w) = Ok r -> r = 0.
Proof.
  unfold Renderer._round_half_up.
  destruct w as [s | s | | s m e]; vm_compute; congruence.
Qed.

Lemma ruler_needs_a_cell (width : Z) (tick fill : str) :
  width <= 0 ->
  exists e, Renderer._build_horizontal_ruler width Renderer.TICK_POSITIONS tick fill
            = Raise e.
Proof.
  intros Hw. unfold Renderer._build_horizontal_ruler, Renderer.TICK_POSITIONS.
  cbn [Renderer.ruler_ticks].
  destruct (float_of_int width) as [w | e]; cbn [Py.bind]; [| now exists e].
  destruct (Renderer._round_half_up (fmul (zf 0) w)) as [r | e] eqn:Er;
    cbn [Py.bind]; [| now exists e].
  apply first_tick_zero in Er. subst r.
  replace (Z.to_nat width) with 0%nat by lia. cbn [repeat].
  unfold set_item. change (len (@nil str)) with 0.
  replace (Z.min (width - 1) (Z.max 0 0)) with (width - 1) by lia.
  replace (width - 1 <? 0) with true by (symmetry; apply Z.ltb_lt; lia).
  replace (width - 1 + 0 <? 0) with true by (symmetry; apply Z.ltb_lt; lia).
  cbn. now exists IndexError.
Qed.

(** X9. With the scale shown, the compact chart cannot be rendered at a
    width of zero or less: for a non-empty series the call raises; the
    ruler itself raises [IndexError] at width 0, where it has no cell to
    put a tick in. *)
Theorem chart_scale_needs_a_positive_width (title : str) (series : list (str * float))
    (width : Z) (style_pack : str) (ascii_only : bool) :
  series <> [] -> width <= 0 ->
  (exists e,
     Renderer.render_bar_chart_ascii title series width style_pack true ascii_only
     = Raise e)
  /\ forall tick fill,
       Renderer._build_horizontal_ruler 0 Renderer.TICK_POSITIONS tick fill
       = Raise IndexError.
Proof.
  intros Hne Hw. split; [| intros tick fill; vm_compute; reflexivity].
  unfold Renderer.render_bar_chart_ascii.
  destruct series as [| [l0 v0] rest]; [contradiction |].
  cbv beta iota zeta.
  repeat match goal with
         | |- exists e, Py.bind (mapM ?f ?xs) _ = Raise e =>
             destruct (mapM f xs) as [? | e0]; cbn [Py.bind]; [| now exists e0]
         end.
  destruct (ruler_needs_a_cell width
              (Charlib.sp_ruler
                 (Charlib.get_style_pack
                    (if ascii_only then lit "minimal_ascii" else style_pack)))
              (lit "-") Hw) as [e He].
  rewrite He. cbn [Py.bind]. now exists e.
Qed.

Lemma chart_scale_needs_a_positive_width_witness :
  (exists e,
     Renderer.render_bar_chart_ascii (lit "T") [(lit "A", zf 1)] 0
       (lit "bold_unicode") true false = Raise e)
  /\ forall tick fill,
       Renderer._build_horizontal_ruler 0 Renderer.TICK_POSITIONS tick fill
       = Raise IndexError.
Proof.
  apply (chart_scale_needs_a_positive_width (lit "T") [(lit "A", zf 1)] 0
           (lit "bold_unicode") false).
  - discriminate.
  - lia.
Defined.

(** ** The full-block band *)

(** X10. In the packaged full-block renderer, for a width that is not
    negative, an upper-cased title of at most [total_width - 2] characters
    and a title and labels without a line feed (which [upper] does not
    introduce), a block that is returned for labels and values of the same
    non-zero length has [3 + len(labels)] rows, each of exactly
    [total_width] characters, the first and the last made of full blocks,
    and the label field [total_width - (bar_width + 8)] is at least 4. *)
Theorem packaged_block_is_exact_for_a_short_title (upper : str -> str) (title : str)
    (labels : list str) (values : list Z) (W B : Z) (text : str) :
  labels <> [] -> length labels = length values ->
  0 <= W -> len (upper title) <= W - 2 ->
  (forall s, ~ In newline s -> ~ In newline (upper s)) ->
  ~ In newline title -> Forall (fun l => ~ In newline l) labels ->
  Renderer.render_swiss_full_block_bar upper title labels values W B = Ok text ->
  4 <= W - (B + 8)
  /\ length (split_rows text) = (3 + length labels)%nat
  /\ Forall (fun row => len row = W) (split_rows text)
  /\ hd [] (split_rows text) = repeat_str FULL_BLOCK W
  /\ last (split_rows text) [] = repeat_str FULL_BLOCK W.
Proof.
  intros Hne Hlen HW Htitle Hup Hplain Hlabels Hrun.
  unfold Renderer.render_swiss_full_block_bar in Hrun.
  destruct labels as [| l ls]; [contradiction |].
  destruct values as [| v vs]; [discriminate Hlen |].
  replace (len (l :: ls) =? len (v :: vs)) with true in Hrun
    by (symmetry; apply Z.eqb_eq; unfold len; now rewrite Hlen).
  cbn [negb] in Hrun.
  destruct (Renderer.full_block_lines upper title (l :: ls) (v :: vs) W B)
    as [lines | e] eqn:Elines; cbn [Py.bind] in Hrun; [| discriminate Hrun].
  injection Hrun as <-.
  split.
  { unfold Renderer.full_block_lines in Elines.
    destruct (W - (B + 8) <? 4) eqn:E; [discriminate Elines | apply Z.ltb_ge in E; lia]. }
  pose proof (packaged_rows_plain upper title _ _ W B lines Hup Hplain Hlabels Elines)
    as Hrows_plain.
  destruct (packaged_rows_width upper title _ _ W B lines HW Elines)
    as (title_row & rows & -> & Hcap & Hrows & Htr).
  rewrite split_rows_join by (exact Hrows_plain || discriminate).
  split; [| split; [| split]].
  - unfold Renderer.full_block_lines in Elines.
    destruct (W - (B + 8) <? 4); [discriminate Elines |].
    match type of Elines with
    | Py.bind (mapM ?f ?xs) _ = _ => destruct (mapM f xs) as [rows' | e] eqn:Erows
    end; cbn [Py.bind] in Elines; [| discriminate Elines].
    injection Elines as Ht Hr. apply app_inv_tail in Hr. subst rows'.
    apply mapM_length in Erows. rewrite length_combine in Erows.
    cbn [length] in *. rewrite length_app. cbn [length]. lia.
  - constructor; [exact Hcap |]. constructor; [lia |].
    apply Forall_app. split; [exact Hrows | constructor; [exact Hcap | constructor]].
  - reflexivity.
  - change (repeat_str FULL_BLOCK W :: title_row :: rows ++ [repeat_str FULL_BLOCK W])
      with ((repeat_str FULL_BLOCK W :: title_row :: rows) ++ [repeat_str FULL_BLOCK W]).
    apply last_last.
Qed.

Lemma upper_keeps_lines (s : str) :
  ~ In newline s -> ~ In newline (Renderer.ascii_upper s).
Proof.
  unfold Renderer.ascii_upper. intros Hs H. apply in_map_iff in H.
  destruct H as [c [Hc Hin]].
  destruct ((97 <=? c)%N && (c <=? 122)%N) eqn:E.
  - apply andb_prop in E. destruct E as [E1 E2].
    apply N.leb_le in E1. unfold newline in Hc. lia.
  - subst c. contradiction.
Qed.

Lemma packaged_block_is_exact_for_a_short_title_witness :
  exists text,
    Renderer.render_swiss_full_block_bar Renderer.ascii_upper (lit "Sales")
      [lit "NORTH"; lit "[south]"; lit "EAST AND WEST"] [45; 7; 120] 30 8 = Ok text
    /\ 4 <= 30 - (8 + 8)
    /\ length (split_rows text) = 6%nat
    /\ Forall (fun row => len row = 30) (split_rows text)
    /\ hd [] (split_rows text) = repeat_str FULL_BLOCK 30
    /\ last (split_rows text) [] = repeat_str FULL_BLOCK 30.
Proof.
  eexists. split; [vm_compute; reflexivity |].
  apply (packaged_block_is_exact_for_a_short_title Renderer.ascii_upper (lit "Sales")
           [lit "NORTH"; lit "[south]"; lit "EAST AND WEST"] [45; 7; 120] 30 8).
  - discriminate.
  - reflexivity.
  - lia.
  - vm_compute. discriminate.
  - exact upper_keeps_lines.
  - vm_compute. intuition discriminate.
  - repeat constructor; vm_compute; intuition discriminate.
  - vm_compute. reflexivity.
Defined.


Lemma in_legacy_fit_row (c : char) (W : Z) (row : str) :
  In c (Legacy.fit_row W row) -> In c row \/ c = 32%N.
Proof. exact (in_packaged_fit_row c W row). Qed.

Lemma legacy_data_row_plain (L B V W : Z) (vmax : float) (label : str) (val : float)
    (row : str) :
  ~ In newline label ->
  Legacy.data_row L B V W vmax label val = Ok row ->
  ~ In newline row.
Proof.
  intros Hlab Hrun. unfold Legacy.data_row in Hrun.
  repeat match type of Hrun with
         | Py.bind ?r _ = _ => destruct r; cbn [Py.bind] in Hrun; [| discriminate Hrun]
         end.
  injection Hrun as <-. intros H.
  apply in_legacy_fit_row in H. destruct H as [H | H]; [| discriminate H].
  unfold Legacy.bracketed in H.
  in_cases H; try contradiction.
  destruct (_ <? L); in_cases H; contradiction.
Qed.

Lemma legacy_title_row_plain (title : str) (W : Z) :
  ~ In newline title -> ~ In newline (Legacy.title_row title W).
Proof.
  intros Htitle H. unfold Legacy.title_row in H. cbv zeta in H.
  in_cases H.
  destruct (W - 2 <? _); in_cases H; contradiction.
Qed.

Lemma legacy_rows_plain (title : str) (labels : list str) (values : list float)
    (W : Z) (bar_width : option Z) (lines : list str) :
  ~ In newline title ->
  Forall (fun l => ~ In newline l) labels ->
  Legacy.full_block_lines title labels values W bar_width = Ok lines ->
  Forall (fun row => ~ In newline row) lines.
Proof.
  intros Htitle Hlabels Hrun. unfold Legacy.full_block_lines in Hrun.
  destruct (Legacy._prepare_swiss_fields labels values W bar_width)
    as [[[[L B] V] W'] | e]; cbn [Py.bind] in Hrun; [| discriminate Hrun].
  match type of Hrun with
  | Py.bind (mapM ?f ?xs) _ = _ => destruct (mapM f xs) as [rows | e] eqn:Erows
  end; cbn [Py.bind] in Hrun; [| discriminate Hrun].
  injection Hrun as <-.
  assert (Hband : ~ In newline (repeat_str FULL_BLOCK W'))
    by (apply repeat_str_plain, full_block_plain).
  cbn [app]. constructor; [exact Hband |].
  constructor; [now apply legacy_title_row_plain |].
  constructor; [exact Hband |].
  apply Forall_app. split; [| constructor; [exact Hband | constructor]].
  refine (mapM_forall_in _ _ _ _ _ Erows).
  intros [lab val] row Hin Hrow. cbn [fst snd] in Hrow.
  apply legacy_data_row_plain in Hrow; [exact Hrow |].
  apply in_combine_l in Hin. rewrite Forall_forall in Hlabels. now apply Hlabels.
Qed.

(** X11. In the legacy full-block renderer, for a width of at least 2
    and a title and labels without a line feed, a block that is returned
    for a non-empty label list has [4 + len(labels)] rows, each of exactly
    [total_width] characters, the title row included; the labels and the
    values then have the same length. *)
Theorem legacy_block_rows_are_exact (title : str) (labels : list str)
    (values : list float) (W : Z) (bar_width : option Z) (text : str) :
  labels <> [] -> 2 <= W ->
  ~ In newline title -> Forall (fun l => ~ In newline l) labels ->
  Legacy.render_swiss_full_block_bar title labels values W bar_width = Ok text ->
  length labels = length values
  /\ length (split_rows text) = (4 + length labels)%nat
  /\ Forall (fun row => len row = W) (split_rows text).
Proof.
  intros Hne HW Htitle Hlabels Hrun. unfold Legacy.render_swiss_full_block_bar in Hrun.
  destruct (len labels =? len values) eqn:Elen; cbn [negb] in Hrun;
    [| discriminate Hrun].
  apply Z.eqb_eq in Elen. unfold len in Elen. apply Nat2Z.inj in Elen.
  split; [exact Elen |].
  destruct labels as [| l ls]; [contradiction |].
  destruct (Legacy.full_block_lines title (l :: ls) values W bar_width)
    as [lines | e] eqn:Elines; cbn [Py.bind] in Hrun; [| discriminate Hrun].
  injection Hrun as <-.
  pose proof (legacy_rows_plain title _ values W bar_width lines Htitle Hlabels Elines)
    as Hplain.
  pose proof (legacy_rows_width title (l :: ls) values W bar_width lines HW Elines)
    as Hwidth.
  assert (Hlen : length lines = (4 + length (l :: ls))%nat).
  { unfold Legacy.full_block_lines in Elines.
    destruct (Legacy._prepare_swiss_fields (l :: ls) values W bar_width)
      as [[[[L B] V] W'] | e]; cbn [Py.bind] in Elines; [| discriminate Elines].
    match type of Elines with
    | Py.bind (mapM ?f ?xs) _ = _ => destruct (mapM f xs) as [rows | e] eqn:Erows
    end; cbn [Py.bind] in Elines; [| discriminate Elines].
    injection Elines as <-.
    apply mapM_length in Erows. rewrite length_combine in Erows.
    cbn [length app] in *. rewrite length_app. cbn [length]. lia. }
  rewrite split_rows_join; [now split | | exact Hplain].
  intros ->. discriminate Hlen.
Qed.

Lemma legacy_block_rows_are_exact_witness :
  exists text,
    Legacy.render_swiss_full_block_bar (lit "A TITLE LONGER THAN THE BLOCK")
      [lit "ABCDEFGH"; lit "B"; lit "C D"] [zf 5; zf 120; dec 5 2] 24 (Some 35) = Ok text
    /\ length [lit "ABCDEFGH"; lit "B"; lit "C D"] = length [zf 5; zf 120; dec 5 2]
    /\ length (split_rows text) = 7%nat
    /\ Forall (fun row => len row = 24) (split_rows text).
Proof.
  eexists. split; [vm_compute; reflexivity |].
  apply (legacy_block_rows_are_exact (lit "A TITLE LONGER THAN THE BLOCK")
           [lit "ABCDEFGH"; lit "B"; lit "C D"] [zf 5; zf 120; dec 5 2] 24 (Some 35)).
  - discriminate.
  - lia.
  - vm_compute. intuition discriminate.
  - repeat constructor; vm_compute; intuition discriminate.
  - vm_compute. reflexivity.
Defined.

Lemma str_eqb_eq (a b : str) : str_eqb a b = true -> a = b.
Proof. unfold str_eqb. destruct (list_eq_dec N.eq_dec a b); [auto | discriminate]. Qed.

Lemma str_eqb_refl (a : str) : str_eqb a a = true.
Proof. unfold str_eqb. destruct (list_eq_dec N.eq_dec a a); [reflexivity | contradiction]. Qed.

(** ** Labels without CJK or emoji *)

Lemma alias_chars_unchanged (label : str) :
  existsb Aliases.is_emoji label = false ->
  flat_map (fun ch => dict_get Aliases.EMOJI_TO_ASCII [ch] [ch]) label = label.
Proof.
  induction label as [| ch rest IH]; intros Hno; [reflexivity |].
  cbn [existsb] in Hno. apply orb_false_iff in Hno. destruct Hno as [Hch Hrest].
  cbn [flat_map]. rewrite (IH Hrest).
  replace (dict_get Aliases.EMOJI_TO_ASCII [ch] [ch]) with [ch]; [reflexivity |].
  unfold Aliases.EMOJI_TO_ASCII. cbn [dict_get].
  repeat match goal with
         | |- context [str_eqb ?k [ch]] =>
             let E := fresh "E" in
             destruct (str_eqb k [ch]) eqn:E;
             [apply str_eqb_eq in E; try discriminate E;
              injection E as <-; vm_compute in Hch; discriminate Hch |]
         end.
  reflexivity.
Qed.

(** X12. [alias_label] leaves a label without CJK or emoji characters
    unchanged; so on the path of the compact chart that shows aliased
    labels, taken when no label has such a character, the labels are shown
    as given. *)
Theorem alias_label_keeps_plain_labels (label : str) (labels : list str) :
  (Aliases.contains_cjk_or_emoji label = false -> Aliases.alias_label label = label)
  /\ (Renderer._any_cjk_or_emoji labels = false ->
      map Aliases.alias_label labels = labels).
Proof.
  assert (Hone : forall l, Aliases.contains_cjk_or_emoji l = false ->
                           Aliases.alias_label l = l).
  { intros l Hno. unfold Aliases.contains_cjk_or_emoji in Hno.
    apply orb_false_iff in Hno. destruct Hno as [Hcjk Hemoji].
    unfold Aliases.alias_label.
    replace (Aliases.dict_has Aliases.LABEL_ALIASES_CJK l) with false;
      [now apply alias_chars_unchanged |].
    symmetry. unfold Aliases.dict_has, Aliases.LABEL_ALIASES_CJK. cbn [existsb fst].
    repeat match goal with
           | |- context [str_eqb ?k l] =>
               let E := fresh "E" in
               destruct (str_eqb k l) eqn:E;
               [apply str_eqb_eq in E; subst l; vm_compute in Hcjk; discriminate Hcjk |]
           end.
    reflexivity. }
  split; [apply Hone |].
  induction labels as [| l ls IH]; intros Hno; [reflexivity |].
  unfold Renderer._any_cjk_or_emoji in *. cbn [existsb] in Hno.
  apply orb_false_iff in Hno. destruct Hno as [Hl Hls].
  cbn [map]. now rewrite (Hone l Hl), (IH Hls).
Qed.

Lemma alias_label_keeps_plain_labels_witness :
  Aliases.alias_label (lit "CACHE") = lit "CACHE"
  /\ map Aliases.alias_label [lit "API"; lit "DB"] = [lit "API"; lit "DB"].
Proof.
  split.
  - apply (proj1 (alias_label_keeps_plain_labels (lit "CACHE") [])). reflexivity.
  - apply (proj2 (alias_label_keeps_plain_labels [] [lit "API"; lit "DB"])). reflexivity.
Defined.

Lemma unit_symbol_cases (unit : str) :
  Aliases.unit_symbol unit = unit
  \/ In (Aliases.unit_symbol unit)
       (lit "%" :: flat_map (fun t => map snd (snd t)) Aliases.UNIT_ALIASES).
Proof.
  unfold Aliases.unit_symbol.
  destruct (str_eqb unit (lit "%")) eqn:Epct; [right; now left |].
  unfold Aliases.unit_loop, Aliases.UNIT_ALIASES.
  cbn [dict_get Aliases.dict_has existsb fst].
  change (str_eqb (lit "currency") (lit "currency")) with true.
  change (str_eqb (lit "currency") (lit "metric")) with false.
  change (str_eqb (lit "currency") (lit "data")) with false.
  change (str_eqb (lit "metric") (lit "metric")) with true.
  change (str_eqb (lit "metric") (lit "data")) with false.
  change (str_eqb (lit "data") (lit "data")) with true.
  cbv iota. cbn [dict_get Aliases.dict_has existsb fst orb].
  repeat match goal with
         | |- context [str_eqb ?k unit] =>
             let E := fresh "E" in
             destruct (str_eqb k unit) eqn:E;
             [right; cbn; tauto |]
         end.
  now left.
Qed.

(** X13. [unit_symbol] is idempotent: the symbol or name it returns for
    a unit is returned unchanged when looked up again. *)
Theorem unit_symbol_is_idempotent (unit : str) :
  Aliases.unit_symbol (Aliases.unit_symbol unit)
  = Aliases.unit_symbol unit.
Proof.
  destruct (unit_symbol_cases unit) as [H | H].
  - now rewrite !H.
  - revert H. generalize (Aliases.unit_symbol unit). intros v Hv.
    cbn in Hv.
    repeat (destruct Hv as [<- | Hv]; [vm_compute; reflexivity |]).
    contradiction.
Qed.

(** ** Decimal alignment *)

Lemma span_spec (p : char -> bool) (s : str) :
  s = fst (Numbers.span p s) ++ snd (Numbers.span p s)
  /\ forallb p (fst (Numbers.span p s)) = true
  /\ match snd (Numbers.span p s) with
     | c :: _ => p c = false
     | [] => True
     end.
Proof.
  induction s as [| c rest IH]; cbn [Numbers.span]; [repeat split |].
  destruct (p c) eqn:Epc.
  - destruct (Numbers.span p rest) as [a b]. cbn [fst snd] in *.
    destruct IH as (IH1 & IH2 & IH3).
    split; [cbn [app]; now rewrite <- IH1 |].
    split; [cbn [forallb]; now rewrite Epc, IH2 | exact IH3].
  - cbn [fst snd app forallb]. repeat split. exact Epc.
Qed.

Lemma forallb_no_content (p : char -> bool) (s : str) :
  (forall c, p c = true -> is_content c = false) ->
  forallb p s = true -> existsb is_content s = false.
Proof.
  intros Hp. induction s as [| c rest IH]; intros Hall; [reflexivity |].
  cbn [forallb] in Hall. apply andb_prop in Hall. destruct Hall as [Hc Hrest].
  cbn [existsb]. now rewrite (Hp c Hc), (IH Hrest).
Qed.

Lemma forallb_no_dot (p : char -> bool) (s : str) :
  p 46%N = false -> forallb p s = true -> existsb (N.eqb 46) s = false.
Proof.
  intros Hp. induction s as [| c rest IH]; intros Hall; [reflexivity |].
  cbn [forallb] in Hall. apply andb_prop in Hall. destruct Hall as [Hc Hrest].
  cbn [existsb]. rewrite (IH Hrest).
  destruct (N.eqb_spec 46 c) as [<- | _]; [congruence | reflexivity].
Qed.

Lemma forallb_weaken {A : Type} (f g : A -> bool) (s : list A) :
  (forall c, f c = true -> g c = true) -> forallb f s = true -> forallb g s = true.
Proof.
  intros Hfg. induction s as [| c rest IH]; intros Hall; [reflexivity |].
  cbn [forallb] in *. apply andb_prop in Hall. destruct Hall as [Hc Hrest].
  now rewrite (Hfg c Hc), (IH Hrest).
Qed.

Lemma existsb_rev {A : Type} (f : A -> bool) (s : list A) :
  existsb f (rev s) = existsb f s.
Proof.
  induction s as [| c rest IH]; [reflexivity |].
  cbn [rev existsb]. rewrite existsb_app, IH. cbn [existsb].
  destruct (f c), (existsb f rest); reflexivity.
Qed.

Lemma forallb_rev {A : Type} (f : A -> bool) (s : list A) :
  forallb f (rev s) = forallb f s.
Proof.
  induction s as [| c rest IH]; [reflexivity |].
  cbn [rev forallb]. rewrite forallb_app, IH. cbn [forallb].
  destruct (f c), (forallb f rest); reflexivity.
Qed.

Lemma prefix_of_spec (t : str) :
  exists rest, t = prefix_of t ++ rest /\ forallb edge_char (prefix_of t) = true.
Proof.
  unfold prefix_of.
  pose proof (span_spec Numbers.is_prefix_char t) as (H1 & H2 & _).
  destruct (Numbers.span Numbers.is_prefix_char t) as [syms rest]. cbn [fst snd] in *.
  pose proof (span_spec isspace rest) as (H3 & H4 & _).
  destruct (Numbers.span isspace rest) as [ws rest']. cbn [fst snd] in *.
  exists rest'. split; [now rewrite <- app_assoc, <- H3 |].
  rewrite forallb_app. apply andb_true_intro. split.
  - apply (forallb_weaken Numbers.is_prefix_char); [| exact H2].
    intros c Hc. unfold edge_char. now rewrite Hc.
  - apply (forallb_weaken isspace); [| exact H4].
    intros c Hc. unfold edge_char. rewrite Hc. now rewrite !orb_true_r.
Qed.

Lemma suffix_of_spec (t : str) :
  exists body, t = body ++ suffix_of t /\ forallb edge_char (suffix_of t) = true.
Proof.
  unfold suffix_of.
  pose proof (span_spec Numbers.is_suffix_char (rev t)) as (H1 & H2 & _).
  destruct (Numbers.span Numbers.is_suffix_char (rev t)) as [closers before].
  cbn [fst snd] in *.
  assert (Ht : t = rev before ++ rev closers).
  { rewrite <- rev_app_distr, <- H1. now rewrite rev_involutive. }
  destruct closers as [| c0 cs].
  - exists t. split; [now rewrite app_nil_r | reflexivity].
  - pose proof (span_spec isspace before) as (H3 & H4 & _).
    destruct (Numbers.span isspace before) as [gap before']. cbn [fst snd] in *.
    exists (rev before'). split.
    + rewrite Ht, H3 at 1. rewrite !rev_app_distr. now rewrite app_assoc.
    + rewrite forallb_rev, forallb_app. apply andb_true_intro. split.
      * apply (forallb_weaken Numbers.is_suffix_char); [| exact H2].
        intros c Hc. unfold edge_char. rewrite Hc. now rewrite orb_true_r.
      * apply (forallb_weaken isspace); [| exact H4].
        intros c Hc. unfold edge_char. rewrite Hc. now rewrite !orb_true_r.
Qed.

Lemma split_decimal_unfold (text : str) :
  strip text <> [] ->
  Numbers.split_decimal_for_align text
  = let t := strip text in
    let numeric_part :=
      skipn (length (prefix_of t)) (firstn (length t - length (suffix_of t)) t) in
    if existsb (N.eqb 46) numeric_part then
      let '(ipart, fpart) := Numbers.span (fun c => negb (c =? 46)%N) numeric_part in
      (prefix_of t, ipart, tl fpart ++ suffix_of t)
    else (prefix_of t, numeric_part, suffix_of t).
Proof.
  intros Hne. unfold Numbers.split_decimal_for_align, prefix_of, suffix_of.
  destruct (strip text) as [| c0 t0] eqn:Et; [contradiction |].
  cbv zeta.
  destruct (Numbers.span Numbers.is_prefix_char (c0 :: t0)) as [syms rest].
  destruct (Numbers.span isspace rest) as [ws rest'].
  destruct (Numbers.span Numbers.is_suffix_char (rev (c0 :: t0))) as [closers before].
  destruct closers as [| c1 cs]; [reflexivity |].
  destruct (Numbers.span isspace before) as [gap before']. reflexivity.
Qed.

Lemma edge_no_content (s : str) :
  forallb edge_char s = true -> existsb is_content s = false.
Proof.
  apply forallb_no_content. intros c Hc. unfold is_content. fold (edge_char c).
  now rewrite Hc.
Qed.

Lemma edge_no_dot (s : str) :
  forallb edge_char s = true -> existsb (N.eqb 46) s = false.
Proof. apply forallb_no_dot. reflexivity. Qed.

Lemma slice_mid {A : Type} (p m s : list A) :
  skipn (length p) (firstn (length (p ++ m ++ s) - length s) (p ++ m ++ s)) = m.
Proof.
  rewrite !length_app.
  replace (length p + (length m + length s) - length s)%nat
    with (length (p ++ m) + 0)%nat by (rewrite length_app; lia).
  rewrite app_assoc, firstn_app_2. cbn [firstn]. rewrite app_nil_r.
  rewrite skipn_app, skipn_all, Nat.sub_diag. reflexivity.
Qed.

(** X14. When the stripped text has a character that is neither a sign or
    currency symbol, nor a percent sign or closing parenthesis, nor
    whitespace, the three parts of [split_decimal_for_align] put the text
    together again: prefix, integer part, the decimal point if the text has
    one, and the rest; and the integer part holds no decimal point. *)
Theorem split_decimal_reassembles (text : str) :
  existsb is_content (strip text) = true ->
  let '(prefix, ipart, fpart) := Numbers.split_decimal_for_align text in
  existsb (N.eqb 46) ipart = false
  /\ prefix ++ ipart
        ++ (if existsb (N.eqb 46) (strip text) then [46%N] else [])
        ++ fpart
     = strip text.
Proof.
  intros Hcontent.
  assert (Hne : strip text <> []) by (intros E; rewrite E in Hcontent; discriminate).
  rewrite (split_decimal_unfold text Hne). cbv zeta.
  set (t := strip text) in *.
  destruct (prefix_of_spec t) as (rest & Hp & Hpe).
  destruct (suffix_of_spec t) as (body & Hs & Hse).
  assert (Hmid : exists mid, body = prefix_of t ++ mid /\ rest = mid ++ suffix_of t).
  { assert (Heq : prefix_of t ++ rest = body ++ suffix_of t) by congruence.
    apply app_eq_app in Heq. destruct Heq as [l [[H1 H2] | [H1 H2]]].
    - exfalso. rewrite Hs in Hcontent at 1.
      rewrite existsb_app in Hcontent.
      rewrite (edge_no_content _ Hse), orb_false_r in Hcontent.
      pose proof (edge_no_content _ Hpe) as Hnp. rewrite H1, existsb_app in Hnp.
      apply orb_false_iff in Hnp. destruct Hnp as [Hnb _]. congruence.
    - exists l. split; assumption. }
  destruct Hmid as (mid & Hbody & Hrest).
  assert (Hall : t = prefix_of t ++ mid ++ suffix_of t).
  { rewrite Hs at 1. now rewrite Hbody, <- app_assoc. }
  assert (Hnum : skipn (length (prefix_of t))
                   (firstn (length t - length (suffix_of t)) t) = mid).
  { revert Hall. generalize (prefix_of t) (suffix_of t). intros P S ->.
    apply slice_mid. }
  rewrite Hnum.
  assert (Hdot : existsb (N.eqb 46) t = existsb (N.eqb 46) mid).
  { pose proof (edge_no_dot _ Hpe) as HP. pose proof (edge_no_dot _ Hse) as HS.
    revert Hall HP HS. generalize (prefix_of t) (suffix_of t). intros P S -> HP HS.
    rewrite !existsb_app. unfold str, char in *.
    now rewrite HP, HS, orb_false_r. }
  rewrite Hdot.
  destruct (existsb (N.eqb 46) mid) eqn:Emid.
  - pose proof (span_spec (fun c => negb (c =? 46)%N) mid) as (H1 & H2 & H3).
    destruct (Numbers.span (fun c => negb (c =? 46)%N) mid) as [ipart fpart].
    cbn [fst snd] in *.
    assert (Hi : existsb (N.eqb 46) ipart = false).
    { clear - H2. induction ipart as [| c r IH]; [reflexivity |].
      cbn [forallb existsb] in *. apply andb_prop in H2. destruct H2 as [Hc Hr].
      rewrite (IH Hr). rewrite N.eqb_sym. destruct (c =? 46)%N; [discriminate | reflexivity]. }
    split; [exact Hi |].
    destruct fpart as [| d fr].
    + rewrite app_nil_r in H1. subst ipart.
      exfalso. pose proof (eq_trans (eq_sym Emid) Hi) as Habs. discriminate Habs.
    + apply negb_false_iff, N.eqb_eq in H3. subst d. cbn [tl].
      clear - Hall H1. revert Hall. generalize (prefix_of t) (suffix_of t).
      intros P S ->. rewrite H1, <- app_assoc. reflexivity.
  - split; [exact Emid |]. cbn [app].
    clear - Hall. revert Hall. generalize (prefix_of t) (suffix_of t).
    intros P S ->. reflexivity.
Qed.

Lemma split_decimal_reassembles_witness :
  let '(prefix, ipart, fpart) :=
    Numbers.split_decimal_for_align (lit " ($1,234.50) ") in
  existsb (N.eqb 46) ipart = false
  /\ prefix ++ ipart
       ++ (if existsb (N.eqb 46) (strip (lit " ($1,234.50) ")) then [46%N] else [])
       ++ fpart
     = strip (lit " ($1,234.50) ").
Proof.
  apply (split_decimal_reassembles (lit " ($1,234.50) ")). vm_compute. reflexivity.
Defined.

(** Without such a character the whitespace between the symbols and the
    closing marks is counted twice. *)
Lemma split_decimal_shared_gap :
  Numbers.split_decimal_for_align (lit "$ %") = (lit "$ ", [], lit " %").
Proof. vm_compute. reflexivity. Qed.

(** ** Percentages *)

Lemma last_app_one {A : Type} (s : list A) (c d : A) : last (s ++ [c]) d = c.
Proof.
  induction s as [| x s IH]; [reflexivity |].
  cbn [app]. destruct (s ++ [c]) eqn:E; [now destruct s | exact IH].
Qed.

(** X15. [format_percent] always ends with a percent sign; a value equal
    to zero (of either sign) prints as ["0%"], a value above zero starts
    with a plus sign and a value below zero with a minus sign. *)
Theorem format_percent_shows_the_sign (value : float) (decimal_places : nat) :
  last (Numbers.format_percent value decimal_places) 0%N = 37%N
  /\ (feq value (zf 0) = true ->
      Numbers.format_percent value decimal_places = lit "0%")
  /\ (flt (zf 0) value = true ->
      hd 0%N (Numbers.format_percent value decimal_places) = 43%N)
  /\ (flt value (zf 0) = true ->
      hd 0%N (Numbers.format_percent value decimal_places) = 45%N).
Proof.
  unfold Numbers.format_percent. split; [| split; [| split]].
  - destruct (feq value (zf 0)); [reflexivity |].
    rewrite !app_assoc. change (lit "%") with [37%N]. apply last_app_one.
  - intros ->. reflexivity.
  - intros Hpos. rewrite Hpos.
    replace (feq value (zf 0)) with false; [reflexivity |].
    destruct value as [s | s | | s m e]; try destruct s; try reflexivity;
      vm_compute in Hpos; discriminate Hpos.
  - intros Hneg.
    replace (feq value (zf 0)) with false.
    2:{ destruct value as [s | s | | s m e]; try destruct s; try reflexivity;
          vm_compute in Hneg; discriminate Hneg. }
    replace (flt (zf 0) value) with false.
    2:{ destruct value as [s | s | | s m e]; try destruct s; try reflexivity;
          vm_compute in Hneg; discriminate Hneg. }
    destruct value as [s | s | | s m e]; try destruct s; try reflexivity;
      vm_compute in Hneg; discriminate Hneg.
Qed.

Lemma format_percent_shows_the_sign_witness :
  Numbers.format_percent (zf 0) 1 = lit "0%"
  /\ hd 0%N (Numbers.format_percent (dec 25 2) 1) = 43%N
  /\ hd 0%N (Numbers.format_percent (dec (-1) 100) 1) = 45%N.
Proof.
  split; [| split].
  - apply (proj1 (proj2 (format_percent_shows_the_sign (zf 0) 1))). reflexivity.
  - apply (proj1 (proj2 (proj2 (format_percent_shows_the_sign (dec 25 2) 1)))).
    reflexivity.
  - apply (proj2 (proj2 (proj2 (format_percent_shows_the_sign (dec (-1) 100) 1)))).
    reflexivity.
Defined.

(** ** The edit distance *)

Lemma lev_nil_l (b : str) : lev [] b = len b.
Proof. reflexivity. Qed.

Lemma lev_nil_r (a : str) : lev a [] = len a.
Proof. destruct a; reflexivity. Qed.

Lemma lev_cons (x y : char) (a b : str) :
  lev (x :: a) (y :: b)
  = Z.min (lev a (y :: b) + 1)
      (Z.min (lev (x :: a) b + 1) (lev a b + (if (x =? y)%N then 0 else 1))).
Proof. reflexivity. Qed.

Lemma lev_sym (a : str) : forall b, lev a b = lev b a.
Proof.
  induction a as [| x a IHa]; intros b.
  - now rewrite lev_nil_l, lev_nil_r.
  - induction b as [| y b IHb].
    + now rewrite lev_nil_l, lev_nil_r.
    + rewrite !lev_cons, IHb, (IHa (y :: b)), (IHa b), (N.eqb_sym x y). lia.
Qed.

Lemma lev_bounds (a : str) :
  forall b, Z.abs (len a - len b) <= lev a b <= Z.max (len a) (len b).
Proof.
  induction a as [| x a IHa]; intros b.
  - rewrite lev_nil_l, len_nil. pose proof (len_nonneg b). lia.
  - induction b as [| y b IHb].
    + rewrite lev_nil_r, len_nil. pose proof (len_nonneg (x :: a)). lia.
    + rewrite lev_cons.
      pose proof (IHa (y :: b)) as H1. pose proof (IHa b) as H2.
      rewrite !len_cons in *.
      pose proof (len_nonneg a). pose proof (len_nonneg b).
      destruct (x =? y)%N; lia.
Qed.

Lemma lev_refl (a : str) : lev a a = 0.
Proof.
  induction a as [| x a IH]; [reflexivity |].
  rewrite lev_cons, N.eqb_refl, IH.
  pose proof (lev_bounds a (x :: a)). pose proof (lev_bounds (x :: a) a).
  rewrite !len_cons in *. lia.
Qed.

Lemma lev_zero (a : str) : forall b, lev a b = 0 -> a = b.
Proof.
  induction a as [| x a IHa]; intros b H0.
  - rewrite lev_nil_l in H0. destruct b; [reflexivity |].
    rewrite len_cons in H0. pose proof (len_nonneg b). lia.
  - destruct b as [| y b].
    + rewrite lev_nil_r, len_cons in H0. pose proof (len_nonneg a). lia.
    + rewrite lev_cons in H0.
      pose proof (lev_bounds a (y :: b)). pose proof (lev_bounds (x :: a) b).
      pose proof (lev_bounds a b).
      destruct (N.eqb_spec x y) as [-> | Hxy].
      * f_equal. apply IHa. lia.
      * lia.
Qed.

Lemma nth_map_seq (f : nat -> Z) (n k : nat) :
  (k < n)%nat -> nth k (map f (seq 0 n)) 0 = f k.
Proof.
  intros Hk. rewrite (nth_indep _ 0 (f 0%nat)) by (now rewrite length_map, length_seq).
  rewrite (map_nth f (seq 0 n) 0%nat k), seq_nth by exact Hk. reflexivity.
Qed.

Lemma nth_row_of (ru s2 : str) (k : nat) :
  (k <= length s2)%nat -> nth k (row_of ru s2) 0 = lev ru (rev (firstn k s2)).
Proof. intros Hk. unfold row_of. apply (nth_map_seq (fun j => lev ru (rev (firstn j s2)))). lia. Qed.

Lemma row_loop_correct (c1 : char) (ru s2 : str) :
  forall todo done cur,
    s2 = done ++ todo ->
    cur = map (fun j => lev (c1 :: ru) (rev (firstn j s2))) (seq 0 (S (length done))) ->
    Validators.row_loop c1 (row_of ru s2) cur (length done) todo
    = row_of (c1 :: ru) s2.
Proof.
  induction todo as [| c2 rest IH]; intros done cur Hs2 Hcur.
  - cbn [Validators.row_loop]. rewrite app_nil_r in Hs2. subst. reflexivity.
  - cbn [Validators.row_loop].
    assert (Hlen : length s2 = (length done + S (length rest))%nat)
      by (rewrite Hs2, length_app; reflexivity).
    assert (Hdone : firstn (length done) s2 = done)
      by (rewrite Hs2, firstn_app, Nat.sub_diag, firstn_all; cbn; apply app_nil_r).
    assert (Hnext : firstn (S (length done)) s2 = done ++ [c2]).
    { rewrite Hs2, firstn_app, firstn_all2 by lia.
      replace (S (length done) - length done)%nat with 1%nat by lia. reflexivity. }
    rewrite !nth_row_of by lia.
    replace (nth (length done) cur 0) with (lev (c1 :: ru) (rev (firstn (length done) s2)))
      by (rewrite Hcur;
          now rewrite (nth_map_seq (fun j => lev (c1 :: ru) (rev (firstn j s2)))) by lia).
    rewrite Hdone, Hnext, rev_app_distr. cbn [rev app].
    rewrite <- lev_cons.
    replace (S (length done)) with (length (done ++ [c2]))
      by (rewrite length_app; cbn; lia).
    apply IH.
    + rewrite Hs2, <- app_assoc. reflexivity.
    + rewrite length_app. cbn [length].
      replace (length done + 1)%nat with (S (length done)) by lia.
      rewrite (seq_S (S (length done)) 0), map_app. cbn [map Nat.add].
      rewrite <- Hcur, Hnext, rev_app_distr. reflexivity.
Qed.

Lemma rows_loop_correct (s2 : str) :
  forall s1 ru i,
    i = len ru ->
    Validators.rows_loop s1 i s2 (row_of ru s2) = row_of (rev s1 ++ ru) s2.
Proof.
  induction s1 as [| c1 rest IH]; intros ru i Hi; [reflexivity |].
  cbn [Validators.rows_loop].
  assert (Hrow : Validators.row_loop c1 (row_of ru s2) [i + 1] 0 s2
                 = row_of (c1 :: ru) s2).
  { apply (row_loop_correct c1 ru s2 s2 [] [i + 1]); [reflexivity |].
    cbn [seq map length firstn rev]. rewrite lev_nil_r, len_cons. f_equal. lia. }
  rewrite Hrow, IH by (rewrite len_cons; lia).
  cbn [rev]. now rewrite <- app_assoc.
Qed.

Lemma row_of_nil (s2 : str) :
  map Z.of_nat (seq 0 (S (length s2))) = row_of [] s2.
Proof.
  unfold row_of. apply map_ext_in. intros j Hj. apply in_seq in Hj.
  rewrite lev_nil_l, len_rev. unfold len. rewrite length_firstn. f_equal. lia.
Qed.

Lemma last_row_of (ru s2 : str) : last (row_of ru s2) 0 = lev ru (rev s2).
Proof.
  unfold row_of. rewrite seq_S, map_app. cbn [map Nat.add].
  rewrite last_last, firstn_all. reflexivity.
Qed.

Lemma distance_ordered_lev (s1 s2 : str) :
  Validators.distance_ordered s1 s2 = lev (rev s1) (rev s2).
Proof.
  unfold Validators.distance_ordered.
  destruct (len s2 =? 0) eqn:E.
  - apply Z.eqb_eq in E. destruct s2; [| rewrite len_cons in E; pose proof (len_nonneg s2); lia].
    cbn [rev]. now rewrite lev_nil_r, len_rev.
  - rewrite row_of_nil, rows_loop_correct by reflexivity.
    now rewrite app_nil_r, last_row_of.
Qed.

Lemma distance_lev (s1 s2 : str) :
  Validators.calculate_levenshtein_distance s1 s2 = lev (rev s1) (rev s2).
Proof.
  unfold Validators.calculate_levenshtein_distance.
  destruct (len s1 <? len s2); rewrite distance_ordered_lev; [apply lev_sym | reflexivity].
Qed.

Lemma distance_zero_iff (s1 s2 : str) :
  Validators.calculate_levenshtein_distance s1 s2 = 0 <-> s1 = s2.
Proof.
  rewrite distance_lev. split.
  - intros H. apply lev_zero in H.
    rewrite <- (rev_involutive s1), <- (rev_involutive s2). now rewrite H.
  - intros ->. apply lev_refl.
Qed.

Lemma distance_sym (s1 s2 : str) :
  Validators.calculate_levenshtein_distance s1 s2
  = Validators.calculate_levenshtein_distance s2 s1.
Proof. rewrite !distance_lev. apply lev_sym. Qed.

Lemma distance_bounds (s1 s2 : str) :
  Z.abs (len s1 - len s2) <= Validators.calculate_levenshtein_distance s1 s2
  /\ Validators.calculate_levenshtein_distance s1 s2 <= Z.max (len s1) (len s2).
Proof.
  rewrite distance_lev. pose proof (lev_bounds (rev s1) (rev s2)) as H.
  rewrite !len_rev in H. exact H.
Qed.

(** X16. The Levenshtein distance of two strings is 0 exactly when they
    are equal. *)
Theorem levenshtein_zero_iff_equal (s1 s2 : str) :
  Validators.calculate_levenshtein_distance s1 s2 = 0 <-> s1 = s2.
Proof. apply distance_zero_iff. Qed.

(** X17. The Levenshtein distance is symmetric in its two arguments. *)
Theorem levenshtein_is_symmetric (s1 s2 : str) :
  Validators.calculate_levenshtein_distance s1 s2
  = Validators.calculate_levenshtein_distance s2 s1.
Proof. apply distance_sym. Qed.

(** X18. The Levenshtein distance is at least the difference of the two
    lengths and at most the longer length. *)
Theorem levenshtein_is_bounded_by_lengths (s1 s2 : str) :
  Z.abs (len s1 - len s2) <= Validators.calculate_levenshtein_distance s1 s2
  /\ Validators.calculate_levenshtein_distance s1 s2 <= Z.max (len s1) (len s2).
Proof. apply distance_bounds. Qed.

(** ** Quotients of two integers *)

Lemma pow2_digits (m : Z) : 0 < m -> 2 ^ (Zdigits2 m - 1) <= m < 2 ^ Zdigits2 m.
Proof.
  intros Hm. rewrite Zdigits2_log2 by exact Hm.
  replace (Z.log2 m + 1 - 1) with (Z.log2 m) by lia.
  pose proof (Z.log2_spec m Hm) as H. unfold Z.succ in H. exact H.
Qed.

Lemma digits_below_pow2 (q n : Z) : 0 <= q < 2 ^ n -> 0 <= n -> Zdigits2 q <= n.
Proof.
  intros [Hq Hlt] Hn.
  destruct (Z.eq_dec q 0) as [-> | Hnz]; [cbn; lia |].
  rewrite Zdigits2_log2 by lia.
  assert (Z.log2 q < n) by (apply Z.log2_lt_pow2; lia). lia.
Qed.

(** The quotient of a positive integer by a larger one is a finite float. *)
Lemma quotient_below_one_finite (pa pb : positive) :
  Zpos pa <= Zpos pb ->
  is_finite (fdiv (S754_finite false pa 0) (S754_finite false pb 0)) = true.
Proof.
  intros Hle. unfold fdiv, SFdiv, SFdiv_core_binary.
  set (d1 := Zdigits2 (Zpos pa)). set (d2 := Zdigits2 (Zpos pb)).
  assert (Hd : d1 <= d2) by (apply Zdigits2_mono; lia).
  assert (Hd1 : 1 <= d1) by (subst d1; rewrite Zdigits2_log2 by lia;
                              pose proof (Z.log2_nonneg (Zpos pa)); lia).
  pose proof (pow2_digits (Zpos pa) ltac:(lia)) as Hpa. fold d1 in Hpa.
  pose proof (pow2_digits (Zpos pb) ltac:(lia)) as Hpb. fold d2 in Hpb.
  replace (d1 + 0 - (d2 + 0)) with (d1 - d2) by lia.
  replace (0 - 0) with 0 by lia.
  set (e' := Z.min (fexp prec emax (d1 - d2)) 0).
  assert (He' : e' = Z.max (d1 - d2 - 53) (-1074)).
  { subst e'. unfold fexp, SpecFloat.emin, prec, emax.
    change IntDef.Z.max with Z.max. lia. }
  set (s := 0 - e').
  assert (Hs : 0 < s /\ d1 + s - d2 + 1 <= 54) by (unfold s; lia).
  set (m' := match s with Z.pos _ => Z.shiftl (Zpos pa) s | 0 => Zpos pa | Z.neg _ => 0 end).
  assert (Hm' : m' = Zpos pa * 2 ^ s).
  { subst m'. destruct s as [| p | p] eqn:Es; [lia | | lia].
    rewrite Z.shiftl_mul_pow2 by lia. reflexivity. }
  pose proof (Z_div_mod m' (Zpos pb) ltac:(lia)) as Hdiv.
  destruct (Z.div_eucl m' (Zpos pb)) as [q r].
  destruct Hdiv as [Hqr Hr].
  assert (Hq0 : 0 <= q) by nia.
  assert (H2s : 0 < 2 ^ s) by (apply Z.pow_pos_nonneg; lia).
  assert (Hqm : q * 2 ^ (d2 - 1) < 2 ^ (d1 + s)).
  { rewrite Z.pow_add_r by lia.
    assert (q * 2 ^ (d2 - 1) <= q * Zpos pb) by (apply Z.mul_le_mono_nonneg_l; lia).
    nia. }
  assert (Hq54 : q < 2 ^ 54).
  { destruct (Z_le_gt_dec (d1 + s) (d2 - 1)) as [Hsmall | Hbig].
    - assert (2 ^ (d1 + s) <= 2 ^ (d2 - 1)) by (apply Z.pow_le_mono_r; lia).
      assert (0 < 2 ^ (d2 - 1)) by (apply Z.pow_pos_nonneg; lia).
      assert (q < 1) by nia.
      assert (0 < 2 ^ 54) by (apply Z.pow_pos_nonneg; lia). lia.
    - assert (H1 : q * 2 ^ (d2 - 1) < 2 ^ (d1 + s - d2 + 1) * 2 ^ (d2 - 1)).
      { rewrite <- Z.pow_add_r by lia.
        now replace (d1 + s - d2 + 1 + (d2 - 1)) with (d1 + s) by lia. }
      apply Z.mul_lt_mono_pos_r in H1; [| apply Z.pow_pos_nonneg; lia].
      apply Z.lt_le_trans with (2 ^ (d1 + s - d2 + 1)); [exact H1 |].
      apply Z.pow_le_mono_r; lia. }
  apply binary_round_aux_finite; [exact Hq0 | | lia].
  pose proof (digits_below_pow2 q 54 (conj Hq0 Hq54) ltac:(lia)). lia.
Qed.

Lemma int_truediv_total (a b : Z) :
  0 <= a <= b -> 0 < b -> exists q, Py.int_truediv a b = Ok q.
Proof.
  intros Ha Hb. unfold Py.int_truediv.
  replace (b =? 0) with false by (symmetry; apply Z.eqb_neq; lia).
  destruct b as [| pb | pb]; try lia.
  destruct a as [| pa | pa]; try lia.
  - eexists. reflexivity.
  - pose proof (quotient_below_one_finite pa pb ltac:(lia)) as Hfin.
    cbn [Py.exact_int].
    destruct (fdiv (S754_finite false pa 0) (S754_finite false pb 0));
      try discriminate Hfin; eexists; reflexivity.
Qed.

Lemma int_truediv_zero (b : Z) : b <> 0 -> Py.int_truediv 0 b = Ok (S754_zero (b <? 0)).
Proof.
  intros Hb. unfold Py.int_truediv.
  replace (b =? 0) with false by (symmetry; apply Z.eqb_neq; lia).
  destruct b; [contradiction | reflexivity | reflexivity].
Qed.

(** ** Row widths *)

Lemma nodup_nil_inv (l : list Z) : nodup Z.eq_dec l = [] -> l = [].
Proof.
  destruct l as [| x l]; [reflexivity |]. intros H.
  assert (Hin : In x (nodup Z.eq_dec (x :: l))) by (apply nodup_In; now left).
  rewrite H in Hin. contradiction.
Qed.

Lemma nodup_one (l : list Z) :
  length (nodup Z.eq_dec l) = 1%nat
  <-> l <> [] /\ forall x y, In x l -> In y l -> x = y.
Proof.
  induction l as [| x l IH].
  - cbn. split; [discriminate | intros [H _]; contradiction].
  - cbn [nodup]. destruct (in_dec Z.eq_dec x l) as [Hin | Hnin].
    + rewrite IH. split.
      * intros [Hne Hall]. split; [discriminate |].
        intros a b [<- | Ha] [<- | Hb]; auto.
      * intros [_ Hall]. split; [intros ->; contradiction |].
        intros a b Ha Hb. apply Hall; now right.
    + cbn [length]. split.
      * intros H. assert (Hl : l = []).
        { apply nodup_nil_inv. destruct (nodup Z.eq_dec l); [reflexivity | discriminate]. }
        subst l. split; [discriminate |].
        intros a b [<- | []] [<- | []]. reflexivity.
      * intros [_ Hall]. destruct l as [| y l]; [reflexivity |].
        exfalso. apply Hnin. left. apply Hall; [right; now left | now left].
Qed.

(** X19. The row-width check of the validators module, with blank lines
    ignored, gives the verdict of the one in the QC module; and that
    verdict is positive exactly when all the non-blank lines have the same
    number of characters. *)
Theorem row_width_checks_agree (lines : list str) :
  Validators.passed (Validators.validate_row_widths lines true)
  = QC.validate_row_widths lines
  /\ (QC.validate_row_widths lines = true
      <-> forall a b,
            In a lines -> In b lines ->
            QC.nonblank a = true -> QC.nonblank b = true -> len a = len b).
Proof.
  split.
  - unfold Validators.validate_row_widths, QC.validate_row_widths.
    destruct lines as [| l0 ls]; [reflexivity |].
    destruct (filter QC.nonblank (l0 :: ls)) as [| f0 fs]; [reflexivity |].
    cbn [map]. destruct (len (nodup Z.eq_dec (len f0 :: map len fs)) =? 1); reflexivity.
  - unfold QC.validate_row_widths.
    destruct (filter QC.nonblank lines) as [| f0 fs] eqn:Ef.
    + split; [| reflexivity]. intros _ a b Ha Hb Hna Hnb.
      assert (Hin : In a (filter QC.nonblank lines)) by (apply filter_In; now split).
      rewrite Ef in Hin. contradiction.
    + rewrite <- Ef. rewrite Z.eqb_eq.
      unfold len at 1. change 1 with (Z.of_nat 1). rewrite Nat2Z.inj_iff.
      rewrite nodup_one. split.
      * intros [_ Hall] a b Ha Hb Hna Hnb.
        apply Hall; apply in_map; apply filter_In; now split.
      * intros Hall. split; [rewrite Ef; discriminate |].
        intros x y Hx Hy. apply in_map_iff in Hx, Hy.
        destruct Hx as (a & <- & Ha). destruct Hy as (b & <- & Hb).
        apply filter_In in Ha, Hb. destruct Ha, Hb. now apply Hall.
Qed.

(** ** Line lengths *)

Lemma length_loop_counts (min_chars max_chars : Z) (lines : list str) :
  forall s l,
    0 <= s -> 0 <= l ->
    let '(s', l') := Validators.length_loop lines min_chars max_chars s l in
    s <= s' /\ l <= l'
    /\ (s' - s) + (l' - l) <= len (filter QC.nonblank lines)
    /\ ((forall line, In line lines ->
           len (strip line) = 0 \/ min_chars <= len (strip line) <= max_chars) ->
        s' = s /\ l' = l).
Proof.
  induction lines as [| line rest IH]; intros s l Hs Hl.
  - cbn. repeat split; lia.
  - cbn [Validators.length_loop filter].
    assert (Hnb : QC.nonblank line = negb (len (strip line) =? 0)).
    { unfold QC.nonblank. destruct (strip line) as [| c0 r0]; [reflexivity |].
      rewrite len_cons. pose proof (len_nonneg r0).
      symmetry. apply negb_true_iff, Z.eqb_neq. lia. }
    rewrite Hnb.
    assert (Htail : forall P : str -> Prop,
               (forall ln, In ln (line :: rest) -> P ln) -> forall ln, In ln rest -> P ln)
      by (intros P HP ln Hin; apply HP; now right).
    destruct (len (strip line) =? 0) eqn:E0; cbn [negb].
    + specialize (IH s l Hs Hl).
      destruct (Validators.length_loop rest min_chars max_chars s l) as [s' l'].
      destruct IH as (H1 & H2 & H3 & H4).
      split; [lia |]. split; [lia |]. split; [lia |].
      intros H. apply H4. exact (Htail _ H).
    + rewrite len_cons. apply Z.eqb_neq in E0.
      destruct (len (strip line) <? min_chars) eqn:Emin.
      * apply Z.ltb_lt in Emin.
        specialize (IH (s + 1) l ltac:(lia) Hl).
        destruct (Validators.length_loop rest min_chars max_chars (s + 1) l) as [s' l'].
        destruct IH as (H1 & H2 & H3 & H4).
        split; [lia |]. split; [lia |]. split; [lia |].
        intros H. exfalso. destruct (H line (or_introl eq_refl)); lia.
      * destruct (max_chars <? len (strip line)) eqn:Emax.
        -- apply Z.ltb_lt in Emax.
           specialize (IH s (l + 1) Hs ltac:(lia)).
           destruct (Validators.length_loop rest min_chars max_chars s (l + 1)) as [s' l'].
           destruct IH as (H1 & H2 & H3 & H4).
           split; [lia |]. split; [lia |]. split; [lia |].
           intros H. exfalso. destruct (H line (or_introl eq_refl)); lia.
        -- specialize (IH s l Hs Hl).
           destruct (Validators.length_loop rest min_chars max_chars s l) as [s' l'].
           destruct IH as (H1 & H2 & H3 & H4).
           split; [lia |]. split; [lia |]. split; [lia |].
           intros H. apply H4. exact (Htail _ H).
Qed.

(** X20. [validate_line_length] always returns (its division never has a
    zero divisor, a violation implying a non-blank line); and when every
    line is blank or has, once stripped, a length within the two bounds,
    the check passes with score 1.0. *)
Theorem line_length_check_always_answers (lines : list str) (min_chars max_chars : Z) :
  exists r,
    Validators.validate_line_length lines min_chars max_chars = Ok r
    /\ ((forall line, In line lines ->
           len (strip line) = 0 \/ min_chars <= len (strip line) <= max_chars) ->
        Validators.passed r = true /\ Validators.score r = zf 1).
Proof.
  unfold Validators.validate_line_length.
  destruct lines as [| l0 ls] eqn:El; [eexists; split; [reflexivity | now split] |].
  rewrite <- El. clear El.
  pose proof (length_loop_counts min_chars max_chars lines 0 0 ltac:(lia) ltac:(lia)) as H.
  destruct (Validators.length_loop lines min_chars max_chars 0 0) as [s' l'].
  destruct H as (H1 & H2 & H3 & H4).
  destruct (s' + l' =? 0) eqn:E0.
  - eexists. split; [reflexivity | now split].
  - apply Z.eqb_neq in E0.
    destruct (int_truediv_total (s' + l') (len (filter QC.nonblank lines))
                ltac:(lia) ltac:(lia)) as [q Hq].
    rewrite Hq. cbn [Py.bind]. eexists. split; [reflexivity |].
    intros Hall. destruct (H4 Hall). lia.
Qed.

(** ** Parity of two outputs *)

(** X21. [validate_parity] always returns a result named ["parity"] (the
    distance never exceeds the longer text, so the quotient is a float);
    when either output is empty, the check fails with score 0.0. *)
Theorem parity_check_always_answers (float_repr : float -> str)
    (dom_output cli_output : str) (threshold : float) :
  exists r,
    Validators.validate_parity float_repr dom_output cli_output threshold = Ok r
    /\ Validators.check_name r = lit "parity"
    /\ (dom_output = [] \/ cli_output = [] ->
        Validators.passed r = false /\ Validators.score r = zf 0).
Proof.
  unfold Validators.validate_parity.
  destruct dom_output as [| d0 ds].
  { eexists. split; [reflexivity |]. split; [reflexivity | now split]. }
  destruct cli_output as [| c0 cs].
  { eexists. split; [reflexivity |]. split; [reflexivity | now split]. }
  cbv zeta.
  set (a := Validators.sub_ws_runs false (strip (d0 :: ds))).
  set (b := Validators.sub_ws_runs false (strip (c0 :: cs))).
  pose proof (distance_bounds a b) as [Hlo Hhi].
  destruct (0 <? Z.max (len a) (len b)) eqn:Epos.
  - apply Z.ltb_lt in Epos.
    destruct (int_truediv_total (Validators.calculate_levenshtein_distance a b)
                (Z.max (len a) (len b)) ltac:(lia) Epos) as [q Hq].
    rewrite Hq. cbn [Py.bind]. eexists. split; [reflexivity |].
    split; [reflexivity |]. intros [H | H]; discriminate H.
  - cbn [Py.bind]. eexists. split; [reflexivity |].
    split; [reflexivity |]. intros [H | H]; discriminate H.
Qed.

Lemma parity_check_always_answers_witness :
  exists r,
    Validators.validate_parity (fun _ => lit "0.01") [] (lit "text") (dec 1 100) = Ok r
    /\ Validators.check_name r = lit "parity"
    /\ ([] = @nil char \/ lit "text" = [] ->
        Validators.passed r = false /\ Validators.score r = zf 0).
Proof.
  exact (parity_check_always_answers (fun _ => lit "0.01") [] (lit "text") (dec 1 100)).
Defined.

(** X22. [validate_parity] gives the same check name, verdict, score and
    message when its two outputs are exchanged; and a non-empty output
    compared with itself passes with score 1.0 for every threshold of zero
    or more. *)
Theorem parity_is_symmetric_and_reflexive (float_repr : float -> str)
    (dom_output cli_output : str) (threshold : float) :
  Validators.validate_parity float_repr dom_output cli_output threshold
  = Validators.validate_parity float_repr cli_output dom_output threshold
  /\ (dom_output <> [] -> fle (zf 0) threshold = true ->
      exists msg,
        Validators.validate_parity float_repr dom_output dom_output threshold
        = Ok (Validators.mk_result (lit "parity") true (zf 1) msg)).
Proof.
  split.
  - unfold Validators.validate_parity.
    destruct dom_output as [| d0 ds], cli_output as [| c0 cs]; try reflexivity.
    cbv zeta.
    rewrite (distance_sym
               (Validators.sub_ws_runs false (strip (c0 :: cs)))),
      (Z.max_comm (len (Validators.sub_ws_runs false (strip (c0 :: cs))))).
    reflexivity.
  - intros Hne Hthr. unfold Validators.validate_parity.
    destruct dom_output as [| d0 ds]; [contradiction |].
    cbv zeta.
    set (a := Validators.sub_ws_runs false (strip (d0 :: ds))).
    replace (Validators.calculate_levenshtein_distance a a) with 0
      by (symmetry; now apply distance_zero_iff).
    rewrite Z.max_id.
    destruct (0 <? len a) eqn:Epos.
    + apply Z.ltb_lt in Epos.
      rewrite int_truediv_zero by lia. cbn [Py.bind].
      replace (len a <? 0) with false by (symmetry; apply Z.ltb_ge; lia).
      change (fsub (zf 1) (S754_zero false)) with (zf 1).
      change (fsub (zf 1) (zf 1)) with (zf 0).
      rewrite Hthr. eexists. reflexivity.
    + cbn [Py.bind].
      change (fsub (zf 1) (zf 1)) with (zf 0).
      rewrite Hthr. eexists. reflexivity.
Qed.

Lemma parity_is_symmetric_and_reflexive_witness :
  exists msg,
    Validators.validate_parity (fun _ => lit "0.01") (lit "a  b") (lit "a  b") (dec 1 100)
    = Ok (Validators.mk_result (lit "parity") true (zf 1) msg).
Proof.
  apply (proj2 (parity_is_symmetric_and_reflexive (fun _ => lit "0.01")
                  (lit "a  b") [] (dec 1 100))).
  - discriminate.
  - vm_compute. reflexivity.
Defined.

(** ** The summary of a validation run *)

Lemma filter_all_length {A : Type} (f : A -> bool) (l : list A) :
  (length (filter f l) <= length l)%nat
  /\ (length (filter f l) = length l <-> forallb f l = true).
Proof.
  induction l as [| x l [IH1 IH2]]; [cbn; split; [lia | tauto] |].
  cbn [filter forallb length]. destruct (f x); cbn [length andb].
  - split; [lia |]. rewrite <- IH2. lia.
  - split; [lia |]. split; [lia | discriminate].
Qed.

(** X23. In a summary that [validation_summary] returns, the passed and
    failed counts add up to the number of results, the failed count is not
    negative, and the grade is ["PASS"] exactly when every result passed
    (and so for an empty list), ["FAIL"] otherwise. *)
Theorem summary_grades_pass_iff_all_passed (results : list Validators.ValidationResult)
    (s : Validators.summary) :
  Validators.validation_summary results = Ok s ->
  Validators.total_checks s = len results
  /\ Validators.passed_checks s + Validators.failed_checks s
     = Validators.total_checks s
  /\ 0 <= Validators.failed_checks s
  /\ (Validators.overall_grade s = lit "PASS"
      <-> forallb Validators.passed results = true)
  /\ (Validators.overall_grade s = lit "PASS"
      \/ Validators.overall_grade s = lit "FAIL").
Proof.
  intros Hrun. unfold Validators.validation_summary in Hrun. cbv zeta in Hrun.
  repeat match type of Hrun with
         | Py.bind ?r _ = _ => destruct r; cbn [Py.bind] in Hrun; [| discriminate Hrun]
         end.
  injection Hrun as <-. cbn.
  pose proof (filter_all_length Validators.passed results) as [Hle Hiff].
  unfold len. split; [reflexivity |]. split; [lia |]. split; [lia |].
  split.
  - rewrite <- Hiff.
    destruct (Z.eqb_spec (Z.of_nat (length (filter Validators.passed results)))
                (Z.of_nat (length results))) as [E | E].
    + split; [intros _; lia | reflexivity].
    + split; [discriminate | intros H; lia].
  - destruct (_ =? _); [now left | now right].
Qed.

Lemma summary_grades_pass_iff_all_passed_witness :
  exists s,
    Validators.validation_summary [] = Ok s
    /\ Validators.total_checks s = len (@nil Validators.ValidationResult)
    /\ Validators.overall_grade s = lit "PASS"
    /\ Validators.pass_rate s = zf 0.
Proof.
  eexists. split; [reflexivity |].
  pose proof (summary_grades_pass_iff_all_passed []
                (Validators.mk_summary 0 0 0 (zf 0) (zf 0) (lit "PASS") [])
                eq_refl) as (H1 & _ & _ & H4 & _).
  split; [exact H1 |]. split; [apply H4; reflexivity | reflexivity].
Defined.

(** ** The accent budget *)

Lemma accent_loop_counts (max_per_line : Z) (lines : list str) :
  forall ta tc lv,
    0 <= ta <= tc -> 0 <= lv ->
    let '(ta', tc', lv') := Validators.accent_loop lines max_per_line ta tc lv in
    0 <= ta' <= tc' /\ lv <= lv' /\ lv' - lv <= len lines
    /\ (tc < tc' -> 0 < len lines)
    /\ ((exists line, In line lines /\ QC.nonblank line = true
                      /\ max_per_line < len (filter Validators.is_accent line)) ->
        lv < lv').
Proof.
  induction lines as [| line rest IH]; intros ta tc lv Hta Hlv.
  - cbn. repeat split; try lia. intros (line & [] & _).
  - cbn [Validators.accent_loop]. rewrite len_cons. pose proof (len_nonneg rest).
    destruct (QC.nonblank line) eqn:Enb; cbn [negb].
    + assert (Hacc : 0 <= len (filter Validators.is_accent line) <= len line).
      { split; [apply len_nonneg |]. unfold len. apply inj_le, filter_length_le. }
      set (la := len (filter Validators.is_accent line)) in *.
      destruct (max_per_line <? la) eqn:Emax.
      * specialize (IH (ta + la) (tc + len line) (lv + 1) ltac:(lia) ltac:(lia)).
        destruct (Validators.accent_loop rest max_per_line (ta + la) (tc + len line) (lv + 1))
          as [[ta' tc'] lv'].
        destruct IH as (H1 & H2 & H3 & H4 & H5).
        split; [lia |]. split; [lia |]. split; [lia |]. split; [lia |].
        intros _. lia.
      * apply Z.ltb_ge in Emax.
        specialize (IH (ta + la) (tc + len line) lv ltac:(lia) Hlv).
        destruct (Validators.accent_loop rest max_per_line (ta + la) (tc + len line) lv)
          as [[ta' tc'] lv'].
        destruct IH as (H1 & H2 & H3 & H4 & H5).
        split; [lia |]. split; [lia |]. split; [lia |]. split; [lia |].
        intros (ln & [<- | Hin] & Hnb & Hover); [subst la; lia |].
        apply H5. now exists ln.
    + specialize (IH ta tc lv Hta Hlv).
      destruct (Validators.accent_loop rest max_per_line ta tc lv) as [[ta' tc'] lv'].
      destruct IH as (H1 & H2 & H3 & H4 & H5).
      split; [lia |]. split; [lia |]. split; [lia |]. split; [lia |].
      intros (ln & [<- | Hin] & Hnb & Hover); [congruence |].
      apply H5. now exists ln.
Qed.

Lemma positive_not_below_zero (m x : float) :
  flt (zf 0) m = true -> flt m x = true -> is_zero x = false /\ is_zero m = false.
Proof.
  intros Hm Hx. split.
  - destruct x as [s | s | | s mx ex]; try reflexivity.
    destruct m as [sm | sm | | sm mm em]; try destruct sm; try destruct s;
      vm_compute in Hm, Hx; discriminate.
  - destruct m as [sm | sm | | sm mm em]; try reflexivity.
    vm_compute in Hm. destruct sm; discriminate.
Qed.

(** X24. [validate_accent_budget] always returns when the overall ratio
    allowed is above zero; when it is zero and some non-blank line has more
    accents than the per-line limit, the call raises [ZeroDivisionError]. *)
Theorem accent_budget_divides_by_its_ratio (float_repr : float -> str) (text : str)
    (max_accents_per_line : Z) (max_total_ratio : float) :
  (flt (zf 0) max_total_ratio = true ->
   exists r,
     Validators.validate_accent_budget float_repr text max_accents_per_line
       max_total_ratio = Ok r)
  /\ (is_zero max_total_ratio = true ->
      (exists line,
         In line (splitlines text) /\ QC.nonblank line = true
         /\ max_accents_per_line < len (filter Validators.is_accent line)) ->
      Validators.validate_accent_budget float_repr text max_accents_per_line
        max_total_ratio = Raise ZeroDivisionError).
Proof.
  unfold Validators.validate_accent_budget. cbv zeta.
  pose proof (accent_loop_counts max_accents_per_line (splitlines text) 0 0 0
                ltac:(lia) ltac:(lia)) as H.
  destruct (Validators.accent_loop (splitlines text) max_accents_per_line 0 0 0)
    as [[ta tc] lv].
  destruct H as (H1 & H2 & H3 & H4 & H5).
  assert (Hratio : exists ar,
            (if 0 <? tc then Py.int_truediv ta tc else Ok (zf 0)) = Ok ar
            /\ (tc <= 0 -> ar = zf 0)).
  { destruct (0 <? tc) eqn:Etc.
    - apply Z.ltb_lt in Etc.
      destruct (int_truediv_total ta tc H1 Etc) as [q Hq]. exists q. split; [exact Hq | lia].
    - exists (zf 0). split; reflexivity. }
  destruct Hratio as (ar & Har & Har0). rewrite Har. cbn [Py.bind].
  split.
  - intros Hpos.
    destruct ((lv =? 0) && negb (flt max_total_ratio ar)) eqn:Eok;
      [eexists; reflexivity |].
    assert (Hlines : 0 < len (splitlines text)).
    { apply andb_false_iff in Eok. destruct Eok as [Elv | Er].
      - apply Z.eqb_neq in Elv. lia.
      - apply negb_false_iff in Er.
        destruct (Z_le_gt_dec tc 0) as [Hle | Hgt]; [| apply H4; lia].
        rewrite (Har0 Hle) in Er.
        destruct (positive_not_below_zero _ _ Hpos Er) as [Hz _]. discriminate Hz. }
    destruct (int_truediv_total lv (len (splitlines text)) ltac:(lia) Hlines) as [q1 Hq1].
    rewrite Hq1. cbn [Py.bind]. unfold truediv.
    replace (is_zero max_total_ratio) with false.
    2:{ destruct max_total_ratio as [s | s | | s m e]; try reflexivity.
        vm_compute in Hpos. destruct s; discriminate. }
    cbn [Py.bind]. eexists. reflexivity.
  - intros Hzero Hover. specialize (H5 Hover).
    replace (lv =? 0) with false by (symmetry; apply Z.eqb_neq; lia).
    cbn [andb].
    destruct (int_truediv_total lv (len (splitlines text)) ltac:(lia) ltac:(lia))
      as [q1 Hq1].
    rewrite Hq1. cbn [Py.bind]. unfold truediv. rewrite Hzero. reflexivity.
Qed.

Lemma accent_budget_divides_by_its_ratio_witness :
  (exists r,
     Validators.validate_accent_budget (fun _ => lit "0.05") (lit "a+b=c!?") 3
       (dec 5 100) = Ok r)
  /\ Validators.validate_accent_budget (fun _ => lit "0.0") (lit "a+b=c!?") 3 (zf 0)
     = Raise ZeroDivisionError.
Proof.
  split.
  - apply (proj1 (accent_budget_divides_by_its_ratio (fun _ => lit "0.05")
                    (lit "a+b=c!?") 3 (dec 5 100))).
    vm_compute. reflexivity.
  - apply (proj2 (accent_budget_divides_by_its_ratio (fun _ => lit "0.0")
                    (lit "a+b=c!?") 3 (zf 0))).
    + reflexivity.
    + exists (lit "a+b=c!?"). split; [now left |]. split; vm_compute; reflexivity.
Defined.

(** ** Tables of text cells *)


Lemma mapM_forall2 {A B : Type} (f : A -> result B) (R : A -> B -> Prop) (xs : list A) :
  (forall x y, In x xs -> f x = Ok y -> R x y) ->
  forall ys, mapM f xs = Ok ys -> Forall2 R xs ys.
Proof.
  induction xs as [| x rest IH]; intros Hf ys Hrun; cbn [mapM] in Hrun.
  - injection Hrun as <-. constructor.
  - destruct (f x) as [y | e] eqn:Ey; cbn [Py.bind] in Hrun; [| discriminate Hrun].
    destruct (mapM f rest) as [ys' | e]; cbn [Py.bind] in Hrun; [| discriminate Hrun].
    injection Hrun as <-. constructor.
    + apply Hf; [now left | exact Ey].
    + apply IH; [| reflexivity]. intros x' y' Hin. apply Hf. now right.
Qed.


Section TextTable.

Variable float_of_str : str -> option float.







End TextTable.


(** A column of whole numbers is outside the theorem: its cells are one
    character wider than the segment of the border above them. *)
Lemma whole_number_column_is_wider_than_its_border :
  exists lines,
    Html2Ascii._flush_table_structured Instances.float_of_digits
      [[lit "Qty"]; [lit "100"]] = Ok lines
    /\ map len lines = [7; 7; 7; 8; 7; 0].
Proof. eexists. split; vm_compute; reflexivity. Qed.

(** ** Text that arrives in pieces *)

(** X26. Text that the tokenizer delivers in two pieces gives the same
    parser state as the same text delivered in one piece; and flushing the
    paragraph buffer a second time changes nothing. *)
Theorem parser_text_may_arrive_in_pieces (textwrap_wrap : str -> Z -> list str)
    (float_of_str : str -> option float) (p : Html2Ascii.parser) (a b : str)
    (events : list Html2Ascii.event) :
  Html2Ascii.run textwrap_wrap float_of_str p
    (Html2Ascii.Data a :: Html2Ascii.Data b :: events)
  = Html2Ascii.run textwrap_wrap float_of_str p
      (Html2Ascii.Data (a ++ b) :: events)
  /\ Html2Ascii._flush_buf_as_paragraph textwrap_wrap
       (Html2Ascii._flush_buf_as_paragraph textwrap_wrap p)
     = Html2Ascii._flush_buf_as_paragraph textwrap_wrap p.
Proof.
  split.
  - cbn [Html2Ascii.run Html2Ascii.handle Py.bind]. f_equal.
    unfold Html2Ascii.handle_data.
    destruct p as [w ao out buf li [[rows row [c |] hd] |]];
      cbn [Html2Ascii.p_table Html2Ascii.set_table Html2Ascii.set_buf
           Html2Ascii.p_buf Html2Ascii.p_width Html2Ascii.p_ascii_only
           Html2Ascii.p_out Html2Ascii.p_in_li];
      now rewrite <- app_assoc.
  - unfold Html2Ascii._flush_buf_as_paragraph at 1.
    destruct p as [w ao out buf li tbl].
    unfold Html2Ascii._flush_buf_as_paragraph.
    cbn [Html2Ascii.p_table Html2Ascii.p_buf Html2Ascii.p_width
         Html2Ascii.p_ascii_only Html2Ascii.p_out Html2Ascii.p_in_li].
    reflexivity.
Qed.

(** ** Governors *)


